(** * Truth-py-cyr: the Cyrillic codec and the numeric analyser

    A shallow embedding of [truth.py] (and of the parts of [Truth.py] that
    differ from it) together with the properties of the codec and of the
    number-theoretic helpers.

    Conventions of the embedding.
    - A Python [str] is the list of its code points ([list Z]); [ord] and
      [chr] are then the identity, and [ord(c) - ord('A') + 1] is integer
      arithmetic on [Z].
    - A Python [int] is a [Z]; [//] and [%] with a positive divisor are
      [Z.div] and [Z.modulo] (both floor).
    - A [dict] is a [gmap].
    - A function that can raise returns a [resultat].
    - A [while] loop runs on a budget of iterations and yields an [option];
      the functions that use one are shown to return.
    - The interpreter is one without a limit on the length of decimal
      numerals ([str] and [int]); what is said of numerals that can be
      long is said up to 4300 digits, where the limit changes nothing.
    - What the program reads from its platform is a parameter: the Unicode
      character database ([Unicode]), the conversion of a timestamp to
      local time ([Horloge]) and the parsing of hexadecimal numerals
      ([Base16]). *)

From Stdlib Require Import ZArith Lia String Ascii List Bool SpecFloat.
From stdpp Require Import base option list sorting gmap.

Local Open Scope Z_scope.

(** ** Python strings *)

(** A character is a Unicode code point, a string the list of its
    characters. *)
Abbreviation chaine := (list Z).

(** String literals of this file are written in UTF-8; [utf8] decodes the
    bytes of a literal into code points (one to four byte sequences). *)
Fixpoint utf8_octets (s : String.string) : list Z :=
  match s with
  | EmptyString => []
  | String a s' => Z.of_nat (nat_of_ascii a) :: utf8_octets s'
  end.

Fixpoint utf8_points (fuel : nat) (l : list Z) : list Z :=
  match fuel with
  | O => []
  | S fuel' =>
    match l with
    | [] => []
    | b0 :: r0 =>
      if b0 <? 128 then b0 :: utf8_points fuel' r0
      else if b0 <? 224 then
        match r0 with
        | b1 :: r1 => ((b0 - 192) * 64 + (b1 - 128)) :: utf8_points fuel' r1
        | _ => []
        end
      else if b0 <? 240 then
        match r0 with
        | b1 :: b2 :: r2 =>
          ((b0 - 224) * 4096 + (b1 - 128) * 64 + (b2 - 128))
            :: utf8_points fuel' r2
        | _ => []
        end
      else
        match r0 with
        | b1 :: b2 :: b3 :: r3 =>
          ((b0 - 240) * 262144 + (b1 - 128) * 4096 + (b2 - 128) * 64
           + (b3 - 128)) :: utf8_points fuel' r3
        | _ => []
        end
    end
  end.

Definition utf8 (s : String.string) : list Z :=
  utf8_points (String.length s) (utf8_octets s).

Arguments utf8 s%_string.

(** [ord] of a one-character literal. *)
Definition ord (s : String.string) : Z := hd 0 (utf8 s).
Arguments ord s%_string.

Example utf8_privet :
  utf8 "ПРИВЕТ" = [1055; 1056; 1048; 1042; 1045; 1058].
Proof. reflexivity. Qed.

(** ** Exceptions *)

Inductive exception :=
  | ValueError | KeyError | OSError | OverflowError.

Inductive resultat (A : Type) :=
  | Retour (a : A)
  | Leve (e : exception).
Arguments Retour {A} a.
Arguments Leve {A} e.

#[global] Instance exception_eq_dec : EqDecision exception.
Proof. solve_decision. Defined.
#[global] Instance resultat_eq_dec {A} `{EqDecision A} :
  EqDecision (resultat A).
Proof. solve_decision. Defined.

#[global] Instance resultat_ret : MRet resultat := fun A a => Retour a.
#[global] Instance resultat_bind : MBind resultat := fun A B k r =>
  match r with
  | Retour a => k a
  | Leve e => Leve e
  end.

(** ** The Unicode character database

    [str.upper], [str.isalpha], [str.isdigit] and [int] read the Unicode
    character database of the interpreter.  The embedding takes the
    database as a structure: the four tables the program consults, and the
    facts about them that the proofs use.  [unicode_latin_cyrillique] below
    is the instance used to evaluate the program on concrete words. *)

(** [str.isspace] on one character, the set [str.strip] removes: general
    category Zs or bidirectional class WS, B or S. *)
Definition py_isspace (c : Z) : bool :=
  ((9 <=? c) && (c <=? 13)) || ((28 <=? c) && (c <=? 32))
  || (c =? 133) || (c =? 160) || (c =? 5760)
  || ((8192 <=? c) && (c <=? 8202))
  || (c =? 8232) || (c =? 8233) || (c =? 8239) || (c =? 8287) || (c =? 12288).

Class Unicode := {
  (** [c.upper()]: the full upper-case mapping of one character, which can
      be several characters long *)
  toupper : Z -> chaine;
  (** [c.isalpha()] *)
  isalpha : Z -> bool;
  (** [c.isdigit()] *)
  isdigit : Z -> bool;
  (** the value [int] gives to a decimal digit; [None] for the characters
      that [isdigit] accepts and [int] refuses, such as the superscript two *)
  decimal : Z -> option Z;
  (** '0' .. '9' are digits with their usual value *)
  isdigit_ascii : forall c, 48 <= c <= 57 -> isdigit c = true;
  decimal_ascii : forall c, 48 <= c <= 57 -> decimal c = Some (c - 48);
  (** the capital letters А .. Я and Ё are their own upper case, the small
      letters а .. я and ё have the capital letter as upper case *)
  toupper_majuscule :
    forall c, 1040 <= c <= 1071 \/ c = 1025 -> toupper c = [c];
  toupper_minuscule :
    forall c, 1072 <= c <= 1103 -> toupper c = [c - 32];
  toupper_io : toupper 1105 = [1025];
  (** in Basic Latin the small letters a .. z have the capital letter as
      upper case and nothing else has a case *)
  toupper_ascii :
    forall c, 0 <= c < 128 ->
      toupper c = [if (97 <=? c) && (c <=? 122) then c - 32 else c];
  (** white space has no case *)
  toupper_space : forall c, py_isspace c = true -> toupper c = [c];
  (** an upper-cased character is stable under upper-casing *)
  toupper_idem : forall c, flat_map toupper (toupper c) = toupper c
}.

(** ** Python built-ins *)

Section Builtins.
Context `{Unicode}.

(** [s.upper()] *)
Definition py_upper (s : chaine) : chaine := flat_map toupper s.

(** [s.lstrip()], [s.rstrip()], [s.strip()] *)
Fixpoint py_lstrip (s : chaine) : chaine :=
  match s with
  | [] => []
  | c :: r => if py_isspace c then py_lstrip r else s
  end.

Definition py_rstrip (s : chaine) : chaine := rev (py_lstrip (rev s)).

Definition py_strip (s : chaine) : chaine := py_rstrip (py_lstrip s).

(** [s.split(sep)] for a one-character separator: never empty, it is
    [['']] on the empty string. *)
Fixpoint py_split (sep : Z) (s : chaine) : list chaine :=
  match s with
  | [] => [[]]
  | c :: r =>
    if c =? sep then [] :: py_split sep r
    else match py_split sep r with
         | t :: ts => (c :: t) :: ts
         | [] => [[c]]
         end
  end.

(** [sep.join(l)] *)
Fixpoint py_join (sep : chaine) (l : list chaine) : chaine :=
  match l with
  | [] => []
  | x :: r =>
    match r with
    | [] => x
    | _ :: _ => x ++ sep ++ py_join sep r
    end
  end.

(** The digit of value [d] in bases up to 16, lower case as [hex] prints. *)
Definition chiffre (d : Z) : Z := if d <? 10 then 48 + d else 87 + d.

(** Positional notation of [n >= 0], most significant digit first. *)
Fixpoint chiffres_aux (fuel : nat) (base n : Z) (acc : chaine) : chaine :=
  match fuel with
  | O => acc
  | S fuel' =>
    let acc' := chiffre (n mod base) :: acc in
    if n <? base then acc' else chiffres_aux fuel' base (n / base) acc'
  end.

Definition chiffres (base n : Z) : chaine :=
  chiffres_aux (S (Z.to_nat (Z.log2 n))) base n [].

(** [str(n)], [hex(n)], [bin(n)] for an [int].  [str] is the one of an
    interpreter without a limit on the length of decimal numerals; the
    limit is a setting of the interpreter, of 4300 digits where it has one
    by default, so it changes nothing below 10 ** 4300. *)
Definition py_str (n : Z) : chaine :=
  if n <? 0 then ord "-" :: chiffres 10 (- n) else chiffres 10 n.

Definition py_hex (n : Z) : chaine :=
  if n <? 0 then utf8 "-0x" ++ chiffres 16 (- n) else utf8 "0x" ++ chiffres 16 n.

Definition py_bin (n : Z) : chaine :=
  if n <? 0 then utf8 "-0b" ++ chiffres 2 (- n) else utf8 "0b" ++ chiffres 2 n.

(** [s.isdigit()]: at least one character, all of them digits *)
Definition py_isdigit (s : chaine) : bool :=
  match s with
  | [] => false
  | _ :: _ => forallb isdigit s
  end.

(** [int(s)] on a string of digits: [ValueError] when one of them has no
    decimal value.  As for [str], the function is the one of an
    interpreter without a limit on the length of decimal numerals: where
    there is one, a string of more than 4300 digits is a further
    [ValueError]; up to 4300 digits the limit changes nothing. *)
Definition py_int (s : chaine) : resultat Z :=
  match s with
  | [] => Leve ValueError
  | _ :: _ =>
    fold_left (fun acc c =>
                 n ← acc;
                 match decimal c with
                 | Some d => Retour (10 * n + d)
                 | None => Leve ValueError
                 end) s (Retour 0)
  end.

(** [d[k]] *)
Definition py_getitem (d : gmap Z Z) (k : Z) : resultat Z :=
  match d !! k with
  | Some v => Retour v
  | None => Leve KeyError
  end.

(** [for x in l: s = corps(s, x)] where the body can raise *)
Fixpoint pour {A S : Type} (l : list A) (corps : S -> A -> resultat S)
    (s : S) : resultat S :=
  match l with
  | [] => Retour s
  | x :: r => s' ← corps s x; pour r corps s'
  end.

End Builtins.

(** The database restricted to Basic Latin and to the Cyrillic letters
    U+0400 .. U+045F; every other character is taken as a caseless
    non-letter, non-digit. *)
Definition toupper_lc (c : Z) : chaine :=
  if (97 <=? c) && (c <=? 122) then [c - 32]
  else if (1072 <=? c) && (c <=? 1103) then [c - 32]
  else if (1104 <=? c) && (c <=? 1119) then [c - 80]
  else [c].

Definition isalpha_lc (c : Z) : bool :=
  ((65 <=? c) && (c <=? 90)) || ((97 <=? c) && (c <=? 122))
  || ((1024 <=? c) && (c <=? 1119)).

Definition isdigit_lc (c : Z) : bool := (48 <=? c) && (c <=? 57).

Definition decimal_lc (c : Z) : option Z :=
  if isdigit_lc c then Some (c - 48) else None.

(** Boolean range tests turned into linear arithmetic. *)
Ltac bornes :=
  repeat match goal with
         | |- context [if ?b then _ else _] => destruct b eqn:?
         end;
  rewrite ?andb_true_iff, ?orb_true_iff, ?andb_false_iff, ?orb_false_iff,
    ?Z.leb_le, ?Z.leb_gt, ?Z.ltb_lt, ?Z.ltb_ge, ?Z.eqb_eq, ?Z.eqb_neq in *;
  try first [reflexivity | discriminate | lia | (f_equal; lia)].

Lemma isdigit_lc_ascii c : 48 <= c <= 57 -> isdigit_lc c = true.
Proof. intros Hc. unfold isdigit_lc. bornes. Qed.

Lemma decimal_lc_ascii c : 48 <= c <= 57 -> decimal_lc c = Some (c - 48).
Proof. intros Hc. unfold decimal_lc. rewrite isdigit_lc_ascii; auto. Qed.

Lemma toupper_lc_majuscule c :
  1040 <= c <= 1071 \/ c = 1025 -> toupper_lc c = [c].
Proof. intros Hc. unfold toupper_lc. bornes. Qed.

Lemma toupper_lc_minuscule c : 1072 <= c <= 1103 -> toupper_lc c = [c - 32].
Proof. intros Hc. unfold toupper_lc. bornes. Qed.

Lemma toupper_lc_ascii c :
  0 <= c < 128 ->
  toupper_lc c = [if (97 <=? c) && (c <=? 122) then c - 32 else c].
Proof. intros Hc. unfold toupper_lc. bornes. Qed.

Lemma toupper_lc_space c : py_isspace c = true -> toupper_lc c = [c].
Proof. intros Hc. unfold py_isspace in Hc. unfold toupper_lc. bornes. Qed.

Lemma toupper_lc_idem c : flat_map toupper_lc (toupper_lc c) = toupper_lc c.
Proof.
  unfold toupper_lc at 2 3.
  repeat match goal with
         | |- context [if ?b then _ else _] => destruct b eqn:?
         end;
  cbn [flat_map app]; rewrite app_nil_r; unfold toupper_lc; bornes.
Qed.

Definition unicode_latin_cyrillique : Unicode := {|
  toupper := toupper_lc;
  isalpha := isalpha_lc;
  isdigit := isdigit_lc;
  decimal := decimal_lc;
  isdigit_ascii := isdigit_lc_ascii;
  decimal_ascii := decimal_lc_ascii;
  toupper_majuscule := toupper_lc_majuscule;
  toupper_minuscule := toupper_lc_minuscule;
  toupper_io := eq_refl;
  toupper_ascii := toupper_lc_ascii;
  toupper_space := toupper_lc_space;
  toupper_idem := toupper_lc_idem
|}.

(** ** The alphabet tables *)

(** {'А': 1, 'Б': 2, ..., 'Я': 33}, keyed by code point. *)
Definition ALPHABET_CYRILLIQUE : gmap Z Z :=
  list_to_map [
    (ord "А", 1); (ord "Б", 2); (ord "В", 3); (ord "Г", 4); (ord "Д", 5);
    (ord "Е", 6); (ord "Ё", 7); (ord "Ж", 8); (ord "З", 9); (ord "И", 10);
    (ord "Й", 11); (ord "К", 12); (ord "Л", 13); (ord "М", 14); (ord "Н", 15);
    (ord "О", 16); (ord "П", 17); (ord "Р", 18); (ord "С", 19); (ord "Т", 20);
    (ord "У", 21); (ord "Ф", 22); (ord "Х", 23); (ord "Ц", 24); (ord "Ч", 25);
    (ord "Ш", 26); (ord "Щ", 27); (ord "Ъ", 28); (ord "Ы", 29); (ord "Ь", 30);
    (ord "Э", 31); (ord "Ю", 32); (ord "Я", 33) ].

(** {v: k for k, v in ALPHABET_CYRILLIQUE.items()} *)
Definition ALPHABET_INVERSE : gmap Z Z :=
  list_to_map ((fun kv => (kv.2, kv.1)) <$> map_to_list ALPHABET_CYRILLIQUE).

(** ** The codec *)

Section Codec.
Context `{Unicode}.

Definition encoder_mot_cyrillique (mot : chaine) : chaine :=
  let mot := py_strip (py_upper mot) in
  let resultat :=
    fold_left
      (fun (resultat : list chaine) (lettre : Z) =>
         match ALPHABET_CYRILLIQUE !! lettre with
         | Some numero => resultat ++ [py_str numero]
         | None =>
           if isalpha lettre
           then resultat ++ [py_str (lettre - ord "A" + 1)]
           else resultat
         end)
      mot [] in
  py_join (utf8 ".") resultat.

(** The [if]/[elif] cascade of the decoder on a parsed token. *)
Inductive branche := Primaire | Latine | Ignoree.

Definition choix_branche (numero : Z) : branche :=
  if (1 <=? numero) && (numero <=? 33) then Primaire
  else if (1 <=? numero) && (numero <=? 26) then Latine
  else Ignoree.

Definition decoder_sequence_cyrillique (sequence : chaine)
    : resultat chaine :=
  let nombres := py_split (ord ".") sequence in
  mot_decode ←
    pour nombres
      (fun (mot_decode : list chaine) (nombre : chaine) =>
         if py_isdigit nombre then
           numero ← py_int nombre;
           match choix_branche numero with
           | Primaire =>
             lettre ← py_getitem ALPHABET_INVERSE numero;
             Retour (mot_decode ++ [[lettre]])
           | Latine =>
             let lettre := numero + ord "A" - 1 in
             Retour (mot_decode ++ [[lettre]])
           | Ignoree => Retour mot_decode
           end
         else Retour mot_decode)
      [];
  Retour (py_join [] mot_decode).

Definition mot_vers_nombre (mot : chaine) : Z :=
  let mot := py_strip (py_upper mot) in
  fold_left
    (fun (total : Z) (lettre : Z) =>
       match ALPHABET_CYRILLIQUE !! lettre with
       | Some numero => total + numero
       | None => total
       end)
    mot 0.

End Codec.

(** *** Notions used to state the properties of the codec *)

(** A character of the primary alphabet: a key of the table. *)
Definition primaire (c : Z) : Prop := is_Some (ALPHABET_CYRILLIQUE !! c).

(** The code of a character of the primary alphabet, 0 for any other. *)
Definition valeur (c : Z) : Z :=
  match ALPHABET_CYRILLIQUE !! c with
  | Some numero => numero
  | None => 0
  end.

(** The sum of the codes of the characters of a string. *)
Definition somme (s : chaine) : Z := foldr (fun c t => valeur c + t) 0 s.

(** The number a string of ASCII digits denotes. *)
Definition valeur_decimale (s : chaine) : Z :=
  fold_left (fun acc d => 10 * acc + (d - 48)) s 0.

(** A capital Basic Latin letter, what [chr(numero + ord('A') - 1)] is for
    [numero] in 1 .. 26. *)
Definition lettre_latine (c : Z) : Prop := 65 <= c <= 90.

Section DefsCodec.
Context `{Unicode}.

(** A letter of the primary alphabet in either case: upper-casing gives a
    key of the table. *)
Definition lettre_primaire (c : Z) : Prop :=
  exists k, toupper c = [k] /\ primaire k.

(** What one character adds to the list of tokens in the encoder. *)
Definition jeton (lettre : Z) : list chaine :=
  match ALPHABET_CYRILLIQUE !! lettre with
  | Some numero => [py_str numero]
  | None => if isalpha lettre then [py_str (lettre - ord "A" + 1)] else []
  end.

(** The body of the loop of the decoder. *)
Definition corps_decodeur (mot_decode : list chaine) (nombre : chaine)
    : resultat (list chaine) :=
  if py_isdigit nombre then
    numero ← py_int nombre;
    match choix_branche numero with
    | Primaire =>
      lettre ← py_getitem ALPHABET_INVERSE numero;
      Retour (mot_decode ++ [[lettre]])
    | Latine =>
      let lettre := numero + ord "A" - 1 in
      Retour (mot_decode ++ [[lettre]])
    | Ignoree => Retour mot_decode
    end
  else Retour mot_decode.

End DefsCodec.

(** ** The numeric analyser *)

(** [while cond(s): s = corps(s)] with a budget of iterations; [None] when
    the budget runs out before the condition turns false. *)
Fixpoint tant_que {S : Type} (budget : nat) (cond : S -> bool)
    (corps : S -> option S) (s : S) : option S :=
  match budget with
  | O => None
  | Datatypes.S budget' =>
    if cond s then s' ← corps s; tant_que budget' cond corps s'
    else Some s
  end.

(** The truth value of an [int] in a condition *)
Definition py_vrai (x : Z) : bool := negb (x =? 0).

(** [range(a, b)] *)
Definition py_range (a b : Z) : list Z := seqZ a (b - a).

(** [factorize]: both loops run on a budget of [n + 1] iterations, which
    [factorize_termine] shows is never used up. *)
Definition factorize (n : Z) : option (list Z) :=
  if n <? 2 then Some [n]
  else
    let budget := Datatypes.S (Z.to_nat n) in
    '(n, d, factors) ←
      tant_que budget
        (fun '(n, d, factors) => d * d <=? n)
        (fun '(n, d, factors) =>
           '(n, factors) ←
             tant_que budget
               (fun '(n, factors) => n mod d =? 0)
               (fun '(n, factors) => Some (n / d, factors ++ [d]))
               (n, factors);
           Some (n, d + 1, factors))
        (n, 2, []);
    Some (if 1 <? n then factors ++ [n] else factors).

(** *** [math.sqrt] in binary64

    [float(n)] rounds an [int] to the nearest binary64 number, ties to
    even; [math.sqrt] is the correctly rounded square root; [int(x)]
    truncates.  The three are written with the reference implementation of
    IEEE 754 of the standard library.  The result is [None] when the
    [int] is too large for a float, where Python raises [OverflowError]. *)
Definition float_de_int (n : Z) : spec_float :=
  binary_normalize 53 1024 n 0 false.

Definition int_de_float (x : spec_float) : option Z :=
  match x with
  | S754_zero _ => Some 0
  | S754_finite s m e =>
    let v := if 0 <=? e then Zpos m * 2 ^ e else Zpos m / 2 ^ (- e) in
    Some (if s then - v else v)
  | S754_infinity _ | S754_nan => None
  end.

Definition int_math_sqrt_binary64 (n : Z) : option Z :=
  int_de_float (SFsqrt 53 1024 (float_de_int n)).

(** The [for] loop of [is_prime], which returns at the first divisor. *)
Fixpoint is_prime_boucle (n : Z) (l : list Z) : bool :=
  match l with
  | [] => true
  | i :: r => if n mod i =? 0 then false else is_prime_boucle n r
  end.

(** [is_prime]: the bound of the loop is [int(math.sqrt(n))], computed in
    binary64; [math.sqrt] raises [OverflowError] on an [int] that is too
    large for a float. *)
Definition is_prime (n : Z) : resultat bool :=
  if n <? 2 then Retour false
  else
    match int_math_sqrt_binary64 n with
    | Some racine => Retour (is_prime_boucle n (py_range 2 (racine + 1)))
    | None => Leve OverflowError
    end.

(** [math.isqrt] *)
Definition math_isqrt (n : Z) : resultat Z :=
  if n <? 0 then Leve ValueError else Retour (Z.sqrt n).

(** [is_fibonacci]; [or] evaluates its right operand only when the left
    one is false. *)
Definition is_fibonacci (n : Z) : resultat bool :=
  if n <? 0 then Retour false
  else
    let x := 5 * n * n in
    a ← math_isqrt (x + 4);
    if a ^ 2 =? x + 4 then Retour true
    else b ← math_isqrt (x - 4); Retour (b ^ 2 =? x - 4).

Definition IPV4_INVALIDE : chaine :=
  utf8 "Неверный IPv4 адрес (Invalid IPv4 address)".

Definition number_to_ipv4 (n : Z) : chaine :=
  if (0 <=? n) && (n <=? 0xFFFFFFFF) then
    py_str (Z.land (Z.shiftr n 24) 0xFF) ++ utf8 "."
    ++ py_str (Z.land (Z.shiftr n 16) 0xFF) ++ utf8 "."
    ++ py_str (Z.land (Z.shiftr n 8) 0xFF) ++ utf8 "."
    ++ py_str (Z.land n 0xFF)
  else IPV4_INVALIDE.

(** *** Timestamps

    [datetime.fromtimestamp] converts through the local time zone of the
    platform; the embedding takes it as a parameter.  [time_t] has at
    least 32 bits on every platform of the interpreter, so a timestamp
    between 0 and 2000000000 fits it: the call returns a date, or raises
    [OSError] when the conversion of the C library fails or [ValueError]
    when the year is out of range ([OverflowError] is for a timestamp that
    does not fit [time_t]). *)
Record datetime := {
  year : Z; month : Z; day : Z; hour : Z; minute : Z; second : Z
}.

Definition bissextile (y : Z) : bool :=
  (y mod 4 =? 0) && (negb (y mod 100 =? 0) || (y mod 400 =? 0)).

(** The number of days of a month *)
Definition jours_du_mois (y m : Z) : Z :=
  nth (Z.to_nat m) [0; 31; 28; 31; 30; 31; 30; 31; 31; 30; 31; 30; 31] 0
  + (if (m =? 2) && bissextile y then 1 else 0).

(** What a [datetime] object holds, for a year of four digits: a date of
    the calendar and a time of the day; the fields are checked when the
    object is built, and the seconds stop at 59. *)
Definition date_valide (d : datetime) : Prop :=
  1000 <= year d <= 9999 /\ 1 <= month d <= 12
  /\ 1 <= day d <= jours_du_mois (year d) (month d)
  /\ 0 <= hour d <= 23 /\ 0 <= minute d <= 59 /\ 0 <= second d <= 59.

Class Horloge := {
  fromtimestamp : Z -> resultat datetime;
  fromtimestamp_erreurs :
    forall t e, 0 <= t <= 2000000000 -> fromtimestamp t = Leve e ->
      e = ValueError \/ e = OSError;
  (** between 1970 and 2033 in UTC the local date is a date of these
      years, or of 1969, in every time zone *)
  fromtimestamp_date :
    forall t d, 0 <= t <= 2000000000 -> fromtimestamp t = Retour d ->
      date_valide d
}.

(** [date.toordinal]: the day number, 1 for 1 January of year 1. *)
Definition jours_avant_annee (y : Z) : Z :=
  let y := y - 1 in y * 365 + y / 4 - y / 100 + y / 400.

Definition jours_avant_mois (y m : Z) : Z :=
  nth (Z.to_nat m)
      [0; 0; 31; 59; 90; 120; 151; 181; 212; 243; 273; 304; 334] 0
  + (if (2 <? m) && bissextile y then 1 else 0).

Definition toordinal (d : datetime) : Z :=
  jours_avant_annee (year d) + jours_avant_mois (year d) (month d) + day d.

(** [date.weekday]: 0 for Monday *)
Definition weekday (d : datetime) : Z := (toordinal d + 6) mod 7.

Definition NOMS_JOURS : list chaine :=
  [utf8 "Monday"; utf8 "Tuesday"; utf8 "Wednesday"; utf8 "Thursday";
   utf8 "Friday"; utf8 "Saturday"; utf8 "Sunday"].

Definition NOMS_MOIS : list chaine :=
  [utf8 "January"; utf8 "February"; utf8 "March"; utf8 "April"; utf8 "May";
   utf8 "June"; utf8 "July"; utf8 "August"; utf8 "September";
   utf8 "October"; utf8 "November"; utf8 "December"].

(** Two digits, as [%d], [%H], [%M] and [%S] print *)
Definition deux_chiffres (n : Z) : chaine :=
  if n <? 10 then ord "0" :: py_str n else py_str n.

(** [d.strftime('%A, %d %B %Y at %H:%M:%S UTC')] in the C locale, which is
    the one in force since the program never sets another; [%Y] is written
    for years of four digits. *)
Definition strftime (d : datetime) : chaine :=
  nth (Z.to_nat (weekday d)) NOMS_JOURS [] ++ utf8 ", "
  ++ deux_chiffres (day d) ++ utf8 " "
  ++ nth (Z.to_nat (month d - 1)) NOMS_MOIS [] ++ utf8 " "
  ++ py_str (year d) ++ utf8 " at "
  ++ deux_chiffres (hour d) ++ utf8 ":"
  ++ deux_chiffres (minute d) ++ utf8 ":"
  ++ deux_chiffres (second d) ++ utf8 " UTC".

Definition TIMESTAMP_INVALIDE : chaine :=
  utf8 "Неверная или вне диапазона метка времени "
  ++ utf8 "(Invalid or out-of-range timestamp)".

Section Temps.
Context `{Horloge}.

(** The [try] block yields [Some s] when it returns [s] and [None] when it
    falls through to the statement after the handler. *)
Definition unix_to_datetime (timestamp : Z) : resultat chaine :=
  let essai : resultat (option chaine) :=
    if (0 <=? timestamp) && (timestamp <=? 2000000000) then
      d ← fromtimestamp timestamp; Retour (Some (strftime d))
    else Retour None in
  match essai with
  | Retour (Some s) => Retour s
  | Retour None => Retour TIMESTAMP_INVALIDE
  | Leve ValueError | Leve OSError => Retour TIMESTAMP_INVALIDE
  | Leve e => Leve e
  end.

End Temps.

(** [s] writes the number [v] with [k] decimal digits. *)
Definition ecrit_sur (k : nat) (v : Z) (s : chaine) : Prop :=
  length s = k /\ Forall (fun c => 48 <= c <= 57) s /\ valeur_decimale s = v.

(** A platform whose local time zone is UTC: the civil date of a day
    number, counted from 1 March 2000 in eras of 400 years. *)
Definition date_civile (jours : Z) : Z * Z * Z :=
  let z := jours + 719468 in
  let ere := z / 146097 in
  let doe := z mod 146097 in
  let yoe := (doe - doe / 1460 + doe / 36524 - doe / 146096) / 365 in
  let doy := doe - (365 * yoe + yoe / 4 - yoe / 100) in
  let mp := (5 * doy + 2) / 153 in
  let j := doy - (153 * mp + 2) / 5 + 1 in
  let m := if mp <? 10 then mp + 3 else mp - 9 in
  let y := yoe + ere * 400 + (if m <=? 2 then 1 else 0) in
  (y, m, j).

Definition fromtimestamp_utc (t : Z) : resultat datetime :=
  let '(y, m, j) := date_civile (t / 86400) in
  let reste := t mod 86400 in
  Retour {| year := y; month := m; day := j;
            hour := reste / 3600; minute := reste mod 3600 / 60;
            second := reste mod 60 |}.

(** The civil date of every day from 1 January 1970 to 18 May 2033 is a
    date of the calendar, and [toordinal] gives its day number back. *)
Definition date_civile_juste (jours : Z) : bool :=
  let '(y, m, j) := date_civile jours in
  (1970 <=? y) && (y <=? 2033) && (1 <=? m) && (m <=? 12)
  && (1 <=? j) && (j <=? jours_du_mois y m)
  && (toordinal {| year := y; month := m; day := j;
                   hour := 0; minute := 0; second := 0 |}
      =? 719163 + jours).

(** A test on the [k] integers from [i] on, for the facts that are
    checked case by case. *)
Fixpoint pour_tout_entre (k : nat) (i : Z) (f : Z -> bool) : bool :=
  match k with
  | O => true
  | S k' => f i && pour_tout_entre k' (i + 1) f
  end.

Lemma pour_tout_entre_spec n i f :
  pour_tout_entre (Z.to_nat n) i f = true ->
  forall j, i <= j < i + n -> f j = true.
Proof.
  assert (forall k i, pour_tout_entre k i f = true ->
            forall j, i <= j < i + Z.of_nat k -> f j = true) as Hgen.
  { clear. induction k as [|k IH]; intros i Hall j Hj; [lia|].
    cbn [pour_tout_entre] in Hall. apply andb_true_iff in Hall as [Hi Hall].
    destruct (Z.eq_dec j i) as [->|Hne]; [exact Hi|].
    apply (IH (i + 1) Hall). lia. }
  intros Hall j Hj. apply (Hgen _ _ Hall). lia.
Qed.

Lemma date_civile_spec jours :
  0 <= jours <= 23148 -> date_civile_juste jours = true.
Proof.
  intros Hj.
  apply (pour_tout_entre_spec 23149 0); [vm_compute; reflexivity|lia].
Qed.

Lemma fromtimestamp_utc_spec t :
  0 <= t <= 2000000000 ->
  exists d, fromtimestamp_utc t = Retour d
    /\ date_valide d
    /\ toordinal d = 719163 + t / 86400
    /\ 3600 * hour d + 60 * minute d + second d = t mod 86400.
Proof.
  intros Ht. unfold fromtimestamp_utc.
  assert (0 <= t / 86400 <= 23148) as Hj
    by (Z.div_mod_to_equations; lia).
  pose proof (date_civile_spec _ Hj) as Hd. unfold date_civile_juste in Hd.
  destruct (date_civile (t / 86400)) as [[y m] j].
  rewrite !andb_true_iff, !Z.leb_le, Z.eqb_eq in Hd.
  destruct Hd as ((((((Hy1 & Hy2) & Hm1) & Hm2) & Hj1) & Hj2) & Hord).
  pose proof (Z.mod_pos_bound t 86400 ltac:(lia)) as Hr.
  eexists. split; [reflexivity|]. unfold date_valide.
  cbn [year month day hour minute second].
  split; [|split; [exact Hord|]].
  - repeat split; try lia; Z.div_mod_to_equations; lia.
  - Z.div_mod_to_equations. lia.
Qed.

Lemma fromtimestamp_utc_date t d :
  0 <= t <= 2000000000 -> fromtimestamp_utc t = Retour d -> date_valide d.
Proof.
  intros Ht E. destruct (fromtimestamp_utc_spec t Ht) as (d' & E' & Hd & _).
  congruence.
Qed.

Lemma fromtimestamp_utc_erreurs t e :
  0 <= t <= 2000000000 -> fromtimestamp_utc t = Leve e ->
  e = ValueError \/ e = OSError.
Proof.
  intros Ht E. destruct (fromtimestamp_utc_spec t Ht) as (d' & E' & _).
  congruence.
Qed.

Definition horloge_utc : Horloge := {|
  fromtimestamp := fromtimestamp_utc;
  fromtimestamp_erreurs := fromtimestamp_utc_erreurs;
  fromtimestamp_date := fromtimestamp_utc_date
|}.

(** The value of a call that returns, nothing for one that raises. *)
Definition sans_exception {A : Type} (r : resultat A) : option A :=
  match r with
  | Retour x => Some x
  | Leve _ => None
  end.

(** The entries of the report of [analyser_nombre] that come from base
    conversion and from the arithmetic helpers.  The report is a part of
    the dictionary that the function builds: its other entries are not
    part of it, and some of them can raise (the words of
    [number_to_english], the sum of the digits of a negative number, the
    conversions to a float).  So [analyser_nombre n = Some r] says what
    these six entries are when the call returns, not that it returns;
    there is no report, [None], when [is_prime] raises. *)
Record rapport := {
  decimal_ : Z;
  hexadecimal : chaine;
  binary : chaine;
  parity : chaine;
  factors : list Z;
  prime_status : chaine
}.

Section Analyse.
Context `{Unicode}.

Definition analyser_nombre (nombre : Z) : option rapport :=
  f ← factorize nombre;
  premier ← sans_exception (is_prime nombre);
  Some {|
    decimal_ := nombre;
    hexadecimal := py_upper (drop 2 (py_hex nombre));
    binary := drop 2 (py_bin nombre);
    parity := if py_vrai (nombre mod 2) then utf8 "Нечетное (Odd)"
              else utf8 "Четное (Even)";
    factors := f;
    prime_status := if (premier : bool) then utf8 "Простое (Prime)"
                    else utf8 "Составное (Composite)"
  |}.

End Analyse.

(** [Truth.py]: the codec, [factorize] and [is_prime] are those of
    [truth.py]; the report has its own labels. *)
Module Truth.
Section Analyse.
Context `{Unicode}.

Definition analyser_nombre (nombre : Z) : option rapport :=
  f ← factorize nombre;
  premier ← sans_exception (is_prime nombre);
  Some {|
    decimal_ := nombre;
    hexadecimal := py_upper (drop 2 (py_hex nombre));
    binary := drop 2 (py_bin nombre);
    parity := if py_vrai (nombre mod 2) then utf8 "Odd" else utf8 "Even";
    factors := f;
    prime_status := if (premier : bool) then utf8 "Prime"
                    else utf8 "Composite"
  |}.

End Analyse.
End Truth.

(** *** Notions used to state the properties of the analyser *)

(** A divisor of [n] between 2 and its square root. *)
Definition petit_diviseur (n p : Z) : Prop :=
  2 <= p /\ p * p <= n /\ n mod p = 0.


(** The Fibonacci sequence 0, 1, 1, 2, 3, 5, 8, ... and the Lucas sequence
    2, 1, 3, 4, 7, 11, ... that accompanies it. *)
Fixpoint fib (k : nat) : Z :=
  match k with
  | O => 0
  | S k' => match k' with
            | O => 1
            | S k'' => fib k' + fib k''
            end
  end.

Fixpoint luc (k : nat) : Z :=
  match k with
  | O => 2
  | S k' => match k' with
            | O => 1
            | S k'' => luc k' + luc k''
            end
  end.

Definition carre_parfait (m : Z) : Prop := exists r, r * r = m.

(** The four bytes of a 32-bit value, most significant first, and the
    value of a sequence of bytes read in that order. *)
Definition octets_gros_boutiste (n : Z) : list Z :=
  [n / 2 ^ 24 mod 256; n / 2 ^ 16 mod 256; n / 2 ^ 8 mod 256; n mod 256].

Definition valeur_gros_boutiste (l : list Z) : Z :=
  fold_left (fun acc b => acc * 256 + b) l 0.

(** * Further functions of the two files *)

(** The product of a list of factors. *)
Definition produit (l : list Z) : Z := foldr Z.mul 1 l.

(** [while cond(s): s = corps(s)] where the body can raise, with a budget
    of iterations. *)
Fixpoint tant_que_resultat {S : Type} (budget : nat) (cond : S -> bool)
    (corps : S -> resultat S) (s : S) : option (resultat S) :=
  match budget with
  | O => None
  | Datatypes.S budget' =>
    if cond s then
      match corps s with
      | Retour s' => tant_que_resultat budget' cond corps s'
      | Leve e => Some (Leve e)
      end
    else Some (Retour s)
  end.

(** [find_previous_primes]; the loop runs on a budget of [n + 1]
    iterations, which is never used up.  An exception of [is_prime] ends
    the call. *)
Definition find_previous_primes (n count : Z) : option (resultat (list Z)) :=
  r ← tant_que_resultat (S (Z.to_nat n))
        (fun '(primes, candidate) =>
           (Z.of_nat (length primes) <? count) && (1 <? candidate))
        (fun '(primes, candidate) =>
           premier ← is_prime candidate;
           Retour (if (premier : bool) then primes ++ [candidate] else primes,
                   candidate - 1))
        ([], n - 1);
  Some ('(primes, _) ← r; Retour primes).

(** What the outer loop of [factorize] maintains on the way to the full
    factorization: the factors found so far are primes below [d], in
    nondecreasing order, their product times what is left of [n] is the
    argument, and nothing below [d] divides what is left. *)
Definition invariant_factorisation (n0 : Z) (s : Z * Z * list Z) : Prop :=
  let '(n, d, factors) := s in
  2 <= d /\ 1 <= n <= n0 /\ produit factors * n = n0
  /\ Forall Z.prime factors /\ Forall (fun p => p < d) factors
  /\ StronglySorted Z.le factors
  /\ forall i, 2 <= i < d -> n mod i <> 0.

Section Sequences.
Context `{Unicode}.

(** [sequence_vers_nombre] *)
Definition sequence_vers_nombre (sequence : chaine) : resultat Z :=
  let nombres := py_split (ord ".") sequence in
  pour nombres
    (fun (total : Z) (nombre : chaine) =>
       if py_isdigit nombre then
         numero ← py_int nombre;
         Retour (total + numero)
       else Retour total)
    0.

(** What the decoder gives back for one character of an encoded word: the
    character itself when it is in the table; for another letter, the
    letter of the table whose code is the rank [ord(c) - ord('A') + 1],
    when there is one; nothing otherwise. *)
Definition lettre_decodee (c : Z) : chaine :=
  match ALPHABET_CYRILLIQUE !! c with
  | Some _ => [c]
  | None =>
    if isalpha c then
      match ALPHABET_INVERSE !! (c - ord "A" + 1) with
      | Some lettre => [lettre]
      | None => []
      end
    else []
  end.

End Sequences.

(** ** The properties of the text *)

(** [s.replace(old, new)] for a one-character [old] *)
Definition py_replace (old : Z) (new s : chaine) : chaine :=
  flat_map (fun c => if c =? old then new else [c]) s.

(** [sum(l)] *)
Definition py_sum (l : list Z) : Z := fold_left Z.add l 0.

(** [sorted(l)] on code points: the sorted list does not depend on the
    algorithm. *)
Definition py_sorted (l : list Z) : list Z := merge_sort Z.le l.

Section Texte.
Context `{Unicode}.

Definition est_palindrome (mot : chaine) : bool :=
  let mot := py_replace (ord " ") [] (py_upper mot) in
  bool_decide (mot = rev mot).

Definition compter_voyelles_cyrilliques (mot : chaine) : Z :=
  let voyelles := utf8 "АЕЁИОУЫЭЮЯ" in
  let mot := py_upper mot in
  py_sum (map (fun _ => 1) (filter (fun lettre => lettre ∈ voyelles) mot)).

Definition compter_consonnes_cyrilliques (mot : chaine) : Z :=
  let consonnes := utf8 "БВГДЖЗЙКЛМНПРСТФХЦЧШЩ" in
  let mot := py_upper mot in
  py_sum (map (fun _ => 1) (filter (fun lettre => lettre ∈ consonnes) mot)).

(** [set(...)] is a finite set of code points, listed in any order before
    [sorted] orders it. *)
Definition lettres_uniques (mot : chaine) : chaine :=
  let ensemble : gset Z := list_to_set (py_upper mot) in
  py_join [] (map (fun c => [c]) (py_sorted (elements ensemble))).

End Texte.

(** ** Numbers in words *)

(** The result of a computation that indexes lists: a value, or the
    [IndexError] of an index out of range. *)
Inductive issue (A : Type) : Type :=
  | Rendu (x : A)
  | IndexError.
Arguments Rendu {A} x.
Arguments IndexError {A}.

#[global] Instance issue_ret : MRet issue := fun A x => Rendu x.
#[global] Instance issue_bind : MBind issue := fun A B f r =>
  match r with
  | Rendu x => f x
  | IndexError => IndexError
  end.

(** [l[i]]: a negative index counts from the end. *)
Definition py_index {A : Type} (l : list A) (i : Z) : issue A :=
  let n := Z.of_nat (length l) in
  let j := if i <? 0 then i + n else i in
  if (0 <=? j) && (j <? n) then
    match l !! Z.to_nat j with
    | Some x => Rendu x
    | None => IndexError
    end
  else IndexError.

(** [while cond(s): s = corps(s)] where the body can raise [IndexError],
    with a budget of iterations. *)
Fixpoint tant_que_index {S : Type} (budget : nat) (cond : S -> bool)
    (corps : S -> issue S) (s : S) : option (issue S) :=
  match budget with
  | O => None
  | Datatypes.S budget' =>
    if cond s then
      match corps s with
      | Rendu s' => tant_que_index budget' cond corps s'
      | IndexError => Some IndexError
      end
    else Some (Rendu s)
  end.

Definition units : list chaine :=
  [ []; utf8 "один (one)"; utf8 "два (two)"; utf8 "три (three)";
    utf8 "четыре (four)"; utf8 "пять (five)"; utf8 "шесть (six)";
    utf8 "семь (seven)"; utf8 "восемь (eight)"; utf8 "девять (nine)" ].

Definition teens : list chaine :=
  [ utf8 "десять (ten)"; utf8 "одиннадцать (eleven)";
    utf8 "двенадцать (twelve)"; utf8 "тринадцать (thirteen)";
    utf8 "четырнадцать (fourteen)"; utf8 "пятнадцать (fifteen)";
    utf8 "шестнадцать (sixteen)"; utf8 "семнадцать (seventeen)";
    utf8 "восемнадцать (eighteen)"; utf8 "девятнадцать (nineteen)" ].

Definition tens : list chaine :=
  [ []; []; utf8 "двадцать (twenty)"; utf8 "тридцать (thirty)";
    utf8 "сорок (forty)"; utf8 "пятьдесят (fifty)";
    utf8 "шестьдесят (sixty)"; utf8 "семьдесят (seventy)";
    utf8 "восемьдесят (eighty)"; utf8 "девяносто (ninety)" ].

Definition thousands : list chaine :=
  [ []; utf8 "тысяча (thousand)"; utf8 "миллион (million)";
    utf8 "миллиард (billion)" ].

(** The branches of [convert_hundreds] below 100, where it does not call
    itself. *)
Definition convert_dizaines (num : Z) : issue chaine :=
  if num =? 0 then Rendu []
  else if num <? 10 then py_index units num
  else if num <? 20 then py_index teens (num - 10)
  else
    dizaine ← py_index tens (num / 10);
    suite ← (if negb (num mod 10 =? 0)
             then unite ← py_index units (num mod 10);
                  Rendu (utf8 " " ++ unite)
             else Rendu []);
    Rendu (dizaine ++ suite).

(** [convert_hundreds]: its one recursive call is on [num % 100], which is
    below 100. *)
Definition convert_hundreds (num : Z) : issue chaine :=
  if num <? 100 then convert_dizaines num
  else
    centaine ← py_index units (num / 100);
    suite ← (if negb (num mod 100 =? 0)
             then reste ← convert_dizaines (num mod 100);
                  Rendu (utf8 " " ++ reste)
             else Rendu []);
    Rendu (centaine ++ utf8 " сто (hundred)" ++ suite).

(** The loop of [number_to_english] on [n > 0]; a budget of one iteration
    per binary digit of [n] is more than the loop uses. *)
Definition number_to_english_boucle (n : Z) : option (issue chaine) :=
  r ← tant_que_index (S (S (Z.to_nat (Z.log2 n))))
        (fun '(n, chunk_count, parts) => 0 <? n)
        (fun '(n, chunk_count, parts) =>
           let chunk := n mod 1000 in
           parts ← (if negb (chunk =? 0) then
                      part ← convert_hundreds chunk;
                      part ← (if 0 <? chunk_count
                              then millier ← py_index thousands chunk_count;
                                   Rendu (part ++ utf8 " " ++ millier)
                              else Rendu part);
                      Rendu (parts ++ [part])
                    else Rendu parts);
           Rendu (n / 1000, chunk_count + 1, parts))
        (n, 0, []);
  Some ('(_, _, parts) ← r; Rendu (py_join (utf8 " ") (rev parts))).

(** [number_to_english]: on [n < 0] it calls itself on [-n], which goes to
    the loop. *)
Definition number_to_english (n : Z) : option (issue chaine) :=
  if n =? 0 then Some (Rendu (utf8 "ноль (zero)"))
  else if n <? 0 then
    r ← number_to_english_boucle (- n);
    Some (mots ← r; Rendu (utf8 "отрицательный (negative) " ++ mots))
  else number_to_english_boucle n.

(** ** Digits *)

(** The value of a digit in bases up to 36, in either case. *)
Definition valeur_chiffre (c : Z) : Z :=
  if c <? 58 then c - 48 else if c <? 91 then c - 55 else c - 87.

(** The number a string of digits denotes in a base. *)
Definition valeur_base (base : Z) (s : chaine) : Z :=
  fold_left (fun acc c => base * acc + valeur_chiffre c) s 0.

Section Chiffres.
Context `{Unicode}.

(** The entries [digit_sum] and [digit_count] of [analyser_nombre]:
    [sum(int(d) for d in str(nombre))] and [len(str(nombre))]. *)
Definition digit_sum (nombre : Z) : resultat Z :=
  pour (py_str nombre)
    (fun (total : Z) (d : Z) => n ← py_int [d]; Retour (total + n))
    0.

Definition digit_count (nombre : Z) : Z := Z.of_nat (length (py_str nombre)).

End Chiffres.

(** ** Colours *)

(** [int(s, 16)] is a parameter: on a string of hexadecimal digits it
    returns the number they denote; what it does with signs, white space,
    underscores, a [0x] prefix and the digits of other scripts is left
    open. *)
Class Base16 := {
  int_16 : chaine -> resultat Z;
  int_16_chiffres :
    forall s, s <> [] ->
      Forall (fun c => 48 <= c <= 57 \/ 65 <= c <= 70 \/ 97 <= c <= 102) s ->
      int_16 s = Retour (valeur_base 16 s)
}.

(** [s.zfill(width)]: the zeros go after a leading sign. *)
Definition py_zfill (width : Z) (s : chaine) : chaine :=
  let zeros := replicate (Z.to_nat (width - Z.of_nat (length s))) (ord "0") in
  match s with
  | c :: r =>
    if (c =? ord "+") || (c =? ord "-") then c :: zeros ++ r else zeros ++ s
  | [] => zeros
  end.

Section Couleur.
Context `{Base16}.

Definition hex_to_rgb (hex_str : chaine) : resultat (Z * Z * Z) :=
  let hex_str := py_zfill 6 hex_str in
  match
    r ← int_16 (take 2 hex_str);
    g ← int_16 (take 2 (drop 2 hex_str));
    b ← int_16 (take 2 (drop 4 hex_str));
    Retour (r, g, b)
  with
  | Leve ValueError => Retour (0, 0, 0)
  | autre => autre
  end.

End Couleur.

(** A model of [int(s, 16)] on strings of hexadecimal digits, [ValueError]
    on every other string. *)
Definition int_16_chiffres_seuls (s : chaine) : resultat Z :=
  match s with
  | [] => Leve ValueError
  | _ :: _ =>
    if forallb (fun c => ((48 <=? c) && (c <=? 57))
                         || ((65 <=? c) && (c <=? 70))
                         || ((97 <=? c) && (c <=? 102))) s
    then Retour (valeur_base 16 s)
    else Leve ValueError
  end.

Lemma int_16_chiffres_seuls_ok s :
  s <> [] ->
  Forall (fun c => 48 <= c <= 57 \/ 65 <= c <= 70 \/ 97 <= c <= 102) s ->
  int_16_chiffres_seuls s = Retour (valeur_base 16 s).
Proof.
  intros Hne Hs. destruct s as [|c r]; [congruence|].
  unfold int_16_chiffres_seuls.
  replace (forallb _ (c :: r)) with true; [reflexivity|].
  symmetry. apply forallb_forall. intros x Hx.
  rewrite Forall_forall in Hs. specialize (Hs x (proj2 (list_elem_of_In _ _) Hx)).
  cbv beta in Hs. bornes.
Qed.

Definition base16_chiffres_seuls : Base16 := {|
  int_16 := int_16_chiffres_seuls;
  int_16_chiffres := int_16_chiffres_seuls_ok
|}.

(** ** The entry points *)

Section Entree.
Context `{Unicode}.

(** The test of [main] and [interface_interactive] for a numeric sequence:
    ['.' in entree and all(part.isdigit() for part in entree.split('.'))]. *)
Definition est_sequence (entree : chaine) : bool :=
  bool_decide (ord "." ∈ entree)
  && forallb py_isdigit (py_split (ord ".") entree).

(** The word that [main] passes to [analyser_mot_cyrillique] for an
    argument of the command line: the decoded sequence, or the stripped
    argument itself. *)
Definition mot_analyse (argument : chaine) : resultat chaine :=
  let entree := py_strip argument in
  if est_sequence entree then decoder_sequence_cyrillique entree
  else Retour entree.

End Entree.

(** * Properties *)

#[global] Arguments ALPHABET_CYRILLIQUE : simpl never.
#[global] Arguments ALPHABET_INVERSE : simpl never.
#[global] Arguments utf8 : simpl never.
#[global] Arguments ord : simpl never.
#[global] Arguments py_str : simpl never.

(** ** Facts about the tables *)

Lemma alphabet_faits :
  map_Forall (fun c n => 1 <= n <= 33 /\ ALPHABET_INVERSE !! n = Some c
                         /\ (1040 <= c <= 1071 \/ c = 1025))
             ALPHABET_CYRILLIQUE.
Proof. apply (bool_decide_unpack _). vm_compute. reflexivity. Qed.

Lemma inverse_faits :
  map_Forall (fun n c => 1 <= n <= 33 /\ ALPHABET_CYRILLIQUE !! c = Some n)
             ALPHABET_INVERSE.
Proof. apply (bool_decide_unpack _). vm_compute. reflexivity. Qed.

Lemma inverse_total n : 1 <= n <= 33 -> is_Some (ALPHABET_INVERSE !! n).
Proof.
  intros Hn.
  assert (Forall (fun n => is_Some (ALPHABET_INVERSE !! n)) (seqZ 1 33)) as HF.
  { apply (bool_decide_unpack _). vm_compute. reflexivity. }
  rewrite Forall_forall in HF. apply HF. apply elem_of_seqZ. lia.
Qed.

Lemma primaire_valeur c :
  primaire c -> ALPHABET_CYRILLIQUE !! c = Some (valeur c).
Proof. intros [n Hn]. unfold valeur. rewrite Hn. reflexivity. Qed.

Lemma primaire_bornes c : primaire c -> 1040 <= c <= 1071 \/ c = 1025.
Proof. intros [n Hn]. apply (alphabet_faits c n Hn). Qed.

Lemma primaire_code c : primaire c -> 1 <= valeur c <= 33.
Proof.
  intros Hc. pose proof (primaire_valeur c Hc) as Hv.
  apply (alphabet_faits c _ Hv).
Qed.

Lemma primaire_inverse c :
  primaire c -> ALPHABET_INVERSE !! valeur c = Some c.
Proof.
  intros Hc. pose proof (primaire_valeur c Hc) as Hv.
  apply (alphabet_faits c _ Hv).
Qed.

Lemma non_primaire_valeur c : ~ primaire c -> valeur c = 0.
Proof.
  intros Hc. unfold valeur. destruct (ALPHABET_CYRILLIQUE !! c) eqn:E; auto.
  exfalso. apply Hc. eexists; eauto.
Qed.

Lemma primaire_non_espace c : primaire c -> py_isspace c = false.
Proof.
  intros Hc. apply primaire_bornes in Hc. unfold py_isspace.
  apply not_true_is_false. intros Hs. bornes.
Qed.

Lemma espace_valeur c : py_isspace c = true -> valeur c = 0.
Proof.
  intros Hs. apply non_primaire_valeur. intros Hc.
  apply primaire_non_espace in Hc. congruence.
Qed.

Lemma primaire_non_latine c : primaire c -> ~ lettre_latine c.
Proof. intros Hc. apply primaire_bornes in Hc. unfold lettre_latine. lia. Qed.

(** ** Strings *)

Lemma py_lstrip_sans_espace s :
  Forall (fun c => py_isspace c = false) s -> py_lstrip s = s.
Proof. destruct 1 as [|c r Hc _]; simpl; [reflexivity|]. rewrite Hc. reflexivity. Qed.

Lemma py_strip_sans_espace s :
  Forall (fun c => py_isspace c = false) s -> py_strip s = s.
Proof.
  intros Hs. unfold py_strip, py_rstrip.
  rewrite (py_lstrip_sans_espace s Hs), py_lstrip_sans_espace.
  - apply rev_involutive.
  - apply Forall_rev. exact Hs.
Qed.

Lemma py_split_non_vide sep s : py_split sep s <> [].
Proof.
  destruct s as [|c r]; simpl; [discriminate|].
  destruct (c =? sep); [discriminate|].
  destruct (py_split sep r); discriminate.
Qed.

Lemma py_split_sans_sep sep t : sep ∉ t -> py_split sep t = [t].
Proof.
  induction t as [|c t IH]; intros Hn; simpl; [reflexivity|].
  apply not_elem_of_cons in Hn as [Hc Ht].
  destruct (Z.eqb_spec c sep); [congruence|].
  rewrite (IH Ht). reflexivity.
Qed.

Lemma py_split_app_sep sep t s :
  sep ∉ t -> py_split sep (t ++ sep :: s) = t :: py_split sep s.
Proof.
  induction t as [|c t IH]; intros Hn; simpl.
  - rewrite Z.eqb_refl. reflexivity.
  - apply not_elem_of_cons in Hn as [Hc Ht].
    destruct (Z.eqb_spec c sep); [congruence|].
    rewrite (IH Ht). reflexivity.
Qed.

Lemma py_split_join sep toks :
  toks <> [] -> Forall (fun t => sep ∉ t) toks ->
  py_split sep (py_join [sep] toks) = toks.
Proof.
  induction toks as [|t toks IH]; intros Hne Hall; [congruence|].
  apply Forall_cons in Hall as [Ht Hall].
  destruct toks as [|t' toks].
  - simpl. apply py_split_sans_sep, Ht.
  - change (py_join [sep] (t :: t' :: toks))
      with (t ++ sep :: py_join [sep] (t' :: toks)).
    rewrite py_split_app_sep by exact Ht.
    rewrite IH; [reflexivity|discriminate|exact Hall].
Qed.

Lemma py_join_vide l : py_join [] l = concat l.
Proof.
  induction l as [|x [|y l] IH]; simpl in *.
  - reflexivity.
  - rewrite app_nil_r. reflexivity.
  - rewrite IH. reflexivity.
Qed.

(** [str(n)] is the decimal numeral of [n]. *)
Lemma chiffres_aux_decimal fuel n acc :
  (0 < fuel)%nat -> 0 <= n < 2 ^ Z.of_nat fuel ->
  exists ds,
    chiffres_aux fuel 10 n acc = ds ++ acc
    /\ ds <> [] /\ Forall (fun d => 48 <= d <= 57) ds
    /\ valeur_decimale ds = n.
Proof.
  revert n acc. induction fuel as [|fuel IH]; intros n acc Hf Hn; [lia|].
  cbn [chiffres_aux].
  assert (48 <= chiffre (n mod 10) <= 57) as Hc.
  { unfold chiffre. pose proof (Z.mod_pos_bound n 10 ltac:(lia)).
    destruct (Z.ltb_spec (n mod 10) 10); lia. }
  destruct (Z.ltb_spec n 10) as [Hlt|Hge].
  - exists [chiffre (n mod 10)]. split; [reflexivity|].
    split; [discriminate|]. split; [repeat constructor; lia|].
    unfold valeur_decimale, chiffre. cbn [fold_left].
    rewrite Z.mod_small by lia. destruct (Z.ltb_spec n 10); lia.
  - destruct (IH (n / 10) (chiffre (n mod 10) :: acc))
      as (ds & E & Hne & Hds & Hv).
    { destruct fuel; [|lia]. change (2 ^ Z.of_nat 1) with 2 in Hn. lia. }
    { rewrite Nat2Z.inj_succ, Z.pow_succ_r in Hn by lia.
      split; [apply Z.div_pos; lia|].
      apply Z.div_lt_upper_bound; lia. }
    exists (ds ++ [chiffre (n mod 10)]).
    rewrite E, <- app_assoc. split; [reflexivity|].
    split; [intros Habs; apply app_eq_nil in Habs as [_ Habs]; discriminate|].
    split; [apply Forall_app; split; [exact Hds|repeat constructor; lia]|].
    unfold valeur_decimale in *. rewrite fold_left_app, Hv.
    cbn [fold_left]. unfold chiffre.
    pose proof (Z.mod_pos_bound n 10 ltac:(lia)).
    destruct (Z.ltb_spec (n mod 10) 10); [|lia].
    pose proof (Z.div_mod n 10 ltac:(lia)). lia.
Qed.

Lemma py_str_decimal n :
  0 <= n ->
  py_str n <> [] /\ Forall (fun d => 48 <= d <= 57) (py_str n)
  /\ valeur_decimale (py_str n) = n.
Proof.
  intros Hn. unfold py_str. destruct (Z.ltb_spec n 0) as [|_]; [lia|].
  unfold chiffres.
  destruct (chiffres_aux_decimal (S (Z.to_nat (Z.log2 n))) n [])
    as (ds & E & Hne & Hds & Hv).
  - lia.
  - split; [exact Hn|].
    destruct (Z.eq_dec n 0) as [->|Hn0]; [reflexivity|].
    rewrite Nat2Z.inj_succ, Z2Nat.id by apply Z.log2_nonneg.
    apply Z.log2_spec. lia.
  - rewrite E, app_nil_r. auto.
Qed.

(** The decimal strings of the codes 1 .. 33. *)
Lemma py_str_code n :
  1 <= n <= 33 ->
  py_str n <> [] /\ Forall (fun d => 48 <= d <= 57) (py_str n)
  /\ valeur_decimale (py_str n) = n.
Proof. intros Hn. apply py_str_decimal. lia. Qed.

Section TheorieCodec.
Context `{Unicode}.

Lemma py_isdigit_ascii s :
  s <> [] -> Forall (fun d => 48 <= d <= 57) s -> py_isdigit s = true.
Proof.
  intros Hne Hs. destruct s as [|c r]; [congruence|]. unfold py_isdigit.
  apply forallb_forall. intros d Hd. apply isdigit_ascii.
  rewrite Forall_forall in Hs. apply Hs. apply list_elem_of_In. exact Hd.
Qed.

Lemma py_int_ascii_aux s a :
  Forall (fun d => 48 <= d <= 57) s ->
  fold_left (fun acc c =>
               n ← acc;
               match decimal c with
               | Some d => Retour (10 * n + d)
               | None => Leve ValueError
               end) s (Retour a)
  = Retour (fold_left (fun acc d => 10 * acc + (d - 48)) s a).
Proof.
  intros Hs. revert a. induction Hs as [|c r Hc _ IH]; intros a; simpl.
  - reflexivity.
  - rewrite (decimal_ascii c Hc). apply IH.
Qed.

Lemma py_int_ascii s :
  s <> [] -> Forall (fun d => 48 <= d <= 57) s ->
  py_int s = Retour (valeur_decimale s).
Proof.
  intros Hne Hs. destruct s as [|c r]; [congruence|]. unfold py_int.
  apply py_int_ascii_aux. exact Hs.
Qed.

(** *** The encoder *)

Lemma encoder_boucle mot acc :
  fold_left
    (fun (resultat : list chaine) (lettre : Z) =>
       match ALPHABET_CYRILLIQUE !! lettre with
       | Some numero => resultat ++ [py_str numero]
       | None =>
         if isalpha lettre
         then resultat ++ [py_str (lettre - ord "A" + 1)]
         else resultat
       end) mot acc
  = acc ++ flat_map jeton mot.
Proof.
  revert acc. induction mot as [|c mot IH]; intros acc;
    cbn [fold_left flat_map].
  - rewrite app_nil_r. reflexivity.
  - rewrite IH. unfold jeton at 2.
    destruct (ALPHABET_CYRILLIQUE !! c); [|destruct (isalpha c)];
      cbn [app]; rewrite <- ?app_assoc; reflexivity.
Qed.

Lemma encoder_eq mot :
  encoder_mot_cyrillique mot
  = py_join (utf8 ".") (flat_map jeton (py_strip (py_upper mot))).
Proof. unfold encoder_mot_cyrillique. rewrite encoder_boucle. reflexivity. Qed.

Lemma jeton_primaire s :
  Forall primaire s -> flat_map jeton s = map (fun c => py_str (valeur c)) s.
Proof.
  induction 1 as [|c s Hc _ IH]; cbn [flat_map map]; [reflexivity|].
  unfold jeton at 1. rewrite (primaire_valeur c Hc), IH. reflexivity.
Qed.

Lemma py_upper_lettres w :
  Forall lettre_primaire w -> Forall primaire (py_upper w).
Proof.
  induction 1 as [|c w (k & Hk & Hp) _ IH]; simpl; [constructor|].
  rewrite Hk. simpl. constructor; assumption.
Qed.

Lemma primaire_lettre c : primaire c -> lettre_primaire c.
Proof.
  intros Hc. exists c. split; [|exact Hc].
  apply toupper_majuscule, primaire_bornes, Hc.
Qed.

Lemma minuscule_lettre c :
  1072 <= c <= 1103 \/ c = 1105 -> lettre_primaire c.
Proof.
  intros [Hc| ->].
  - exists (c - 32). split; [apply toupper_minuscule, Hc|].
    assert (Forall primaire (seqZ 1040 32)) as HF.
    { apply (bool_decide_unpack _). vm_compute. reflexivity. }
    rewrite Forall_forall in HF. apply HF, elem_of_seqZ. lia.
  - exists 1025. split; [apply toupper_io|].
    apply (bool_decide_unpack _). vm_compute. reflexivity.
Qed.

(** *** The decoder *)

Lemma decoder_eq sequence :
  decoder_sequence_cyrillique sequence
  = (mot_decode ← pour (py_split (ord ".") sequence) corps_decodeur [];
     Retour (py_join [] mot_decode)).
Proof. reflexivity. Qed.

Lemma choix_branche_jamais_latine numero : choix_branche numero <> Latine.
Proof. unfold choix_branche. bornes. Qed.

Lemma choix_branche_code n : 1 <= n <= 33 -> choix_branche n = Primaire.
Proof. intros Hn. unfold choix_branche. bornes. Qed.

Lemma corps_decodeur_code c acc :
  primaire c ->
  corps_decodeur acc (py_str (valeur c)) = Retour (acc ++ [[c]]).
Proof.
  intros Hc. pose proof (primaire_code c Hc) as Hn.
  destruct (py_str_code _ Hn) as (Hne & Hd & Hv).
  unfold corps_decodeur.
  rewrite (py_isdigit_ascii _ Hne Hd), (py_int_ascii _ Hne Hd), Hv.
  cbn [mbind resultat_bind]. rewrite (choix_branche_code _ Hn).
  unfold py_getitem. rewrite (primaire_inverse c Hc). reflexivity.
Qed.

Lemma pour_codes s acc :
  Forall primaire s ->
  pour (map (fun c => py_str (valeur c)) s) corps_decodeur acc
  = Retour (acc ++ map (fun c => [c]) s).
Proof.
  intros Hs. revert acc.
  induction Hs as [|c s Hc _ IH]; intros acc; cbn [map pour].
  - rewrite app_nil_r. reflexivity.
  - rewrite (corps_decodeur_code c acc Hc). cbn [mbind resultat_bind].
    rewrite IH, <- app_assoc. reflexivity.
Qed.

Lemma pour_invariant {A S : Type} (P : S -> Prop)
    (corps : S -> A -> resultat S) l :
  (forall s x s', P s -> corps s x = Retour s' -> P s') ->
  forall s s', P s -> pour l corps s = Retour s' -> P s'.
Proof.
  intros Hcorps. induction l as [|x l IH]; intros s s' Hs; simpl.
  - intros [= <-]. exact Hs.
  - destruct (corps s x) as [s1|e] eqn:E; simpl; [|discriminate].
    apply IH. eapply Hcorps; eauto.
Qed.

Lemma corps_decodeur_invariant acc nombre acc' :
  Forall (fun t => exists c, t = [c] /\ primaire c) acc ->
  corps_decodeur acc nombre = Retour acc' ->
  Forall (fun t => exists c, t = [c] /\ primaire c) acc'.
Proof.
  intros Hacc. unfold corps_decodeur.
  destruct (py_isdigit nombre); [|intros [= <-]; exact Hacc].
  destruct (py_int nombre) as [numero|e]; cbn [mbind resultat_bind];
    [|discriminate].
  destruct (choix_branche numero) eqn:Eb.
  - unfold py_getitem.
    destruct (ALPHABET_INVERSE !! numero) as [lettre|] eqn:El;
      cbn [mbind resultat_bind]; [|discriminate].
    intros [= <-]. apply Forall_app. split; [exact Hacc|].
    constructor; [|constructor]. exists lettre. split; [reflexivity|].
    exists numero. apply (inverse_faits numero lettre El).
  - exfalso. exact (choix_branche_jamais_latine numero Eb).
  - intros [= <-]. exact Hacc.
Qed.

Lemma concat_singletons (P : Z -> Prop) (l : list chaine) :
  Forall (fun t => exists c, t = [c] /\ P c) l -> Forall P (concat l).
Proof.
  induction 1 as [|t l (c & -> & Hc) _ IH]; simpl; [constructor|].
  constructor; assumption.
Qed.

Lemma decoder_primaire sequence s :
  decoder_sequence_cyrillique sequence = Retour s -> Forall primaire s.
Proof.
  rewrite decoder_eq.
  destruct (pour _ corps_decodeur []) as [mot_decode|e] eqn:E;
    cbn [mbind resultat_bind]; [|discriminate].
  intros [= <-]. rewrite py_join_vide. apply concat_singletons.
  eapply pour_invariant; [|constructor|exact E].
  intros acc x acc'. apply corps_decodeur_invariant.
Qed.

Lemma concat_map_singleton (s : chaine) : concat (map (fun c => [c]) s) = s.
Proof. induction s as [|c s IH]; simpl; [|rewrite IH]; reflexivity. Qed.

Lemma aller_retour_majuscules s :
  Forall primaire s ->
  decoder_sequence_cyrillique
    (py_join (utf8 ".") (map (fun c => py_str (valeur c)) s))
  = Retour s.
Proof.
  intros Hs. rewrite decoder_eq.
  destruct s as [|c0 s0] eqn:Es; [reflexivity|]. rewrite <- Es in *.
  change (utf8 ".") with [ord "."].
  rewrite py_split_join.
  - rewrite (pour_codes s [] Hs). cbn [mbind resultat_bind app].
    rewrite py_join_vide. f_equal. apply concat_map_singleton.
  - rewrite Es. discriminate.
  - apply Forall_map. eapply Forall_impl; [exact Hs|].
    intros c Hc. cbn beta.
    destruct (py_str_code _ (primaire_code c Hc)) as (_ & Hd & _).
    intros Hin. rewrite Forall_forall in Hd. apply Hd in Hin.
    vm_compute in Hin. destruct Hin as [Hin _]. apply Hin. reflexivity.
Qed.

(** C1.  For every word whose characters are letters of the primary
    alphabet, in upper or lower case (the keys of the table are such
    letters, [primaire_lettre]), decoding the encoding of the word gives
    its upper-case form: the decoder returns, and what it returns is
    [w.upper()]. *)
Theorem aller_retour w :
  Forall lettre_primaire w ->
  decoder_sequence_cyrillique (encoder_mot_cyrillique w)
  = Retour (py_upper w).
Proof.
  intros Hw. apply py_upper_lettres in Hw.
  rewrite encoder_eq, py_strip_sans_espace.
  - rewrite (jeton_primaire _ Hw). apply aller_retour_majuscules, Hw.
  - eapply Forall_impl; [exact Hw|]. apply primaire_non_espace.
Qed.

End TheorieCodec.

(** Proves [Forall lettre_primaire] on a literal, letter by letter. *)
Ltac lettres_primaires :=
  match goal with
  | |- Forall _ ?w => let l := eval vm_compute in w in change w with l
  end;
  repeat (apply List.Forall_cons;
          [first [ apply minuscule_lettre; lia
                 | apply primaire_lettre, (bool_decide_unpack _);
                   vm_compute; reflexivity ]|]);
  apply List.Forall_nil.

Lemma aller_retour_temoin :
  Forall (lettre_primaire (H := unicode_latin_cyrillique)) (utf8 "Привет")
  /\ decoder_sequence_cyrillique (H := unicode_latin_cyrillique)
       (encoder_mot_cyrillique (H := unicode_latin_cyrillique)
          (utf8 "Привет"))
     = Retour (utf8 "ПРИВЕТ").
Proof.
  assert (Forall (lettre_primaire (H := unicode_latin_cyrillique))
                 (utf8 "Привет")) as Hw by lettres_primaires.
  split; [exact Hw|].
  exact (aller_retour (H := unicode_latin_cyrillique) (utf8 "Привет") Hw).
Defined.

(** *** What the decoder can raise *)

Section TheorieErreurs.
Context `{Unicode}.

Lemma py_int_erreur s e : py_int s = Leve e -> e = ValueError.
Proof.
  unfold py_int. destruct s as [|c0 s0]; [intros [= <-]; reflexivity|].
  generalize (c0 :: s0). intros l.
  assert (forall acc : resultat Z,
            (forall e', acc = Leve e' -> e' = ValueError) ->
            fold_left (fun acc c =>
                         n ← acc;
                         match decimal c with
                         | Some d => Retour (10 * n + d)
                         | None => Leve ValueError
                         end) l acc = Leve e -> e = ValueError) as Hgen.
  { induction l as [|c l IH]; intros acc Hacc; cbn [fold_left].
    - apply Hacc.
    - apply IH. intros e'. destruct acc as [n|e0]; cbn [mbind resultat_bind].
      + destruct (decimal c); [discriminate|intros [= <-]; reflexivity].
      + intros [= <-]. apply Hacc. reflexivity. }
  apply Hgen. discriminate.
Qed.

Lemma corps_decodeur_erreur acc nombre e :
  corps_decodeur acc nombre = Leve e -> e = ValueError.
Proof.
  unfold corps_decodeur. destruct (py_isdigit nombre); [|discriminate].
  destruct (py_int nombre) as [numero|e0] eqn:Ei; cbn [mbind resultat_bind].
  - unfold choix_branche.
    destruct ((1 <=? numero) && (numero <=? 33)) eqn:Eb.
    + destruct (inverse_total numero) as [lettre El]; [bornes|].
      unfold py_getitem. rewrite El. discriminate.
    + destruct ((1 <=? numero) && (numero <=? 26)); discriminate.
  - intros [= <-]. exact (py_int_erreur _ _ Ei).
Qed.

Lemma pour_erreur {A S : Type} (P : exception -> Prop)
    (corps : S -> A -> resultat S) l :
  (forall s x e, corps s x = Leve e -> P e) ->
  forall s e, pour l corps s = Leve e -> P e.
Proof.
  intros Hcorps. induction l as [|x l IH]; intros s e; cbn [pour].
  - discriminate.
  - destruct (corps s x) as [s1|e1] eqn:E; cbn [mbind resultat_bind].
    + apply IH.
    + intros [= <-]. exact (Hcorps s x e1 E).
Qed.

Lemma decoder_erreur sequence e :
  decoder_sequence_cyrillique sequence = Leve e -> e = ValueError.
Proof.
  rewrite decoder_eq.
  destruct (pour _ corps_decodeur []) as [mot_decode|e1] eqn:E;
    cbn [mbind resultat_bind]; [discriminate|].
  intros [= <-].
  exact (pour_erreur (fun e => e = ValueError) corps_decodeur _
           corps_decodeur_erreur _ _ E).
Qed.

End TheorieErreurs.

Section TheorieDecodeur.
Context `{Unicode}.

(** C10.  The Latin branch of the decoder is never taken, and every
    character of a string that the decoder returns is a character of the
    primary alphabet, never a Latin letter.  When the decoder does not
    return, it is [int] that raised [ValueError] on a digit without decimal
    value: the table lookup never fails. *)
Theorem decodeur_alphabet_primaire :
  (forall numero, choix_branche numero <> Latine)
  /\ (forall sequence s,
        decoder_sequence_cyrillique sequence = Retour s ->
        Forall (fun c => primaire c /\ ~ lettre_latine c) s)
  /\ (forall sequence e,
        decoder_sequence_cyrillique sequence = Leve e -> e = ValueError).
Proof.
  split; [exact choix_branche_jamais_latine|]. split.
  - intros sequence s E. apply decoder_primaire in E.
    eapply Forall_impl; [exact E|]. intros c Hc.
    split; [exact Hc|apply primaire_non_latine, Hc].
  - exact decoder_erreur.
Qed.

End TheorieDecodeur.

Lemma decodeur_alphabet_primaire_temoin :
  decoder_sequence_cyrillique (H := unicode_latin_cyrillique)
    (utf8 "8.5.12.12.15.0.99.x") = Retour (utf8 "ЖДККН")
  /\ Forall (fun c => primaire c /\ ~ lettre_latine c) (utf8 "ЖДККН").
Proof.
  assert (decoder_sequence_cyrillique (H := unicode_latin_cyrillique)
            (utf8 "8.5.12.12.15.0.99.x") = Retour (utf8 "ЖДККН")) as E
    by (vm_compute; reflexivity).
  split; [exact E|].
  exact (proj1 (proj2 (decodeur_alphabet_primaire
                         (H := unicode_latin_cyrillique))) _ _ E).
Defined.

(** C3.  A letter that is neither in the table nor Latin is not dropped:
    the encoder gives it the token [ord(c) - 64], here 966 for the letter
    І (U+0406) of the Ukrainian word "ПРИВІТ", which is not in 1 .. 33. *)
Theorem encodeur_lettre_non_latine :
  isalpha (Unicode := unicode_latin_cyrillique) (ord "І") = true
  /\ ALPHABET_CYRILLIQUE !! ord "І" = None
  /\ ~ lettre_latine (ord "І")
  /\ encoder_mot_cyrillique (H := unicode_latin_cyrillique) (utf8 "ПРИВІТ")
     = utf8 "17.18.10.3.966.20".
Proof.
  split; [reflexivity|]. split; [vm_compute; reflexivity|].
  split; [|vm_compute; reflexivity].
  intros [_ Hc]. apply Hc. vm_compute. reflexivity.
Qed.

(** ** The aggregate value *)

Lemma somme_cons c s : somme (c :: s) = valeur c + somme s.
Proof. reflexivity. Qed.

Lemma somme_app a b : somme (a ++ b) = somme a + somme b.
Proof.
  induction a as [|c a IH]; [reflexivity|].
  rewrite <- app_comm_cons, !somme_cons, IH. lia.
Qed.

Lemma somme_rev s : somme (rev s) = somme s.
Proof.
  induction s as [|c s IH]; [reflexivity|].
  cbn [rev]. rewrite somme_app, IH, !somme_cons. change (somme []) with 0. lia.
Qed.

Lemma somme_lstrip s : somme (py_lstrip s) = somme s.
Proof.
  induction s as [|c s IH]; [reflexivity|]. cbn [py_lstrip].
  destruct (py_isspace c) eqn:E; [|reflexivity].
  rewrite IH, somme_cons, (espace_valeur c E). reflexivity.
Qed.

Lemma somme_strip s : somme (py_strip s) = somme s.
Proof.
  unfold py_strip, py_rstrip.
  rewrite somme_rev, somme_lstrip, somme_rev, somme_lstrip. reflexivity.
Qed.

Lemma mot_vers_nombre_boucle s total :
  fold_left
    (fun (total : Z) (lettre : Z) =>
       match ALPHABET_CYRILLIQUE !! lettre with
       | Some numero => total + numero
       | None => total
       end) s total
  = total + somme s.
Proof.
  revert total. induction s as [|c s IH]; intros total; cbn [fold_left].
  { change (somme []) with 0. lia. }
  rewrite IH, somme_cons. unfold valeur.
  destruct (ALPHABET_CYRILLIQUE !! c); lia.
Qed.

Section TheorieValeur.
Context `{Unicode}.

Lemma mot_vers_nombre_somme w : mot_vers_nombre w = somme (py_upper w).
Proof.
  unfold mot_vers_nombre. rewrite mot_vers_nombre_boucle, somme_strip. lia.
Qed.

Lemma py_upper_app a b : py_upper (a ++ b) = py_upper a ++ py_upper b.
Proof. apply flat_map_app. Qed.

Lemma py_upper_idem w : py_upper (py_upper w) = py_upper w.
Proof.
  induction w as [|c w IH]; [reflexivity|].
  change (py_upper (c :: w)) with (toupper c ++ py_upper w).
  rewrite py_upper_app, IH. f_equal. apply toupper_idem.
Qed.

Lemma somme_upper_sans_espaces w :
  somme (py_upper (filter (fun c => py_isspace c = false) w))
  = somme (py_upper w).
Proof.
  induction w as [|c w IH]; [reflexivity|].
  change (py_upper (c :: w)) with (toupper c ++ py_upper w).
  destruct (py_isspace c) eqn:E.
  - rewrite filter_cons_False by congruence.
    rewrite IH, somme_app, (toupper_space c E), somme_cons.
    rewrite (espace_valeur c E). change (somme []) with 0. lia.
  - rewrite filter_cons_True by exact E.
    change (py_upper (c :: ?l)) with (toupper c ++ py_upper l).
    rewrite !somme_app, IH. reflexivity.
Qed.

(** C4.  [mot_vers_nombre(w)] is the sum of the codes of the characters
    of [w.upper()] that are in the table, every other character counting
    for zero.  Hence two words with the same upper-case form have the same
    value, [w.upper()] has the value of [w], and two words that differ only
    by white space, wherever it stands, have the same value. *)
Theorem valeur_agregee :
  (forall w, mot_vers_nombre w = somme (py_upper w))
  /\ (forall c, primaire c ->
        ALPHABET_CYRILLIQUE !! c = Some (valeur c) /\ 1 <= valeur c <= 33)
  /\ (forall c, ~ primaire c -> valeur c = 0)
  /\ (forall w1 w2, py_upper w1 = py_upper w2 ->
        mot_vers_nombre w1 = mot_vers_nombre w2)
  /\ (forall w, mot_vers_nombre (py_upper w) = mot_vers_nombre w)
  /\ (forall w1 w2,
        filter (fun c => py_isspace c = false) w1
        = filter (fun c => py_isspace c = false) w2 ->
        mot_vers_nombre w1 = mot_vers_nombre w2).
Proof.
  split; [exact mot_vers_nombre_somme|].
  split; [intros c Hc; split;
          [apply primaire_valeur, Hc | apply primaire_code, Hc]|].
  split; [exact non_primaire_valeur|].
  split; [intros w1 w2 E; rewrite !mot_vers_nombre_somme, E; reflexivity|].
  split; [intros w; rewrite !mot_vers_nombre_somme, py_upper_idem;
          reflexivity|].
  intros w1 w2 E. rewrite !mot_vers_nombre_somme.
  rewrite <- (somme_upper_sans_espaces w1), <- (somme_upper_sans_espaces w2).
  rewrite E. reflexivity.
Qed.

End TheorieValeur.

Lemma valeur_agregee_temoin :
  mot_vers_nombre (H := unicode_latin_cyrillique) (utf8 " При вет ")
  = mot_vers_nombre (H := unicode_latin_cyrillique) (utf8 "Привет")
  /\ mot_vers_nombre (H := unicode_latin_cyrillique) (utf8 "Привет")
     = mot_vers_nombre (H := unicode_latin_cyrillique) (utf8 "ПРИВЕТ").
Proof.
  destruct (valeur_agregee (H := unicode_latin_cyrillique))
    as (_ & _ & _ & Hcasse & _ & Hespaces).
  split; [apply Hespaces|apply Hcasse]; vm_compute; reflexivity.
Defined.

(** ** Binary64 square roots *)

Lemma digits2_pos_bornes p :
  2 ^ (Zpos (digits2_pos p) - 1) <= Zpos p < 2 ^ Zpos (digits2_pos p).
Proof.
  induction p as [p IH|p IH|]; cbn [digits2_pos];
    [rewrite Pos2Z.inj_succ; change (Zpos p~1) with (2 * Zpos p + 1)
    |rewrite Pos2Z.inj_succ; change (Zpos p~0) with (2 * Zpos p)
    |change (1 <= 1 < 2); lia];
    (replace (Z.succ (Zpos (digits2_pos p)) - 1)
       with (Z.succ (Zpos (digits2_pos p) - 1)) by lia);
    rewrite !Z.pow_succ_r by lia;
    set (A := 2 ^ (Zpos (digits2_pos p) - 1)) in *;
    set (B := 2 ^ Zpos (digits2_pos p)) in *; lia.
Qed.

Lemma digits2_pos_53 p :
  2 ^ 52 <= Zpos p < 2 ^ 53 -> Zpos (digits2_pos p) = 53.
Proof.
  intros Hp. pose proof (digits2_pos_bornes p) as Hd.
  destruct (Z.lt_trichotomy (Zpos (digits2_pos p)) 53) as [Hlt|[E|Hgt]];
    [exfalso|exact E|exfalso].
  - assert (2 ^ Zpos (digits2_pos p) <= 2 ^ 52)
      by (apply Z.pow_le_mono_r; lia). lia.
  - assert (2 ^ 53 <= 2 ^ (Zpos (digits2_pos p) - 1))
      by (apply Z.pow_le_mono_r; lia). lia.
Qed.

Lemma iter_xO p k : Zpos (Pos.iter xO p k) = Zpos p * 2 ^ Zpos k.
Proof.
  induction k as [|k IH] using Pos.peano_ind.
  - cbn [Pos.iter]. change (Zpos p~0) with (2 * Zpos p).
    change (2 ^ 1) with 2. lia.
  - rewrite Pos.iter_succ.
    change (Zpos (Pos.iter xO p k)~0) with (2 * Zpos (Pos.iter xO p k)).
    rewrite IH, Pos2Z.inj_succ, Z.pow_succ_r by lia. lia.
Qed.

Lemma loc_of_shr_record_of_loc m l :
  loc_of_shr_record (shr_record_of_loc m l) = l.
Proof. destruct l as [|[| |]]; reflexivity. Qed.

Lemma shr_m_of_loc m l : shr_m (shr_record_of_loc m l) = m.
Proof. destruct l as [|[| |]]; reflexivity. Qed.

(** A mantissa of 53 bits is not shifted. *)
Lemma shr_fexp_53 m e l :
  2 ^ 52 <= m < 2 ^ 53 -> -1074 <= e ->
  shr_fexp 53 1024 m e l = (shr_record_of_loc m l, e).
Proof.
  intros Hm He. unfold shr_fexp.
  destruct m as [|p|p]; [change (2 ^ 52) with 4503599627370496 in Hm; lia| |lia].
  unfold Zdigits2. rewrite (digits2_pos_53 p Hm).
  unfold fexp, emin.
  replace (Z.max (53 + e - 53) (3 - 1024 - 53) - e) with 0 by lia.
  reflexivity.
Qed.

Lemma binary_round_aux_53 m e l :
  2 ^ 52 <= m -> round_nearest_even m l < 2 ^ 53 -> -1074 <= e <= 971 ->
  binary_round_aux 53 1024 false m e l
  = S754_finite false (Z.to_pos (round_nearest_even m l)) e.
Proof.
  intros Hm Hr He. unfold binary_round_aux.
  assert (m <= round_nearest_even m l) as Hle.
  { unfold round_nearest_even. destruct l as [|[| |]]; try lia.
    destruct (Z.even m); lia. }
  rewrite shr_fexp_53; [|unfold round_nearest_even in *|lia].
  2:{ split; [exact Hm|]. lia. }
  rewrite shr_m_of_loc, loc_of_shr_record_of_loc.
  rewrite shr_fexp_53 by lia.
  cbn [shr_m shr_record_of_loc].
  destruct (round_nearest_even m l) as [|r|r] eqn:Er;
    [change (2 ^ 52) with 4503599627370496 in Hm; lia| |lia].
  destruct (Z.leb_spec e (1024 - 53)); [reflexivity|lia].
Qed.

Lemma float_de_int_52 p :
  Zpos p < 2 ^ 52 ->
  exists mx,
    float_de_int (Zpos p) = S754_finite false mx (Zpos (digits2_pos p) - 53)
    /\ Zpos mx = Zpos p * 2 ^ (53 - Zpos (digits2_pos p))
    /\ 2 ^ 52 <= Zpos mx < 2 ^ 53
    /\ 1 <= Zpos (digits2_pos p) <= 52.
Proof.
  intros Hp. pose proof (digits2_pos_bornes p) as Hd.
  set (d := Zpos (digits2_pos p)) in *.
  assert (1 <= d <= 52) as Hd52.
  { split; [unfold d; lia|].
    destruct (Z.le_gt_cases d 52) as [|Hgt]; [assumption|exfalso].
    assert (2 ^ 52 <= 2 ^ (d - 1)) by (apply Z.pow_le_mono_r; lia). lia. }
  unfold float_de_int, binary_normalize, binary_round, shl_align.
  rewrite Z.add_0_r. fold d. unfold fexp, emin.
  replace (Z.max (d - 53) (3 - 1024 - 53) - 0) with (d - 53) by lia.
  replace (Z.max (d - 53) (3 - 1024 - 53)) with (d - 53) by lia.
  destruct (d - 53) as [|k|k] eqn:Ek; [lia|lia|].
  assert (Zpos (Pos.iter xO p k) = Zpos p * 2 ^ (53 - d)) as Emx.
  { rewrite iter_xO. f_equal. f_equal. lia. }
  assert (2 ^ 52 <= Zpos (Pos.iter xO p k) < 2 ^ 53) as Hmx.
  { rewrite Emx.
    replace (2 ^ 52) with (2 ^ (d - 1) * 2 ^ (53 - d))
      by (rewrite <- Z.pow_add_r by lia; f_equal; lia).
    replace (2 ^ 53) with (2 ^ d * 2 ^ (53 - d))
      by (rewrite <- Z.pow_add_r by lia; f_equal; lia).
    assert (0 < 2 ^ (53 - d)) by (apply Z.pow_pos_nonneg; lia). nia. }
  exists (Pos.iter xO p k).
  rewrite binary_round_aux_53; cbn [round_nearest_even Z.to_pos];
    try lia; auto.
Qed.

(** The integer part of a rounded square root: [q] is the integer square
    root of [n * P^2], rounded up when the remainder exceeds it. *)
Lemma racine_arrondie n P q r q' :
  0 <= n -> Z.sqrt n < P ->
  n * (P * P) = q * q + r -> 0 <= r <= 2 * q ->
  (q' = q \/ (q' = q + 1 /\ q < r)) ->
  q' / P = Z.sqrt n /\ q' < (Z.sqrt n + 1) * P.
Proof.
  intros Hn HP Hq Hr Hq'.
  pose proof (Z.sqrt_spec n Hn) as Ht. cbv zeta in Ht.
  pose proof (Z.sqrt_nonneg n) as Ht0.
  set (t := Z.sqrt n) in *.
  assert (0 <= P) as HP0 by lia.
  assert (0 <= P * P) as HPP by nia.
  assert (t * P * (t * P) <= n * (P * P)) as Hbas.
  { replace (t * P * (t * P)) with (t * t * (P * P)) by ring.
    apply Z.mul_le_mono_nonneg_r; lia. }
  assert (t * P <= q) as Hlo.
  { destruct (Z.le_gt_cases (t * P) q) as [|Hgt]; [assumption|exfalso].
    assert ((q + 1) * (q + 1) <= t * P * (t * P))
      by (apply Z.mul_le_mono_nonneg; lia).
    lia. }
  assert (n * (P * P) < (t + 1) * P * ((t + 1) * P)
          \/ P = 0) as Hhaut.
  { destruct (Z.eq_dec P 0) as [|HPn]; [right; assumption|left].
    replace ((t + 1) * P * ((t + 1) * P)) with ((t + 1) * (t + 1) * (P * P))
      by ring.
    apply Z.mul_lt_mono_pos_r; [nia|lia]. }
  assert (q < (t + 1) * P) as Hhi.
  { destruct Hhaut as [Hhaut | ->]; [|lia].
    destruct (Z.lt_ge_cases q ((t + 1) * P)) as [|Hge]; [assumption|exfalso].
    assert ((t + 1) * P * ((t + 1) * P) <= q * q)
      by (apply Z.mul_le_mono_nonneg; nia).
    lia. }
  assert (t * P <= q' < (t + 1) * P) as Hq'b.
  { destruct Hq' as [->|[-> Hrq]]; [lia|]. split; [lia|].
    destruct (Z.eq_dec (q + 1) ((t + 1) * P)) as [E|]; [exfalso|lia].
    assert (n + 1 <= (t + 1) * (t + 1)) as Hn1 by lia.
    assert ((n + 1) * (P * P) <= (t + 1) * (t + 1) * (P * P)) as Hm
      by (apply Z.mul_le_mono_nonneg_r; lia).
    replace ((t + 1) * (t + 1) * (P * P))
      with ((t + 1) * P * ((t + 1) * P)) in Hm by ring.
    rewrite <- E in Hm.
    assert (P * P < (t + 1) * P) as HPq by lia.
    assert (P < t + 1) by nia. lia. }
  split; [|lia].
  symmetry. apply (Z.div_unique q' P t (q' - t * P)); lia.
Qed.

Lemma int_math_sqrt_binary64_pos p :
  Zpos p < 2 ^ 52 -> int_math_sqrt_binary64 (Zpos p) = Some (Z.sqrt (Zpos p)).
Proof.
  intros Hp. unfold int_math_sqrt_binary64.
  destruct (float_de_int_52 p Hp) as (mx & -> & Emx & Hmx & Hd).
  pose proof (digits2_pos_bornes p) as Hdp.
  set (n := Zpos p) in *. set (d := Zpos (digits2_pos p)) in *.
  (* the exponent of the root *)
  set (h := Z.div2 (d + 1)).
  assert (1 <= h <= 26 /\ (d = 2 * h - 1 \/ d = 2 * h)) as [Hh Hdh].
  { unfold h. rewrite Z.div2_div. Z.div_mod_to_equations. lia. }
  unfold SFsqrt, SFsqrt_core_binary. unfold Zdigits2.
  rewrite (digits2_pos_53 mx Hmx).
  replace (53 + (d - 53) + 1) with (d + 1) by lia. fold h.
  unfold fexp, emin.
  assert (Z.min (Z.max (h - 53) (3 - 1024 - 53)) (Z.div2 (d - 53)) = h - 53)
    as ->.
  { rewrite Z.div2_div. Z.div_mod_to_equations. lia. }
  destruct (d - 53 - 2 * (h - 53)) as [|s|s] eqn:Es; [lia| |lia].
  rewrite Z.shiftl_mul_pow2 by lia. rewrite <- Es.
  (* the scaled mantissa is n * P^2 *)
  set (P := 2 ^ (53 - h)).
  assert (0 < P) as HP0 by (apply Z.pow_pos_nonneg; lia).
  assert (Zpos mx * 2 ^ (d - 53 - 2 * (h - 53)) = n * (P * P)) as Em.
  { rewrite Emx. unfold P. rewrite <- Z.mul_assoc, <- !Z.pow_add_r by lia.
    f_equal. f_equal. lia. }
  rewrite Em.
  pose proof (Z.sqrtrem_spec (n * (P * P)) ltac:(nia)) as Hqr.
  destruct (Z.sqrtrem (n * (P * P))) as [q r]. destruct Hqr as [Hq Hr].
  (* the bounds on the root of n *)
  pose proof (Z.sqrt_spec n ltac:(lia)) as Ht. cbv zeta in Ht.
  pose proof (Z.sqrt_nonneg n) as Ht0.
  set (H2 := 2 ^ h).
  assert (0 < H2) as HH0 by (apply Z.pow_pos_nonneg; lia).
  assert (H2 * P = 2 ^ 53) as EHP.
  { unfold H2, P. rewrite <- Z.pow_add_r by lia. f_equal. lia. }
  assert (2 ^ d <= H2 * H2) as HdH.
  { unfold H2. rewrite <- Z.pow_add_r by lia.
    apply Z.pow_le_mono_r; lia. }
  assert (Z.sqrt n < H2) as HtH by nia.
  assert (H2 <= 2 ^ 26) as HH26 by (apply Z.pow_le_mono_r; lia).
  assert (2 ^ 27 <= P) as HP27 by (apply Z.pow_le_mono_r; lia).
  change (2 ^ 26) with 67108864 in HH26.
  change (2 ^ 27) with 134217728 in HP27.
  (* rounding *)
  set (l := if r =? 0 then loc_Exact
            else loc_Inexact (if r <=? q then Lt else Gt)).
  assert (round_nearest_even q l = q
          \/ round_nearest_even q l = q + 1 /\ q < r) as Hround.
  { unfold l. destruct (Z.eqb_spec r 0); [left; reflexivity|].
    destruct (Z.leb_spec r q); [left; reflexivity|right].
    split; [reflexivity|lia]. }
  destruct (racine_arrondie n P q r (round_nearest_even q l))
    as [Hdiv Hlt]; try lia; auto.
  assert (2 ^ 52 <= q) as Hq52.
  { assert (2 ^ 52 * 2 ^ 52 <= n * (P * P)) as Hm.
    { rewrite <- Em.
      assert (2 ^ 52 <= 2 ^ (d - 53 - 2 * (h - 53)))
        by (apply Z.pow_le_mono_r; lia).
      change (2 ^ 52) with 4503599627370496 in *. nia. }
    change (2 ^ 52) with 4503599627370496 in *. nia. }
  assert (round_nearest_even q l < 2 ^ 53) as Hr53.
  { rewrite <- EHP. nia. }
  rewrite binary_round_aux_53 by (try assumption; lia).
  unfold int_de_float.
  destruct (Z.leb_spec 0 (h - 53)) as [|_]; [lia|].
  rewrite Z2Pos.id by (change (2 ^ 52) with 4503599627370496 in Hq52;
                        destruct Hround as [->|[-> _]]; lia).
  replace (- (h - 53)) with (53 - h) by lia. fold P.
  rewrite Hdiv. reflexivity.
Qed.

Lemma int_math_sqrt_binary64_exact n :
  0 <= n < 2 ^ 52 -> int_math_sqrt_binary64 n = Some (Z.sqrt n).
Proof.
  intros [Hn0 Hn]. destruct n as [|p|p]; [reflexivity| |lia].
  apply int_math_sqrt_binary64_pos, Hn.
Qed.

(** ** Loops *)

(** The rule of total correctness for [tant_que]: an invariant, and a
    measure below the budget that every iteration decreases. *)
Lemma tant_que_regle {S : Type} (I : S -> Prop) (mesure : S -> nat)
    (cond : S -> bool) (corps : S -> option S) :
  (forall s, I s -> cond s = true ->
     exists s', corps s = Some s' /\ I s' /\ (mesure s' < mesure s)%nat) ->
  forall budget s, I s -> (mesure s < budget)%nat ->
    exists s', tant_que budget cond corps s = Some s' /\ I s'
               /\ cond s' = false.
Proof.
  intros Hcorps. induction budget as [|budget IH]; intros s Hs Hm; [lia|].
  cbn [tant_que]. destruct (cond s) eqn:Ec.
  - destruct (Hcorps s Hs Ec) as (s1 & E1 & Hs1 & Hlt).
    rewrite E1. cbn [mbind option_bind]. apply IH; [exact Hs1|lia].
  - exists s. auto.
Qed.

(** ** [factorize] and [is_prime] *)





Lemma is_prime_boucle_spec n l :
  is_prime_boucle n l = true <-> forall i, i ∈ l -> n mod i <> 0.
Proof.
  induction l as [|i l IH]; cbn [is_prime_boucle].
  - split; [|reflexivity]. intros _ i Hi. inversion Hi.
  - destruct (Z.eqb_spec (n mod i) 0) as [E|E].
    + split; [discriminate|]. intros Hall. exfalso.
      apply (Hall i); [left|exact E].
    + rewrite IH. split.
      * intros Hall j Hj. apply elem_of_cons in Hj as [->|Hj]; auto.
      * intros Hall j Hj. apply Hall. right. exact Hj.
Qed.

(** Below 2^52 the bound of the loop of [is_prime] is the integer square
    root, and the call returns. *)
Lemma is_prime_52 n :
  n < 2 ^ 52 ->
  is_prime n
  = Retour (if n <? 2 then false
            else is_prime_boucle n (py_range 2 (Z.sqrt n + 1))).
Proof.
  intros Hn. unfold is_prime. destruct (Z.ltb_spec n 2); [reflexivity|].
  rewrite int_math_sqrt_binary64_exact by lia. reflexivity.
Qed.

Lemma is_prime_spec n :
  n < 2 ^ 52 ->
  exists b, is_prime n = Retour b
    /\ (b = true <-> 2 <= n /\ forall p, ~ petit_diviseur n p).
Proof.
  intros H52. rewrite (is_prime_52 n H52). eexists. split; [reflexivity|].
  destruct (Z.ltb_spec n 2) as [Hn|Hn].
  - split; [discriminate|lia].
  - rewrite is_prime_boucle_spec. unfold py_range.
    pose proof (Z.sqrt_spec n ltac:(lia)) as Hs.
    pose proof (Z.sqrt_nonneg n) as Hs0.
    split.
    + intros Hall. split; [exact Hn|]. intros p (Hp & Hpp & Hdiv).
      apply (Hall p); [|exact Hdiv]. apply elem_of_seqZ.
      apply Z.sqrt_le_square in Hpp; lia.
    + intros [_ Hnone] i Hi Hdiv. apply elem_of_seqZ in Hi.
      apply (Hnone i). unfold petit_diviseur. split; [lia|].
      split; [apply Z.sqrt_le_square; lia|exact Hdiv].
Qed.




(** ** Fibonacci numbers *)

Lemma fib_SS k : fib (S (S k)) = fib (S k) + fib k.
Proof. reflexivity. Qed.

Lemma luc_SS k : luc (S (S k)) = luc (S k) + luc k.
Proof. reflexivity. Qed.

Lemma fib_luc_suivant k :
  2 * fib (S k) = luc k + fib k /\ 2 * luc (S k) = luc k + 5 * fib k.
Proof.
  assert (forall k,
    (2 * fib (S k) = luc k + fib k /\ 2 * luc (S k) = luc k + 5 * fib k)
    /\ (2 * fib (S (S k)) = luc (S k) + fib (S k)
        /\ 2 * luc (S (S k)) = luc (S k) + 5 * fib (S k))) as Hpaire.
  { induction k0 as [|k0 [IH1 IH2]].
    - repeat split; reflexivity.
    - split; [exact IH2|]. rewrite (fib_SS (S k0)), (luc_SS (S k0)). lia. }
  apply Hpaire.
Qed.

Lemma fib_positif k : 0 <= fib k /\ 0 <= luc k.
Proof.
  assert (forall k, (0 <= fib k /\ 0 <= luc k)
                    /\ (0 <= fib (S k) /\ 0 <= luc (S k))) as Hpaire.
  { induction k0 as [|k0 [IH1 IH2]].
    - cbn. lia.
    - split; [exact IH2|]. rewrite fib_SS, luc_SS. lia. }
  apply Hpaire.
Qed.

(** [luc k ^ 2 - 5 * fib k ^ 2] is 4 or -4. *)
Lemma fib_luc_norme k :
  luc k * luc k = 5 * (fib k * fib k) + 4
  \/ luc k * luc k = 5 * (fib k * fib k) - 4.
Proof.
  induction k as [|k IH]; [left; reflexivity|].
  destruct (fib_luc_suivant k) as [Hf Hl].
  destruct IH as [IH|IH]; [right|left]; nia.
Qed.

(** Descent: a solution of [m^2 = 5 n^2 +- 4] is a pair of a Lucas and a
    Fibonacci number of the same rank. *)
Lemma norme_fib n :
  0 <= n -> forall m, 0 <= m ->
  m * m = 5 * (n * n) + 4 \/ m * m = 5 * (n * n) - 4 ->
  exists k, n = fib k /\ m = luc k.
Proof.
  intros Hn. generalize Hn. pattern n. apply Z_lt_induction; [|exact Hn].
  clear n Hn. intros n IH Hn m Hm Hnorme.
  destruct (Z.eq_dec n 0) as [->|Hn0].
  { exists 0%nat. split; [reflexivity|]. cbn. nia. }
  destruct (Z.eq_dec n 1) as [->|Hn1].
  { destruct Hnorme as [E|E].
    - exists 2%nat. split; [reflexivity|]. cbn. nia.
    - exists 1%nat. split; [reflexivity|]. cbn. nia. }
  assert (n <= m) as Hnm by nia.
  assert (m < 3 * n) as Hm3 by nia.
  assert (exists q, m = n + 2 * q) as [q Hq].
  { exists ((m - n) / 2).
    pose proof (Z.div_mod (m - n) 2 ltac:(lia)) as Hdm.
    pose proof (Z.mod_pos_bound (m - n) 2 ltac:(lia)) as Hr.
    assert ((m - n) mod 2 = 0) as Hpair; [|lia].
    destruct (Z.eq_dec ((m - n) mod 2) 0) as [|Hodd]; [assumption|].
    exfalso. assert ((m - n) mod 2 = 1) as H1 by lia.
    rewrite H1 in Hdm. remember ((m - n) / 2) as q eqn:Eq. clear Eq Hodd H1 Hr.
    assert (m = n + 2 * q + 1) as Em by lia. rewrite Em in Hnorme.
    destruct Hnorme as [E|E]; ring_simplify in E; lia. }
  subst m.
  destruct (IH q ltac:(lia) ltac:(lia) (2 * n - q) ltac:(lia))
    as (k & Hk & Hl).
  { destruct Hnorme as [E|E]; [right|left]; nia. }
  exists (S k). destruct (fib_luc_suivant k) as [Hf Hlu]. lia.
Qed.

Lemma carre_parfait_sqrt m :
  (Z.sqrt m ^ 2 =? m) = true <-> carre_parfait m.
Proof.
  rewrite Z.eqb_eq, Z.pow_2_r. split.
  - intros E. exists (Z.sqrt m). exact E.
  - intros [r <-]. rewrite <- (Z.abs_square r).
    rewrite Z.sqrt_square by apply Z.abs_nonneg. reflexivity.
Qed.

Lemma is_fibonacci_eq n :
  0 <= n ->
  is_fibonacci n
  = Retour ((Z.sqrt (5 * n * n + 4) ^ 2 =? 5 * n * n + 4)
            || (Z.sqrt (5 * n * n - 4) ^ 2 =? 5 * n * n - 4)).
Proof.
  intros Hn. unfold is_fibonacci, math_isqrt.
  destruct (Z.ltb_spec n 0) as [|_]; [lia|]. cbv zeta.
  destruct (Z.ltb_spec (5 * n * n + 4) 0) as [|_]; [nia|].
  cbn [mbind resultat_bind].
  destruct (Z.sqrt (5 * n * n + 4) ^ 2 =? 5 * n * n + 4) eqn:E1;
    [reflexivity|].
  destruct (Z.ltb_spec (5 * n * n - 4) 0) as [Hneg|_]; [|reflexivity].
  exfalso. assert (n = 0) as -> by nia. discriminate E1.
Qed.

(** C6.  [is_fibonacci] returns [False] on a negative integer.  On
    [n >= 0] it returns without raising, and it returns [True] exactly when
    [5 n^2 + 4] or [5 n^2 - 4] is a perfect square, which is exactly when
    [n] is a term of the Fibonacci sequence. *)
Theorem fibonacci_appartenance n :
  (n < 0 -> is_fibonacci n = Retour false)
  /\ (0 <= n ->
      (exists b, is_fibonacci n = Retour b)
      /\ (is_fibonacci n = Retour true <->
          carre_parfait (5 * n * n + 4) \/ carre_parfait (5 * n * n - 4))
      /\ (is_fibonacci n = Retour true <-> exists k, n = fib k)).
Proof.
  split.
  { intros Hn. unfold is_fibonacci.
    destruct (Z.ltb_spec n 0); [reflexivity|lia]. }
  intros Hn. rewrite (is_fibonacci_eq n Hn).
  assert (forall b, Retour b = Retour true <-> b = true) as Hret.
  { intros b. split; [intros [= ->]|intros ->]; reflexivity. }
  rewrite Hret, orb_true_iff, !carre_parfait_sqrt.
  split; [eexists; reflexivity|]. split; [reflexivity|].
  split.
  - intros Hc.
    assert (exists m, 0 <= m /\ (m * m = 5 * (n * n) + 4
                                 \/ m * m = 5 * (n * n) - 4))
      as (m & Hm & Hnorme).
    { destruct Hc as [[r Hr]|[r Hr]]; exists (Z.abs r);
        (split; [apply Z.abs_nonneg|]); rewrite Z.abs_square; lia. }
    destruct (norme_fib n Hn m Hm Hnorme) as (k & Hk & _). eauto.
  - intros [k ->].
    destruct (fib_luc_norme k) as [E|E]; [left|right]; exists (luc k); lia.
Qed.

Lemma fibonacci_appartenance_temoin :
  0 <= 21 /\ is_fibonacci 21 = Retour true.
Proof.
  split; [lia|].
  destruct (proj2 (fibonacci_appartenance 21) ltac:(lia)) as (_ & _ & Hfib).
  apply Hfib. exists 8%nat. reflexivity.
Defined.

(** ** IPv4 *)

Lemma octet_extrait n k :
  0 <= k -> Z.land (Z.shiftr n k) 0xFF = n / 2 ^ k mod 256.
Proof.
  intros Hk. change 0xFF with (Z.ones 8).
  rewrite Z.land_ones by lia. rewrite Z.shiftr_div_pow2 by exact Hk.
  reflexivity.
Qed.

Lemma number_to_ipv4_valide n :
  0 <= n <= 4294967295 ->
  number_to_ipv4 n
  = py_join (utf8 ".") (map py_str (octets_gros_boutiste n)).
Proof.
  intros Hn. unfold number_to_ipv4.
  destruct (Z.leb_spec 0 n); [|lia].
  destruct (Z.leb_spec n 0xFFFFFFFF); [|lia]. cbn [andb].
  rewrite !octet_extrait by lia.
  replace (Z.land n 0xFF) with (n / 2 ^ 0 mod 256).
  - unfold octets_gros_boutiste. cbn [map py_join].
    rewrite Z.pow_0_r, Z.div_1_r. reflexivity.
  - rewrite <- (octet_extrait n 0) by lia. rewrite Z.shiftr_0_r. reflexivity.
Qed.

Lemma octets_gros_boutiste_spec n :
  0 <= n <= 4294967295 ->
  Forall (fun b => 0 <= b <= 255) (octets_gros_boutiste n)
  /\ valeur_gros_boutiste (octets_gros_boutiste n) = n.
Proof.
  intros Hn. unfold octets_gros_boutiste, valeur_gros_boutiste.
  change (2 ^ 24) with 16777216. change (2 ^ 16) with 65536.
  change (2 ^ 8) with 256. cbn [fold_left].
  split.
  - repeat constructor; Z.div_mod_to_equations; lia.
  - Z.div_mod_to_equations. lia.
Qed.

(** C8.  For [0 <= n <= 4294967295], [number_to_ipv4(n)] is the four
    bytes of the 32-bit big-endian value of [n], each written as its
    decimal numeral, joined by dots; outside this range it is the sentinel.
    So 0 gives "0.0.0.0", 4294967295 gives "255.255.255.255" and
    4294967296 the sentinel. *)
Theorem ipv4_quadruplet n :
  (0 <= n <= 4294967295 ->
     number_to_ipv4 n
     = py_join (utf8 ".") (map py_str (octets_gros_boutiste n))
     /\ Forall (fun b => 0 <= b <= 255 /\ valeur_decimale (py_str b) = b)
               (octets_gros_boutiste n)
     /\ valeur_gros_boutiste (octets_gros_boutiste n) = n)
  /\ (~ 0 <= n <= 4294967295 -> number_to_ipv4 n = IPV4_INVALIDE)
  /\ number_to_ipv4 0 = utf8 "0.0.0.0"
  /\ number_to_ipv4 4294967295 = utf8 "255.255.255.255"
  /\ number_to_ipv4 4294967296 = IPV4_INVALIDE.
Proof.
  split; [|split; [|repeat split; vm_compute; reflexivity]].
  - intros Hn. split; [apply number_to_ipv4_valide, Hn|].
    destruct (octets_gros_boutiste_spec n Hn) as [Ho Hv].
    split; [|exact Hv].
    eapply Forall_impl; [exact Ho|]. intros b Hb. cbv beta in Hb.
    split; [exact Hb|]. apply py_str_decimal. lia.
  - intros Hn. unfold number_to_ipv4.
    destruct (Z.leb_spec 0 n); [|reflexivity].
    destruct (Z.leb_spec n 0xFFFFFFFF); [|reflexivity]. lia.
Qed.

Lemma ipv4_quadruplet_temoin :
  number_to_ipv4 3232235777 = utf8 "192.168.1.1"
  /\ octets_gros_boutiste 3232235777 = [192; 168; 1; 1].
Proof.
  split; [|reflexivity].
  destruct (proj1 (ipv4_quadruplet 3232235777)) as [E _]; [lia|].
  rewrite E. vm_compute. reflexivity.
Defined.

(** ** Timestamps *)

Lemma deux_chiffres_ecrit v :
  0 <= v <= 99 -> ecrit_sur 2 v (deux_chiffres v).
Proof.
  intros Hv.
  assert (pour_tout_entre (Z.to_nat 100) 0 (fun v =>
            (length (deux_chiffres v) =? 2)%nat
            && forallb (fun c => (48 <=? c) && (c <=? 57)) (deux_chiffres v)
            && (valeur_decimale (deux_chiffres v) =? v)) = true) as Hall
    by (vm_compute; reflexivity).
  pose proof (pour_tout_entre_spec _ _ _ Hall v ltac:(lia)) as Hv'.
  clear Hall. rename Hv' into Hall. cbv beta in Hall.
  rewrite !andb_true_iff, Nat.eqb_eq, Z.eqb_eq, forallb_forall in Hall.
  destruct Hall as [[Hl Hd] Hval]. split; [exact Hl|]. split; [|exact Hval].
  apply Forall_forall. intros c Hc.
  specialize (Hd c (proj1 (list_elem_of_In _ _) Hc)).
  rewrite andb_true_iff, !Z.leb_le in Hd. exact Hd.
Qed.

Lemma annee_ecrite v : 1000 <= v <= 9999 -> ecrit_sur 4 v (py_str v).
Proof.
  intros Hv.
  assert (pour_tout_entre (Z.to_nat 9000) 1000
            (fun v => (length (py_str v) =? 4)%nat) = true) as Hall
    by (vm_compute; reflexivity).
  pose proof (pour_tout_entre_spec _ _ _ Hall v ltac:(lia)) as Hv'.
  clear Hall. rename Hv' into Hall. cbv beta in Hall.
  apply Nat.eqb_eq in Hall.
  destruct (py_str_decimal v ltac:(lia)) as (_ & Hd & Hval).
  split; [exact Hall|]. split; assumption.
Qed.

Lemma jours_du_mois_bornes y m : jours_du_mois y m <= 31.
Proof.
  unfold jours_du_mois.
  destruct (Z.eqb_spec m 2) as [->|Hm]; cbn [andb].
  - change (nth (Z.to_nat 2) _ 0) with 28. destruct (bissextile y); lia.
  - rewrite Z.add_0_r.
    assert (Forall (fun x => x <= 31)
              [0; 31; 28; 31; 30; 31; 30; 31; 31; 30; 31; 30; 31]) as Hl
      by (repeat (apply List.Forall_cons; [lia|]); apply List.Forall_nil).
    rewrite Forall_forall in Hl.
    destruct (nth_in_or_default (Z.to_nat m)
                [0; 31; 28; 31; 30; 31; 30; 31; 31; 30; 31; 30; 31] 0)
      as [Hin| ->]; [|lia].
    apply Hl, list_elem_of_In, Hin.
Qed.

Lemma weekday_bornes d : 0 <= weekday d < 7.
Proof. unfold weekday. apply Z.mod_pos_bound. lia. Qed.

Lemma nom_du_jour d :
  exists jour, NOMS_JOURS !! Z.to_nat (weekday d) = Some jour
    /\ nth (Z.to_nat (weekday d)) NOMS_JOURS [] = jour
    /\ exists c r, jour = c :: r /\ 65 <= c <= 90.
Proof.
  pose proof (weekday_bornes d) as Hw.
  assert (weekday d = 0 \/ weekday d = 1 \/ weekday d = 2 \/ weekday d = 3
          \/ weekday d = 4 \/ weekday d = 5 \/ weekday d = 6)
    as [->|[->|[->|[->|[->|[->| ->]]]]]] by lia;
    (eexists; split; [reflexivity|]; split; [reflexivity|];
     eexists; eexists; split; [vm_compute; reflexivity|lia]).
Qed.

Lemma nom_du_mois m :
  1 <= m <= 12 ->
  exists mois, NOMS_MOIS !! Z.to_nat (m - 1) = Some mois
    /\ nth (Z.to_nat (m - 1)) NOMS_MOIS [] = mois.
Proof.
  intros Hm.
  assert (m = 1 \/ m = 2 \/ m = 3 \/ m = 4 \/ m = 5 \/ m = 6 \/ m = 7
          \/ m = 8 \/ m = 9 \/ m = 10 \/ m = 11 \/ m = 12)
    as [->|[->|[->|[->|[->|[->|[->|[->|[->|[->|[->| ->]]]]]]]]]]] by lia;
    (eexists; split; reflexivity).
Qed.

(** A formatted date starts with the name of a day, the sentinel with a
    Cyrillic letter. *)
Lemma strftime_sentinelle d : strftime d <> TIMESTAMP_INVALIDE.
Proof.
  unfold strftime.
  destruct (nom_du_jour d) as (jour & _ & -> & c & r & -> & Hc).
  intros E. apply (f_equal (hd 0)) in E.
  change (hd 0 TIMESTAMP_INVALIDE) with 1053 in E.
  cbn [app hd] in E. lia.
Qed.

Section TheorieTemps.
Context `{Horloge}.

(** C9.  [unix_to_datetime] never raises.  It returns the sentinel exactly
    when the number is outside [0 .. 2000000000] or the conversion fails.
    Otherwise it returns the date that [datetime.fromtimestamp] gives,
    written as the name of its day of the week, a comma, the day on two
    digits, the name of the month, the year on four digits, the word
    "at", the time as hours, minutes and seconds on two digits each, and
    the marker " UTC". *)
Theorem unix_to_datetime_spec n :
  (forall e, unix_to_datetime n <> Leve e)
  /\ (unix_to_datetime n = Retour TIMESTAMP_INVALIDE
      <-> ~ 0 <= n <= 2000000000 \/ exists e, fromtimestamp n = Leve e)
  /\ (forall d, 0 <= n <= 2000000000 -> fromtimestamp n = Retour d ->
      exists jour jj mois aaaa hh mm ss,
        unix_to_datetime n
        = Retour (jour ++ utf8 ", " ++ jj ++ utf8 " " ++ mois ++ utf8 " "
                  ++ aaaa ++ utf8 " at " ++ hh ++ utf8 ":" ++ mm
                  ++ utf8 ":" ++ ss ++ utf8 " UTC")
        /\ NOMS_JOURS !! Z.to_nat (weekday d) = Some jour
        /\ ecrit_sur 2 (day d) jj
        /\ NOMS_MOIS !! Z.to_nat (month d - 1) = Some mois
        /\ ecrit_sur 4 (year d) aaaa
        /\ ecrit_sur 2 (hour d) hh
        /\ ecrit_sur 2 (minute d) mm
        /\ ecrit_sur 2 (second d) ss).
Proof.
  assert (forall d, 0 <= n <= 2000000000 -> fromtimestamp n = Retour d ->
            unix_to_datetime n = Retour (strftime d)) as Hdate.
  { intros d Hn E. unfold unix_to_datetime.
    destruct (Z.leb_spec 0 n); [|lia].
    destruct (Z.leb_spec n 2000000000); [|lia]. cbn [andb].
    rewrite E. reflexivity. }
  assert (forall e, 0 <= n <= 2000000000 -> fromtimestamp n = Leve e ->
            unix_to_datetime n = Retour TIMESTAMP_INVALIDE) as Hechec.
  { intros e Hn E. unfold unix_to_datetime.
    destruct (Z.leb_spec 0 n); [|lia].
    destruct (Z.leb_spec n 2000000000); [|lia]. cbn [andb].
    rewrite E. cbn [mbind resultat_bind].
    destruct (fromtimestamp_erreurs n e Hn E) as [-> | ->]; reflexivity. }
  assert (~ 0 <= n <= 2000000000 ->
          unix_to_datetime n = Retour TIMESTAMP_INVALIDE) as Hdehors.
  { intros Hn. unfold unix_to_datetime.
    destruct (Z.leb_spec 0 n); [|reflexivity].
    destruct (Z.leb_spec n 2000000000); [lia|reflexivity]. }
  destruct (Z.le_gt_cases 0 n) as [H0|H0];
    [destruct (Z.le_gt_cases n 2000000000) as [H1|H1]|].
  - destruct (fromtimestamp n) as [d|e] eqn:E.
    + rewrite (Hdate d ltac:(lia) eq_refl).
      split; [discriminate|]. split.
      * split.
        -- intros [= Es]. destruct (strftime_sentinelle d Es).
        -- intros [Hn|[e He]]; [lia|discriminate].
      * intros d' _ [= <-].
        destruct (fromtimestamp_date n d ltac:(lia) E)
          as (Hy & Hm & Hj & Hh & Hmi & Hs).
        destruct (nom_du_jour d) as (jour & Ejour & Enth & _).
        destruct (nom_du_mois (month d) Hm) as (mois & Emois & Enthm).
        exists jour, (deux_chiffres (day d)), mois, (py_str (year d)),
          (deux_chiffres (hour d)), (deux_chiffres (minute d)),
          (deux_chiffres (second d)).
        split; [unfold strftime; rewrite Enth, Enthm; reflexivity|].
        pose proof (jours_du_mois_bornes (year d) (month d)) as Hj31.
        split; [exact Ejour|].
        split; [apply deux_chiffres_ecrit; lia|].
        split; [exact Emois|].
        split; [apply annee_ecrite; lia|].
        split; [apply deux_chiffres_ecrit; lia|].
        split; apply deux_chiffres_ecrit; lia.
    + rewrite (Hechec e ltac:(lia) eq_refl).
      split; [discriminate|]. split.
      * split; [intros _; right; eauto|reflexivity].
      * intros d' _ [=].
  - rewrite (Hdehors ltac:(lia)).
    split; [discriminate|]. split.
    + split; [intros _; left; lia|reflexivity].
    + intros d' Hn. lia.
  - rewrite (Hdehors ltac:(lia)).
    split; [discriminate|]. split.
    + split; [intros _; left; lia|reflexivity].
    + intros d' Hn. lia.
Qed.

End TheorieTemps.

Lemma unix_to_datetime_temoin :
  unix_to_datetime (H := horloge_utc) 951782474
  = Retour (utf8 "Tuesday, 29 February 2000 at 00:01:14 UTC")
  /\ exists jour jj mois aaaa hh mm ss,
       utf8 "Tuesday, 29 February 2000 at 00:01:14 UTC"
       = jour ++ utf8 ", " ++ jj ++ utf8 " " ++ mois ++ utf8 " "
         ++ aaaa ++ utf8 " at " ++ hh ++ utf8 ":" ++ mm
         ++ utf8 ":" ++ ss ++ utf8 " UTC"
       /\ jour = utf8 "Tuesday" /\ mois = utf8 "February"
       /\ ecrit_sur 2 29 jj /\ ecrit_sur 4 2000 aaaa
       /\ ecrit_sur 2 0 hh /\ ecrit_sur 2 1 mm /\ ecrit_sur 2 14 ss.
Proof.
  assert (unix_to_datetime (H := horloge_utc) 951782474
          = Retour (utf8 "Tuesday, 29 February 2000 at 00:01:14 UTC")) as E
    by (vm_compute; reflexivity).
  split; [exact E|].
  destruct (proj2 (proj2 (unix_to_datetime_spec (H := horloge_utc) 951782474))
              {| year := 2000; month := 2; day := 29;
                 hour := 0; minute := 1; second := 14 |})
    as (jour & jj & mois & aaaa & hh & mm & ss
        & E' & Hjour & Hjj & Hmois & Haaaa & Hhh & Hmm & Hss);
    [lia|vm_compute; reflexivity|].
  exists jour, jj, mois, aaaa, hh, mm, ss.
  rewrite E in E'. injection E' as E'.
  split; [exact E'|].
  split; [vm_compute in Hjour; injection Hjour as <-; reflexivity|].
  split; [vm_compute in Hmois; injection Hmois as <-; reflexivity|].
  repeat split; first [apply Hjj | apply Haaaa | apply Hhh | apply Hmm
                       | apply Hss].
Defined.

(** ** The scenarios of the specification *)

Section TheorieScenarios.
Context `{Unicode}.

Lemma py_upper_majuscules s : Forall primaire s -> py_upper s = s.
Proof.
  induction 1 as [|c s Hc _ IH]; [reflexivity|].
  change (py_upper (c :: s)) with (toupper c ++ py_upper s).
  rewrite IH, (toupper_majuscule c (primaire_bornes c Hc)). reflexivity.
Qed.

Lemma encoder_majuscules s :
  Forall primaire s ->
  encoder_mot_cyrillique s
  = py_join (utf8 ".") (map (fun c => py_str (valeur c)) s).
Proof.
  intros Hs. rewrite encoder_eq, (py_upper_majuscules s Hs).
  rewrite py_strip_sans_espace.
  - rewrite (jeton_primaire s Hs). reflexivity.
  - eapply Forall_impl; [exact Hs|]. apply primaire_non_espace.
Qed.

Lemma privet_primaire : Forall primaire (utf8 "ПРИВЕТ").
Proof. apply (bool_decide_unpack _). vm_compute. reflexivity. Qed.

(** C2.  "ПРИВЕТ" is encoded as "17.18.10.3.6.20", its value is 74, and
    "17.18.10.3.6.20" is decoded as "ПРИВЕТ". *)
Theorem scenario_privet :
  encoder_mot_cyrillique (utf8 "ПРИВЕТ") = utf8 "17.18.10.3.6.20"
  /\ mot_vers_nombre (utf8 "ПРИВЕТ") = 74
  /\ decoder_sequence_cyrillique (utf8 "17.18.10.3.6.20")
     = Retour (utf8 "ПРИВЕТ").
Proof.
  split; [|split].
  - rewrite (encoder_majuscules _ privet_primaire). vm_compute. reflexivity.
  - rewrite mot_vers_nombre_somme, (py_upper_majuscules _ privet_primaire).
    vm_compute. reflexivity.
  - rewrite <- (aller_retour_majuscules _ privet_primaire). f_equal.
Qed.

Lemma py_upper_ascii s :
  Forall (fun c => 0 <= c < 128) s ->
  py_upper s
  = map (fun c => if (97 <=? c) && (c <=? 122) then c - 32 else c) s.
Proof.
  induction 1 as [|c s Hc _ IH]; [reflexivity|].
  change (py_upper (c :: s)) with (toupper c ++ py_upper s).
  rewrite IH, (toupper_ascii c Hc). reflexivity.
Qed.

Lemma hexadecimal_74 : py_upper (drop 2 (py_hex 74)) = utf8 "4A".
Proof.
  rewrite py_upper_ascii; [vm_compute; reflexivity|].
  apply (bool_decide_unpack _). vm_compute. reflexivity.
Qed.

(** C7, as the two files have it.  The analysis of 74 gives "4A" in
    hexadecimal, "1001010" in binary and the factors [2, 37], and 74 is not
    prime; [Truth.py] reports the parity "Even" and the status
    "Composite", [truth.py] the bilingual labels.  In both the parity entry
    follows [n mod 2]. *)
Theorem analyse_74 :
  (exists r, Truth.analyser_nombre 74 = Some r
     /\ hexadecimal r = utf8 "4A" /\ binary r = utf8 "1001010"
     /\ parity r = utf8 "Even" /\ prime_status r = utf8 "Composite"
     /\ factors r = [2; 37])
  /\ (exists r, analyser_nombre 74 = Some r
     /\ hexadecimal r = utf8 "4A" /\ binary r = utf8 "1001010"
     /\ parity r = utf8 "Четное (Even)"
     /\ prime_status r = utf8 "Составное (Composite)"
     /\ factors r = [2; 37])
  /\ is_prime 74 = Retour false
  /\ (forall n r, Truth.analyser_nombre n = Some r ->
        parity r = if n mod 2 =? 0 then utf8 "Even" else utf8 "Odd")
  /\ (forall n r, analyser_nombre n = Some r ->
        parity r = if n mod 2 =? 0 then utf8 "Четное (Even)"
                   else utf8 "Нечетное (Odd)").
Proof.
  assert (factorize 74 = Some [2; 37]) as Ef by (vm_compute; reflexivity).
  assert (is_prime 74 = Retour false) as Ep by (vm_compute; reflexivity).
  split; [|split; [|split; [exact Ep|split]]].
  - unfold Truth.analyser_nombre. rewrite Ef, Ep.
    cbn [mbind option_bind sans_exception].
    eexists. split; [reflexivity|]. cbn [hexadecimal binary parity
      prime_status factors].
    split; [exact hexadecimal_74|]. repeat split; vm_compute; reflexivity.
  - unfold analyser_nombre. rewrite Ef, Ep.
    cbn [mbind option_bind sans_exception].
    eexists. split; [reflexivity|]. cbn [hexadecimal binary parity
      prime_status factors].
    split; [exact hexadecimal_74|]. repeat split; vm_compute; reflexivity.
  - intros n r. unfold Truth.analyser_nombre.
    destruct (factorize n); cbn [mbind option_bind]; [|discriminate].
    destruct (is_prime n); cbn [mbind option_bind sans_exception];
      [|discriminate].
    intros [= <-]. cbn [parity]. unfold py_vrai.
    destruct (n mod 2 =? 0); reflexivity.
  - intros n r. unfold analyser_nombre.
    destruct (factorize n); cbn [mbind option_bind]; [|discriminate].
    destruct (is_prime n); cbn [mbind option_bind sans_exception];
      [|discriminate].
    intros [= <-]. cbn [parity]. unfold py_vrai.
    destruct (n mod 2 =? 0); reflexivity.
Qed.

End TheorieScenarios.

(** The parity entry of [truth.py] for 74 is the bilingual label, which
    is not the string "Even". *)
Lemma parite_74_bilingue :
  parity <$> analyser_nombre (H := unicode_latin_cyrillique) 74
  = Some (utf8 "Четное (Even)")
  /\ utf8 "Четное (Even)" <> utf8 "Even".
Proof. split; [vm_compute; reflexivity|]. vm_compute. discriminate. Qed.

(** * Properties of the further functions *)

(** ** Prime numbers *)

Lemma petit_diviseur_non_premier n p : petit_diviseur n p -> ~ Z.prime n.
Proof.
  intros (Hp & Hpp & Hdiv) [Hn Hprime].
  apply (Hprime p); [nia|]. apply Z.mod_divide; [lia|exact Hdiv].
Qed.

(** A number above 1 without a divisor between 2 and its square root is
    prime. *)
Lemma premier_sans_petit_diviseur n d :
  1 < n -> 0 <= d -> n < d * d ->
  (forall i, 2 <= i < d -> n mod i <> 0) -> Z.prime n.
Proof.
  intros Hn Hd0 Hd Hnone. split; [exact Hn|]. intros i Hi [j Hj].
  assert (0 < j) as Hj0 by nia.
  assert (1 < j) as Hj1 by nia.
  destruct (Z.lt_ge_cases i d) as [Hid|Hid].
  - apply (Hnone i); [lia|]. rewrite Hj. apply Z.mod_mul. lia.
  - destruct (Z.lt_ge_cases j d) as [Hjd|Hjd].
    + apply (Hnone j); [lia|]. rewrite Hj, Z.mul_comm. apply Z.mod_mul. lia.
    + assert (d * d <= j * i) by (apply Z.mul_le_mono_nonneg; lia). lia.
Qed.

Lemma is_prime_premier n :
  n < 2 ^ 52 -> (is_prime n = Retour true <-> Z.prime n).
Proof.
  intros H52. destruct (is_prime_spec n H52) as (b & -> & Hb).
  transitivity (b = true); [split; congruence|].
  rewrite Hb. split.
  - intros [Hn Hnone].
    pose proof (Z.sqrt_nonneg n).
    apply (premier_sans_petit_diviseur n (Z.sqrt n + 1)); [lia|lia| |].
    + pose proof (Z.sqrt_spec n ltac:(lia)) as Hs. cbv zeta in Hs. lia.
    + intros i Hi Hdiv. apply (Hnone i). unfold petit_diviseur.
      split; [lia|]. split; [apply Z.sqrt_le_square; lia|exact Hdiv].
  - intros Hp. split; [destruct Hp; lia|].
    intros p Hpd. exact (petit_diviseur_non_premier n p Hpd Hp).
Qed.

(** ** The factorization *)

Lemma produit_app l1 l2 : produit (l1 ++ l2) = produit l1 * produit l2.
Proof.
  induction l1 as [|x l1 IH]; cbn [app produit foldr].
  - fold (produit l2). lia.
  - fold (produit (l1 ++ l2)) (produit l1). rewrite IH. lia.
Qed.

Lemma produit_replicate k d : produit (replicate k d) = d ^ Z.of_nat k.
Proof.
  induction k as [|k IH]; [reflexivity|].
  cbn [replicate produit foldr]. fold (produit (replicate k d)).
  rewrite IH, Nat2Z.inj_succ, Z.pow_succ_r by lia. reflexivity.
Qed.

(** The inner loop of [factorize] removes every factor [d] of [n]. *)
Lemma boucle_division_complete budget d n factors :
  2 <= d -> 1 <= n -> (Z.to_nat n < budget)%nat ->
  exists n' k,
    tant_que budget
      (fun '(n, factors) => n mod d =? 0)
      (fun '(n, factors) => Some (n / d, factors ++ [d]))
      (n, factors)
    = Some (n', factors ++ replicate k d)
    /\ 1 <= n' /\ n' * d ^ Z.of_nat k = n /\ n' mod d <> 0.
Proof.
  intros Hd Hn Hb.
  destruct (tant_que_regle
    (fun '(n', f') =>
       exists k, f' = factors ++ replicate k d /\ 1 <= n'
                 /\ n' * d ^ Z.of_nat k = n)
    (fun '(n', _) => Z.to_nat n')
    (fun '(n, factors) => n mod d =? 0)
    (fun '(n, factors) => Some (n / d, factors ++ [d])))
    with (budget := budget) (s := (n, factors))
    as ([n' f'] & E & (k & -> & Hn' & Hk) & Hc).
  - intros [m f] (k & -> & Hm & Hk) Hc. apply Z.eqb_eq in Hc.
    exists (m / d, (factors ++ replicate k d) ++ [d]).
    split; [reflexivity|].
    pose proof (Z.div_mod m d ltac:(lia)) as Hdm. rewrite Hc in Hdm.
    assert (1 <= m / d < m) as Hq.
    { assert (m / d <> 0) by (intros E0; rewrite E0 in Hdm; lia).
      assert (0 <= m / d) by (apply Z.div_pos; lia). nia. }
    split; [|lia]. exists (S k). split; [|split; [lia|]].
    + rewrite <- app_assoc. f_equal.
      change [d] with (replicate 1 d). rewrite <- replicate_add.
      f_equal. lia.
    + rewrite Nat2Z.inj_succ, Z.pow_succ_r by lia.
      rewrite <- Hk. nia.
  - exists 0%nat. rewrite app_nil_r. repeat split; auto. cbn. lia.
  - lia.
  - exists n', k. apply Z.eqb_neq in Hc. auto.
Qed.


Lemma mod_produit n m i : 2 <= i -> n mod i = 0 -> (n * m) mod i = 0.
Proof.
  intros Hi Hn. rewrite <- Z.mul_mod_idemp_l, Hn by lia. apply Z.mod_0_l. lia.
Qed.

Lemma boucle_factorisation n0 :
  2 <= n0 ->
  exists n d factors,
    tant_que (S (Z.to_nat n0))
      (fun '(n, d, factors) => d * d <=? n)
      (fun '(n, d, factors) =>
         '(n, factors) ←
           tant_que (S (Z.to_nat n0))
             (fun '(n, factors) => n mod d =? 0)
             (fun '(n, factors) => Some (n / d, factors ++ [d]))
             (n, factors);
         Some (n, d + 1, factors))
      (n0, 2, [])
    = Some (n, d, factors)
    /\ invariant_factorisation n0 (n, d, factors) /\ n < d * d.
Proof.
  intros Hn0.
  destruct (tant_que_regle (invariant_factorisation n0)
    (fun '(_, d, _) => Z.to_nat (n0 + 1 - d))
    (fun '(n, d, factors) => d * d <=? n)
    (fun '(n, d, factors) =>
       '(n, factors) ←
         tant_que (S (Z.to_nat n0))
           (fun '(n, factors) => n mod d =? 0)
           (fun '(n, factors) => Some (n / d, factors ++ [d]))
           (n, factors);
       Some (n, d + 1, factors)))
    with (budget := S (Z.to_nat n0)) (s := (n0, 2, @nil Z))
    as ([[n d] factors] & E & Hinv & Hc).
  - intros [[n d] factors] (Hd & Hn & Hprod & Hpr & Hlt & Hs & Hnone) Hc.
    apply Z.leb_le in Hc.
    destruct (boucle_division_complete (S (Z.to_nat n0)) d n factors)
      as (n' & k & E & Hn' & Hk & Hmod); [lia|lia|lia|].
    exists (n', d + 1, factors ++ replicate k d). rewrite E.
    split; [reflexivity|].
    assert (1 <= d ^ Z.of_nat k) as Hpow
      by (apply Z.lt_pred_le, Z.pow_pos_nonneg; lia).
    split; [|nia].
    split; [lia|]. split; [nia|].
    split; [rewrite produit_app, produit_replicate; nia|].
    assert (k <> 0%nat -> Z.prime d) as Hdp.
    { intros Hk0. apply (premier_sans_petit_diviseur d d); [lia|lia|nia|].
      intros i Hi Hdiv. apply (Hnone i); [lia|].
      destruct k as [|k]; [congruence|]. rewrite <- Hk.
      rewrite Nat2Z.inj_succ, Z.pow_succ_r by lia.
      replace (n' * (d * d ^ Z.of_nat k)) with (d * (n' * d ^ Z.of_nat k))
        by ring.
      apply mod_produit; [lia|exact Hdiv]. }
    split.
    { apply Forall_app. split; [exact Hpr|].
      destruct k as [|k]; [constructor|].
      apply Forall_replicate. apply Hdp. discriminate. }
    split.
    { apply Forall_app. split.
      - eapply Forall_impl; [exact Hlt|]. cbv beta. intros; lia.
      - apply Forall_replicate. lia. }
    split.
    { apply StronglySorted_app_2; [|exact Hs|].
      - intros x1 x2 H1 H2. apply elem_of_replicate in H2 as [-> _].
        rewrite Forall_forall in Hlt. specialize (Hlt x1 H1). cbv beta in Hlt.
        lia.
      - clear. induction k as [|k IH]; cbn [replicate]; constructor.
        + exact IH.
        + apply Forall_replicate. lia. }
    intros i Hi. destruct (Z.eq_dec i d) as [->|Hid]; [exact Hmod|].
    intros Hdiv. apply (Hnone i); [lia|]. rewrite <- Hk.
    apply mod_produit; [lia|exact Hdiv].
  - unfold invariant_factorisation.
    split; [lia|]. split; [lia|]. split; [cbn; lia|].
    split; [constructor|]. split; [constructor|]. split; [constructor|].
    intros i Hi. lia.
  - lia.
  - exists n, d, factors. apply Z.leb_gt in Hc. auto.
Qed.

(** X1 (factorize): for [n >= 2] the result is the prime factorization of
    [n]: the factors are prime, in nondecreasing order, and their product
    is [n]. *)
Theorem factorize_decomposition n :
  2 <= n ->
  exists l, factorize n = Some l
    /\ produit l = n /\ Forall Z.prime l /\ StronglySorted Z.le l.
Proof.
  intros Hn. unfold factorize.
  destruct (Z.ltb_spec n 2) as [|_]; [lia|].
  destruct (boucle_factorisation n Hn)
    as (m & d & factors & E & (Hd & Hm & Hprod & Hpr & Hlt & Hs & Hnone) & Hc).
  cbv zeta. rewrite E. cbn [mbind option_bind].
  eexists. split; [reflexivity|].
  destruct (Z.ltb_spec 1 m) as [H1|H1].
  - split; [rewrite produit_app; cbn; lia|].
    assert (d <= m) as Hdm.
    { destruct (Z.lt_ge_cases m d) as [Hlt'|]; [|lia].
      exfalso. apply (Hnone m); [lia|]. apply Z.mod_same. lia. }
    split.
    + apply Forall_app. split; [exact Hpr|]. constructor; [|constructor].
      apply (premier_sans_petit_diviseur m d); auto; lia.
    + apply StronglySorted_app_2; [|exact Hs|repeat constructor].
      intros x1 x2 H1' H2. apply list_elem_of_singleton in H2 as ->.
      rewrite Forall_forall in Hlt. specialize (Hlt x1 H1'). cbv beta in Hlt.
      lia.
  - assert (m = 1) as -> by lia. split; [lia|]. split; assumption.
Qed.

Lemma factorize_decomposition_temoin :
  exists l, factorize 360 = Some l
    /\ produit l = 360 /\ Forall Z.prime l /\ StronglySorted Z.le l.
Proof. apply (factorize_decomposition 360). lia. Defined.

(** ** The primes below a number *)

Lemma tant_que_resultat_regle {S : Type} (I : S -> Prop) (mesure : S -> nat)
    (cond : S -> bool) (corps : S -> resultat S) :
  (forall s, I s -> cond s = true ->
     exists s', corps s = Retour s' /\ I s' /\ (mesure s' < mesure s)%nat) ->
  forall budget s, I s -> (mesure s < budget)%nat ->
    exists s', tant_que_resultat budget cond corps s = Some (Retour s')
               /\ I s' /\ cond s' = false.
Proof.
  intros Hcorps. induction budget as [|budget IH]; intros s Hs Hm; [lia|].
  cbn [tant_que_resultat]. destruct (cond s) eqn:Ec.
  - destruct (Hcorps s Hs Ec) as (s1 & E1 & Hs1 & Hlt).
    rewrite E1. apply IH; [exact Hs1|lia].
  - exists s. auto.
Qed.

(** X2 (find_previous_primes): for [n] up to 2^52, where [is_prime] is
    exact, the call returns the primes below [n] in decreasing order,
    without a gap, and stops after [count] of them: a prime below [n] that
    is not returned lies below all the [count] primes that are (none when
    [count] is negative). *)
Theorem find_previous_primes_spec n count :
  n <= 2 ^ 52 ->
  exists l, find_previous_primes n count = Some (Retour l)
    /\ Forall (fun p => Z.prime p /\ p < n) l
    /\ StronglySorted (fun a b => b < a) l
    /\ Z.of_nat (length l) <= Z.max 0 count
    /\ forall p, Z.prime p -> p < n ->
         p ∈ l \/ (Z.of_nat (length l) = Z.max 0 count
                  /\ Forall (fun q => p < q) l).
Proof.
  intros H52. unfold find_previous_primes.
  destruct (tant_que_resultat_regle
    (fun '(primes, candidate) =>
       candidate < n
       /\ Forall (fun p => Z.prime p /\ candidate < p < n) primes
       /\ StronglySorted (fun a b => b < a) primes
       /\ Z.of_nat (length primes) <= Z.max 0 count
       /\ forall p, Z.prime p -> candidate < p < n -> p ∈ primes)
    (fun '(_, candidate) => Z.to_nat candidate)
    (fun '(primes, candidate) =>
       (Z.of_nat (length primes) <? count) && (1 <? candidate))
    (fun '(primes, candidate) =>
       premier ← is_prime candidate;
       Retour (if (premier : bool) then primes ++ [candidate] else primes,
               candidate - 1)))
    with (budget := S (Z.to_nat n)) (s := (@nil Z, n - 1))
    as ([primes candidate] & E & (Hc & Hpr & Hs & Hlen & Hall) & Hcond).
  - intros [primes candidate] (Hc & Hpr & Hs & Hlen & Hall) Hcond.
    apply andb_true_iff in Hcond as [Hl H1].
    apply Z.ltb_lt in Hl. apply Z.ltb_lt in H1.
    assert (candidate < 2 ^ 52) as Hc52 by lia.
    pose proof (is_prime_premier candidate Hc52) as Hpremier.
    destruct (is_prime_spec candidate Hc52) as (b & Eb & _).
    rewrite Eb in Hpremier |- *. cbn [mbind resultat_bind].
    eexists. split; [reflexivity|]. split; [|lia].
    split; [lia|].
    destruct b.
    + assert (Z.prime candidate) as Ep by (apply Hpremier; reflexivity).
      split.
      { apply Forall_app. split.
        - eapply Forall_impl; [exact Hpr|]. cbv beta. intros ? [? ?].
          split; [assumption|lia].
        - constructor; [|constructor]. split; [exact Ep|lia]. }
      split.
      { apply StronglySorted_app_2; [|exact Hs|repeat constructor].
        intros x1 x2 Hx1 Hx2. apply list_elem_of_singleton in Hx2 as ->.
        rewrite Forall_forall in Hpr. destruct (Hpr x1 Hx1). lia. }
      split; [rewrite length_app, Nat2Z.inj_add; cbn [length]; lia|].
      intros p Hp Hb. apply elem_of_app.
      destruct (Z.eq_dec p candidate) as [->|Hne].
      * right. apply list_elem_of_singleton. reflexivity.
      * left. apply Hall; [exact Hp|lia].
    + split.
      { eapply Forall_impl; [exact Hpr|]. cbv beta. intros ? [? ?].
        split; [assumption|lia]. }
      split; [exact Hs|]. split; [exact Hlen|].
      intros p Hp Hb.
      destruct (Z.eq_dec p candidate) as [->|Hne].
      * apply Hpremier in Hp. discriminate.
      * apply Hall; [exact Hp|lia].
  - split; [lia|]. split; [constructor|]. split; [constructor|].
    split; [cbn [length]; lia|]. intros p _ Hb. lia.
  - lia.
  - rewrite E. cbn [mbind option_bind resultat_bind]. exists primes.
    split; [reflexivity|].
    split.
    { eapply Forall_impl; [exact Hpr|]. cbv beta. intros ? [? ?].
      split; [assumption|lia]. }
    split; [exact Hs|]. split; [exact Hlen|].
    intros p Hp Hpn.
    destruct (Z.lt_ge_cases candidate p) as [Hcp|Hcp].
    + left. apply Hall; [exact Hp|lia].
    + right. assert (1 < p) by (destruct Hp; lia).
      apply andb_false_iff in Hcond as [Hl|H1].
      * apply Z.ltb_ge in Hl. split; [lia|].
        eapply Forall_impl; [exact Hpr|]. cbv beta. intros ? [? ?]. lia.
      * apply Z.ltb_ge in H1. lia.
Qed.

Lemma find_previous_primes_temoin :
  exists l, find_previous_primes 74 8 = Some (Retour l)
    /\ Forall (fun p => Z.prime p /\ p < 74) l
    /\ StronglySorted (fun a b => b < a) l
    /\ Z.of_nat (length l) <= Z.max 0 8
    /\ forall p, Z.prime p -> p < 74 ->
         p ∈ l \/ (Z.of_nat (length l) = Z.max 0 8
                  /\ Forall (fun q => p < q) l).
Proof.
  apply (find_previous_primes_spec 74 8).
  change (2 ^ 52) with 4503599627370496. lia.
Defined.

(** ** Sequences of tokens *)

Lemma py_split_app sep s1 s2 :
  py_split sep (s1 ++ sep :: s2) = py_split sep s1 ++ py_split sep s2.
Proof.
  induction s1 as [|c r IH]; cbn [app py_split].
  - rewrite Z.eqb_refl. reflexivity.
  - destruct (c =? sep); [rewrite IH; reflexivity|].
    rewrite IH. destruct (py_split sep r) as [|t ts] eqn:E.
    + exfalso. exact (py_split_non_vide sep r E).
    + reflexivity.
Qed.

Lemma pour_app {A S : Type} (corps : S -> A -> resultat S) l1 l2 s :
  pour (l1 ++ l2) corps s = (s' ← pour l1 corps s; pour l2 corps s').
Proof.
  revert s. induction l1 as [|x l1 IH]; intros s; cbn [app pour].
  - reflexivity.
  - destruct (corps s x) as [s1|e]; cbn [mbind resultat_bind]; [apply IH|].
    reflexivity.
Qed.

Lemma py_str_sans_point n : 0 <= n -> ord "." ∉ py_str n.
Proof.
  intros Hn Hin. destruct (py_str_decimal n Hn) as (_ & Hd & _).
  rewrite Forall_forall in Hd. apply Hd in Hin. vm_compute in Hin.
  destruct Hin as [Hin _]. apply Hin. reflexivity.
Qed.

Section TheorieSequences.
Context `{Unicode}.

(** The decoder on the decimal notation of a number: the letter of that
    code when there is one, nothing otherwise. *)
Lemma corps_decodeur_nombre n acc :
  0 <= n ->
  corps_decodeur acc (py_str n)
  = Retour (acc ++ match ALPHABET_INVERSE !! n with
                   | Some lettre => [[lettre]]
                   | None => []
                   end).
Proof.
  intros Hn. destruct (py_str_decimal n Hn) as (Hne & Hd & Hv).
  unfold corps_decodeur.
  rewrite (py_isdigit_ascii _ Hne Hd), (py_int_ascii _ Hne Hd), Hv.
  cbn [mbind resultat_bind].
  destruct (ALPHABET_INVERSE !! n) as [l|] eqn:El.
  - pose proof (map_Forall_lookup_1 _ _ _ _ inverse_faits El) as [Hb _].
    rewrite (choix_branche_code _ Hb). unfold py_getitem. rewrite El.
    reflexivity.
  - rewrite app_nil_r. unfold choix_branche.
    destruct ((1 <=? n) && (n <=? 33)) eqn:Eb.
    + apply andb_true_iff in Eb as [H1 H2].
      apply Z.leb_le in H1. apply Z.leb_le in H2.
      destruct (inverse_total n ltac:(lia)) as [l El']. congruence.
    + destruct ((1 <=? n) && (n <=? 26)) eqn:Eb'; [|reflexivity].
      exfalso. apply andb_true_iff in Eb' as [H1 H2].
      apply Z.leb_le in H1. apply Z.leb_le in H2.
      apply andb_false_iff in Eb as [Eb|Eb]; apply Z.leb_gt in Eb; lia.
Qed.

(** The accumulator of the decoder only grows at its end. *)
Lemma corps_decodeur_acc acc nombre :
  corps_decodeur acc nombre
  = (ajout ← corps_decodeur [] nombre; Retour (acc ++ ajout)).
Proof.
  unfold corps_decodeur.
  destruct (py_isdigit nombre); cbn [mbind resultat_bind];
    [|rewrite app_nil_r; reflexivity].
  destruct (py_int nombre) as [numero|e]; cbn [mbind resultat_bind];
    [|reflexivity].
  destruct (choix_branche numero); cbn [mbind resultat_bind app].
  - destruct (py_getitem ALPHABET_INVERSE numero);
      cbn [mbind resultat_bind app]; reflexivity.
  - reflexivity.
  - rewrite app_nil_r. reflexivity.
Qed.

Lemma pour_decodeur_acc l acc :
  pour l corps_decodeur acc
  = (ajout ← pour l corps_decodeur []; Retour (acc ++ ajout)).
Proof.
  revert acc. induction l as [|x l IH]; intros acc; cbn [pour].
  - cbn [mbind resultat_bind]. rewrite app_nil_r. reflexivity.
  - rewrite (corps_decodeur_acc acc x).
    destruct (corps_decodeur [] x) as [a|e]; cbn [mbind resultat_bind];
      [|reflexivity].
    rewrite (IH (acc ++ a)), (IH a).
    destruct (pour l corps_decodeur []) as [b|e];
      cbn [mbind resultat_bind]; [|reflexivity].
    rewrite app_assoc. reflexivity.
Qed.

Lemma sequence_eq sequence :
  sequence_vers_nombre sequence
  = pour (py_split (ord ".") sequence)
      (fun (total : Z) (nombre : chaine) =>
         if py_isdigit nombre then
           numero ← py_int nombre;
           Retour (total + numero)
         else Retour total)
      0.
Proof. reflexivity. Qed.

Lemma pour_somme_acc l total :
  pour l
    (fun (total : Z) (nombre : chaine) =>
       if py_isdigit nombre then
         numero ← py_int nombre;
         Retour (total + numero)
       else Retour total)
    total
  = (n ← pour l
           (fun (total : Z) (nombre : chaine) =>
              if py_isdigit nombre then
                numero ← py_int nombre;
                Retour (total + numero)
              else Retour total)
           0;
     Retour (total + n)).
Proof.
  revert total. induction l as [|x l IH]; intros total; cbn [pour].
  - cbn [mbind resultat_bind]. f_equal. lia.
  - destruct (py_isdigit x); cbn [mbind resultat_bind].
    + destruct (py_int x) as [k|e]; cbn [mbind resultat_bind];
        [|reflexivity].
      rewrite (IH (total + k)), (IH (0 + k)).
      destruct (pour l _ 0) as [b|e]; cbn [mbind resultat_bind];
        [|reflexivity].
      f_equal. lia.
    + apply IH.
Qed.

(** X3 (decoder_sequence_cyrillique, sequence_vers_nombre): both work token
    by token.  Decoding two sequences joined by a dot gives the
    concatenation of the two decoded words, and summing them gives the sum
    of the two sums; an error of the first sequence comes first. *)
Theorem sequences_concatenees s1 s2 :
  decoder_sequence_cyrillique (s1 ++ utf8 "." ++ s2)
  = (m1 ← decoder_sequence_cyrillique s1;
     m2 ← decoder_sequence_cyrillique s2;
     Retour (m1 ++ m2))
  /\ sequence_vers_nombre (s1 ++ utf8 "." ++ s2)
     = (n1 ← sequence_vers_nombre s1;
        n2 ← sequence_vers_nombre s2;
        Retour (n1 + n2)).
Proof.
  change (utf8 "." ++ s2) with (ord "." :: s2). split.
  - rewrite !decoder_eq, py_split_app, pour_app.
    destruct (pour (py_split (ord ".") s1) corps_decodeur []) as [a|e];
      cbn [mbind resultat_bind]; [|reflexivity].
    rewrite pour_decodeur_acc.
    destruct (pour (py_split (ord ".") s2) corps_decodeur []) as [b|e];
      cbn [mbind resultat_bind]; [|reflexivity].
    rewrite !py_join_vide, concat_app. reflexivity.
  - rewrite !sequence_eq, py_split_app, pour_app.
    destruct (pour (py_split (ord ".") s1) _ 0) as [a|e];
      cbn [mbind resultat_bind]; [|reflexivity].
    rewrite pour_somme_acc.
    destruct (pour (py_split (ord ".") s2) _ 0) as [b|e];
      cbn [mbind resultat_bind]; reflexivity.
Qed.

Lemma Forall_py_lstrip (P : Z -> Prop) s :
  Forall P s -> Forall P (py_lstrip s).
Proof.
  induction 1 as [|c r Hc Hr IH]; cbn [py_lstrip]; [constructor|].
  destruct (py_isspace c); [exact IH|]. constructor; assumption.
Qed.

Lemma Forall_py_strip (P : Z -> Prop) s :
  Forall P s -> Forall P (py_strip s).
Proof.
  intros Hs. unfold py_strip, py_rstrip.
  apply Forall_rev, Forall_py_lstrip, Forall_rev, Forall_py_lstrip, Hs.
Qed.

(** Decoding tokens joined by dots is running the loop on the tokens. *)
Lemma decoder_jetons toks :
  Forall (fun t => ord "." ∉ t) toks ->
  decoder_sequence_cyrillique (py_join (utf8 ".") toks)
  = (mot_decode ← pour toks corps_decodeur []; Retour (concat mot_decode)).
Proof.
  intros Ht. rewrite decoder_eq. destruct toks as [|t0 ts] eqn:Et.
  - reflexivity.
  - rewrite <- Et in *. change (utf8 ".") with [ord "."].
    rewrite py_split_join; [|rewrite Et; discriminate|exact Ht].
    destruct (pour toks corps_decodeur []) as [m|e];
      cbn [mbind resultat_bind]; [|reflexivity].
    rewrite py_join_vide. reflexivity.
Qed.

Lemma sequence_jetons toks :
  Forall (fun t => ord "." ∉ t) toks ->
  sequence_vers_nombre (py_join (utf8 ".") toks)
  = pour toks
      (fun (total : Z) (nombre : chaine) =>
         if py_isdigit nombre then
           numero ← py_int nombre;
           Retour (total + numero)
         else Retour total)
      0.
Proof.
  intros Ht. rewrite sequence_eq. destruct toks as [|t0 ts] eqn:Et.
  - reflexivity.
  - rewrite <- Et in *. change (utf8 ".") with [ord "."].
    rewrite py_split_join; [reflexivity|rewrite Et; discriminate|exact Ht].
Qed.

Lemma jeton_sans_point c :
  (isalpha c = true -> ord "A" <= c) ->
  Forall (fun t => ord "." ∉ t) (jeton c).
Proof.
  intros Hc. unfold jeton.
  destruct (ALPHABET_CYRILLIQUE !! c) as [n|] eqn:En.
  - constructor; [|constructor]. apply py_str_sans_point.
    pose proof (map_Forall_lookup_1 _ _ _ _ alphabet_faits En) as [Hn _].
    lia.
  - destruct (isalpha c); constructor; [|constructor].
    apply py_str_sans_point. specialize (Hc eq_refl). lia.
Qed.

Lemma pour_jetons s acc :
  Forall (fun c => isalpha c = true -> ord "A" <= c) s ->
  pour (flat_map jeton s) corps_decodeur acc
  = Retour (acc ++ map (fun c => [c]) (flat_map lettre_decodee s)).
Proof.
  intros Hs. revert acc.
  induction Hs as [|c s Hc _ IH]; intros acc; cbn [flat_map].
  - cbn [pour map]. rewrite app_nil_r. reflexivity.
  - rewrite pour_app, map_app, app_assoc.
    assert (pour (jeton c) corps_decodeur acc
            = Retour (acc ++ map (fun c => [c]) (lettre_decodee c))) as ->.
    { unfold jeton, lettre_decodee.
      destruct (ALPHABET_CYRILLIQUE !! c) as [n|] eqn:En.
      - assert (primaire c) as Hp by (unfold primaire; eauto).
        assert (n = valeur c) as -> by (unfold valeur; rewrite En; reflexivity).
        cbn [pour]. rewrite (corps_decodeur_code c acc Hp). reflexivity.
      - destruct (isalpha c); [|cbn [pour map]; rewrite app_nil_r; reflexivity].
        specialize (Hc eq_refl). cbn [pour].
        rewrite corps_decodeur_nombre by lia. cbn [mbind resultat_bind].
        destruct (ALPHABET_INVERSE !! (c - ord "A" + 1)); reflexivity. }
    cbn [mbind resultat_bind]. apply IH.
Qed.

(** X4 (encoder_mot_cyrillique, decoder_sequence_cyrillique): decoding an
    encoded word gives, for every character of the stripped upper-case
    word, the character itself when it is in the table, the letter of the
    table of the same rank when it is another letter of rank at most 33
    (A gives А, B gives Б, ...), and nothing otherwise.  The word is any
    word whose letters are not below 'A'. *)
Theorem decoder_encoder w :
  Forall (fun c => isalpha c = true -> ord "A" <= c) (py_upper w) ->
  decoder_sequence_cyrillique (encoder_mot_cyrillique w)
  = Retour (flat_map lettre_decodee (py_strip (py_upper w))).
Proof.
  intros Hw. apply Forall_py_strip in Hw.
  rewrite encoder_eq, decoder_jetons.
  - rewrite (pour_jetons _ [] Hw). cbn [mbind resultat_bind app].
    rewrite concat_map_singleton. reflexivity.
  - apply Forall_flat_map. eapply Forall_impl; [exact Hw|].
    intros c Hc. apply jeton_sans_point, Hc.
Qed.

Lemma pour_jetons_somme s total :
  Forall (fun c => primaire c \/ isalpha c = false) s ->
  pour (flat_map jeton s)
    (fun (total : Z) (nombre : chaine) =>
       if py_isdigit nombre then
         numero ← py_int nombre;
         Retour (total + numero)
       else Retour total)
    total
  = Retour (total + somme s).
Proof.
  intros Hs. revert total.
  induction Hs as [|c s Hc _ IH]; intros total; cbn [flat_map].
  - cbn [pour]. change (somme []) with 0. f_equal. lia.
  - rewrite pour_app, somme_cons. unfold valeur.
    destruct (ALPHABET_CYRILLIQUE !! c) as [n|] eqn:En.
    + assert (jeton c = [py_str n]) as ->
        by (unfold jeton; rewrite En; reflexivity).
      pose proof (map_Forall_lookup_1 _ _ _ _ alphabet_faits En) as [Hn _].
      destruct (py_str_decimal n ltac:(lia)) as (Hne & Hd & Hv).
      cbn [pour].
      rewrite (py_isdigit_ascii _ Hne Hd), (py_int_ascii _ Hne Hd), Hv.
      cbn [mbind resultat_bind]. rewrite IH. f_equal. lia.
    + destruct Hc as [[n Hn]|Hc]; [congruence|].
      assert (jeton c = []) as ->
        by (unfold jeton; rewrite En, Hc; reflexivity).
      cbn [pour mbind resultat_bind]. rewrite IH. reflexivity.
Qed.

(** X5 (sequence_vers_nombre, encoder_mot_cyrillique, mot_vers_nombre): for
    a word without a letter outside the table, the sum of the tokens of
    its encoding is its value. *)
Theorem sequence_encodee w :
  Forall (fun c => primaire c \/ isalpha c = false) (py_upper w) ->
  sequence_vers_nombre (encoder_mot_cyrillique w)
  = Retour (mot_vers_nombre w).
Proof.
  intros Hw. apply Forall_py_strip in Hw.
  rewrite encoder_eq, sequence_jetons.
  - rewrite (pour_jetons_somme _ 0 Hw), mot_vers_nombre_somme, somme_strip.
    reflexivity.
  - apply Forall_flat_map. eapply Forall_impl; [exact Hw|].
    intros c Hc. apply jeton_sans_point. intros Ha.
    destruct Hc as [Hc|Hc]; [|congruence].
    pose proof (primaire_bornes c Hc). change (ord "A") with 65. lia.
Qed.

(** X6 (decoder_sequence_cyrillique, encoder_mot_cyrillique): a sequence of
    codes between 1 and 33 in decimal notation is decoded letter by
    letter, and encoding the decoded word gives the sequence back. *)
Theorem encoder_decoder ks :
  Forall (fun k => 1 <= k <= 33) ks ->
  exists m,
    decoder_sequence_cyrillique (py_join (utf8 ".") (map py_str ks))
    = Retour m
    /\ Forall2 (fun k c => ALPHABET_INVERSE !! k = Some c) ks m
    /\ encoder_mot_cyrillique m = py_join (utf8 ".") (map py_str ks).
Proof.
  intros Hks.
  assert (exists m, Forall2 (fun k c => ALPHABET_INVERSE !! k = Some c) ks m)
    as [m Hm].
  { induction Hks as [|k ks Hk _ [m Hm]]; [exists []; constructor|].
    destruct (inverse_total k Hk) as [c Hc].
    exists (c :: m). constructor; assumption. }
  assert (Forall primaire m /\ map (fun c => py_str (valeur c)) m
                               = map py_str ks) as [Hp Hmap].
  { clear Hks. induction Hm as [|k c ks m Hkc _ [IH1 IH2]].
    - split; [constructor|reflexivity].
    - pose proof (map_Forall_lookup_1 _ _ _ _ inverse_faits Hkc) as [_ Hc].
      split.
      + constructor; [unfold primaire; eauto|exact IH1].
      + cbn [map]. rewrite IH2. unfold valeur. rewrite Hc. reflexivity. }
  exists m. rewrite <- Hmap.
  split; [apply aller_retour_majuscules, Hp|].
  split; [exact Hm|apply encoder_majuscules, Hp].
Qed.

Lemma Forall_py_split (P : Z -> Prop) sep s :
  Forall P s -> Forall (Forall P) (py_split sep s).
Proof.
  induction 1 as [|c r Hc Hr IH]; cbn [py_split].
  - repeat constructor.
  - destruct (c =? sep); [constructor; [constructor|exact IH]|].
    destruct (py_split sep r) as [|t ts]; [repeat constructor; exact Hc|].
    apply Forall_cons in IH as [Ht Hts].
    constructor; [constructor; assumption|exact Hts].
Qed.

Lemma isdigit_chiffres t :
  Forall (fun c => isdigit c = true -> 48 <= c <= 57) t ->
  py_isdigit t = true ->
  t <> [] /\ Forall (fun d => 48 <= d <= 57) t.
Proof.
  intros Ht Hd. destruct t as [|c r]; [discriminate|].
  split; [discriminate|]. unfold py_isdigit in Hd.
  rewrite forallb_forall in Hd. rewrite Forall_forall in Ht |- *.
  intros d Hin. apply Ht; [exact Hin|]. apply Hd, list_elem_of_In, Hin.
Qed.

Lemma valeur_decimale_positive_aux t a :
  Forall (fun d => 48 <= d <= 57) t -> 0 <= a ->
  0 <= fold_left (fun acc d => 10 * acc + (d - 48)) t a.
Proof.
  intros Ht. revert a. induction Ht as [|d t Hd _ IH]; intros a Ha.
  - exact Ha.
  - cbn [fold_left]. apply IH. lia.
Qed.

(** X7 (decoder_sequence_cyrillique, sequence_vers_nombre): on a sequence
    whose digits are all among 0 .. 9 and whose tokens have at most 4300
    characters, neither function raises, and the sum is not negative.
    4300 characters is the length up to which [int] reads a decimal
    numeral whatever the limit of the interpreter on this length, a limit
    that [py_int] does not have. *)
Theorem sequences_ascii s :
  Forall (fun c => isdigit c = true -> 48 <= c <= 57) s ->
  Forall (fun t => (length t <= 4300)%nat) (py_split (ord ".") s) ->
  (exists m, decoder_sequence_cyrillique s = Retour m)
  /\ (exists n, sequence_vers_nombre s = Retour n /\ 0 <= n).
Proof.
  intros Hs _. pose proof (Forall_py_split _ (ord ".") s Hs) as Ht. split.
  - rewrite decoder_eq.
    assert (forall acc, exists m,
              pour (py_split (ord ".") s) corps_decodeur acc = Retour m)
      as Hpour.
    { induction Ht as [|t ts Htok _ IH]; intros acc; [eexists; reflexivity|].
      cbn [pour].
      assert (exists acc', corps_decodeur acc t = Retour acc') as [acc' ->].
      { unfold corps_decodeur. destruct (py_isdigit t) eqn:Ed; [|eauto].
        destruct (isdigit_chiffres t Htok Ed) as [Hne Hd].
        rewrite (py_int_ascii _ Hne Hd). cbn [mbind resultat_bind].
        unfold choix_branche.
        destruct ((1 <=? valeur_decimale t) && (valeur_decimale t <=? 33))
          eqn:Eb.
        - apply andb_true_iff in Eb as [H1 H2].
          apply Z.leb_le in H1. apply Z.leb_le in H2.
          destruct (inverse_total (valeur_decimale t) ltac:(lia)) as [l El].
          unfold py_getitem. rewrite El. cbn [mbind resultat_bind]. eauto.
        - destruct ((1 <=? valeur_decimale t) && (valeur_decimale t <=? 26));
            eauto. }
      cbn [mbind resultat_bind]. apply IH. }
    destruct (Hpour []) as [m ->]. cbn [mbind resultat_bind]. eauto.
  - rewrite sequence_eq.
    assert (forall total, 0 <= total -> exists n,
              pour (py_split (ord ".") s)
                (fun (total : Z) (nombre : chaine) =>
                   if py_isdigit nombre then
                     numero ← py_int nombre;
                     Retour (total + numero)
                   else Retour total)
                total = Retour n /\ 0 <= n) as Hpour.
    { induction Ht as [|t ts Htok _ IH]; intros total Htot;
        [exists total; split; [reflexivity|exact Htot]|].
      cbn [pour]. destruct (py_isdigit t) eqn:Ed.
      - destruct (isdigit_chiffres t Htok Ed) as [Hne Hd].
        rewrite (py_int_ascii _ Hne Hd). cbn [mbind resultat_bind].
        apply IH. pose proof (valeur_decimale_positive_aux t 0 Hd).
        unfold valeur_decimale. lia.
      - cbn [mbind resultat_bind]. apply IH, Htot. }
    apply Hpour. lia.
Qed.

End TheorieSequences.

Lemma decoder_encoder_temoin :
  decoder_sequence_cyrillique (H := unicode_latin_cyrillique)
    (encoder_mot_cyrillique (H := unicode_latin_cyrillique)
       (utf8 " Hello, мир! "))
  = Retour (utf8 "ЖДККНМИР").
Proof.
  rewrite (decoder_encoder (H := unicode_latin_cyrillique)
             (utf8 " Hello, мир! ")).
  - vm_compute. reflexivity.
  - apply (bool_decide_unpack _). vm_compute. reflexivity.
Defined.

Lemma sequence_encodee_temoin :
  sequence_vers_nombre (H := unicode_latin_cyrillique)
    (encoder_mot_cyrillique (H := unicode_latin_cyrillique)
       (utf8 "Привет, мир!"))
  = Retour 116.
Proof.
  rewrite (sequence_encodee (H := unicode_latin_cyrillique)
             (utf8 "Привет, мир!")).
  - vm_compute. reflexivity.
  - apply (bool_decide_unpack _). vm_compute. reflexivity.
Defined.

Lemma encoder_decoder_temoin :
  exists m,
    decoder_sequence_cyrillique (H := unicode_latin_cyrillique)
      (py_join (utf8 ".") (map py_str [14; 10; 18])) = Retour m
    /\ Forall2 (fun k c => ALPHABET_INVERSE !! k = Some c) [14; 10; 18] m
    /\ encoder_mot_cyrillique (H := unicode_latin_cyrillique) m
       = py_join (utf8 ".") (map py_str [14; 10; 18]).
Proof.
  apply (encoder_decoder (H := unicode_latin_cyrillique) [14; 10; 18]).
  repeat (apply List.Forall_cons; [lia|]). apply List.Forall_nil.
Defined.

Lemma sequences_ascii_temoin :
  (exists m, decoder_sequence_cyrillique (H := unicode_latin_cyrillique)
               (utf8 "17.018.x.99..3") = Retour m)
  /\ (exists n, sequence_vers_nombre (H := unicode_latin_cyrillique)
                  (utf8 "17.018.x.99..3") = Retour n /\ 0 <= n).
Proof.
  apply (sequences_ascii (H := unicode_latin_cyrillique)).
  - apply (bool_decide_unpack _). vm_compute. reflexivity.
  - apply (bool_decide_unpack _). vm_compute. reflexivity.
Defined.

(** ** The properties of the text *)

Lemma py_replace_app old new a b :
  py_replace old new (a ++ b) = py_replace old new a ++ py_replace old new b.
Proof. apply flat_map_app. Qed.

Lemma py_replace_rev old s :
  py_replace old [] (rev s) = rev (py_replace old [] s).
Proof.
  induction s as [|c s IH]; [reflexivity|].
  cbn [rev]. rewrite py_replace_app, IH.
  change (py_replace old [] (c :: s))
    with ((if c =? old then [] else [c]) ++ py_replace old [] s).
  rewrite rev_app_distr. f_equal.
  cbn [py_replace flat_map]. rewrite app_nil_r.
  destruct (c =? old); reflexivity.
Qed.

Lemma py_replace_idem old s :
  py_replace old [] (py_replace old [] s) = py_replace old [] s.
Proof.
  induction s as [|c s IH]; [reflexivity|].
  change (py_replace old [] (c :: s))
    with ((if c =? old then [] else [c]) ++ py_replace old [] s).
  rewrite py_replace_app, IH. f_equal.
  destruct (c =? old) eqn:E; [reflexivity|].
  cbn [py_replace flat_map]. rewrite E. reflexivity.
Qed.

Lemma py_sum_compte {A} (l : list A) :
  py_sum (map (fun _ => 1) l) = Z.of_nat (length l).
Proof.
  unfold py_sum.
  assert (forall a, fold_left Z.add (map (fun _ : A => 1) l) a
                    = a + Z.of_nat (length l)) as Hgen.
  { induction l as [|x l IH]; intros a; cbn [map fold_left length].
    - lia.
    - rewrite IH, Nat2Z.inj_succ. lia. }
  rewrite Hgen. lia.
Qed.

Section TheorieTexte.
Context `{Unicode}.

Lemma py_upper_sans_espaces w :
  py_replace (ord " ") [] (py_upper (py_replace (ord " ") [] w))
  = py_replace (ord " ") [] (py_upper w).
Proof.
  induction w as [|c w IH]; [reflexivity|].
  change (py_replace (ord " ") [] (c :: w))
    with ((if c =? ord " " then [] else [c]) ++ py_replace (ord " ") [] w).
  change (py_upper (c :: w)) with (toupper c ++ py_upper w).
  rewrite py_upper_app, !py_replace_app, IH. f_equal.
  destruct (Z.eqb_spec c (ord " ")) as [->|_].
  - rewrite (toupper_space (ord " ") eq_refl). reflexivity.
  - change (py_upper [c]) with (toupper c ++ []). rewrite app_nil_r.
    reflexivity.
Qed.

(** X8 (est_palindrome): the test ignores case and the spaces U+0020: two
    words with the same upper-case form, or that differ only by such
    spaces, get the same answer. *)
Theorem est_palindrome_insensible :
  (forall w1 w2, py_upper w1 = py_upper w2 ->
     est_palindrome w1 = est_palindrome w2)
  /\ (forall w, est_palindrome (py_upper w) = est_palindrome w)
  /\ (forall w1 w2,
        py_replace (ord " ") [] w1 = py_replace (ord " ") [] w2 ->
        est_palindrome w1 = est_palindrome w2).
Proof.
  split; [|split].
  - intros w1 w2 E. unfold est_palindrome. rewrite E. reflexivity.
  - intros w. unfold est_palindrome. rewrite py_upper_idem. reflexivity.
  - intros w1 w2 E. unfold est_palindrome. cbv zeta.
    rewrite <- (py_upper_sans_espaces w1), <- (py_upper_sans_espaces w2), E.
    reflexivity.
Qed.

Lemma py_upper_rev w :
  Forall (fun c => exists k, toupper c = [k]) w ->
  py_upper (rev w) = rev (py_upper w).
Proof.
  induction 1 as [|c w [k Hk] _ IH]; [reflexivity|].
  cbn [rev]. rewrite py_upper_app, IH.
  change (py_upper (c :: w)) with (toupper c ++ py_upper w).
  change (py_upper [c]) with (toupper c ++ []).
  rewrite rev_app_distr, app_nil_r, Hk. reflexivity.
Qed.

(** X9 (est_palindrome): for a word whose characters have a one-character
    upper case, the word read backwards gets the same answer as the word,
    and the word followed by itself read backwards is a palindrome. *)
Theorem est_palindrome_miroir w :
  Forall (fun c => exists k, toupper c = [k]) w ->
  est_palindrome (rev w) = est_palindrome w
  /\ est_palindrome (w ++ rev w) = true.
Proof.
  intros Hw. unfold est_palindrome. cbv zeta. split.
  - rewrite (py_upper_rev w Hw), py_replace_rev.
    apply bool_decide_ext. rewrite rev_involutive. split; congruence.
  - apply bool_decide_eq_true.
    rewrite py_upper_app, (py_upper_rev w Hw), py_replace_app, py_replace_rev.
    rewrite rev_app_distr, rev_involutive. reflexivity.
Qed.

(** A letter of the table is a vowel, a consonant or one of the two signs
    Ъ and Ь, and only one of the three; another character is none. *)
Lemma classes_lettres c :
  (if decide (c ∈ utf8 "АЕЁИОУЫЭЮЯ") then 1 else 0)
  + (if decide (c ∈ utf8 "БВГДЖЗЙКЛМНПРСТФХЦЧШЩ") then 1 else 0)
  + (if decide (c = ord "Ъ" \/ c = ord "Ь") then 1 else 0)
  = if decide (primaire c) then 1 else 0.
Proof.
  assert (Forall (fun c =>
            (if decide (c ∈ utf8 "АЕЁИОУЫЭЮЯ") then 1 else 0)
            + (if decide (c ∈ utf8 "БВГДЖЗЙКЛМНПРСТФХЦЧШЩ") then 1 else 0)
            + (if decide (c = ord "Ъ" \/ c = ord "Ь") then 1 else 0)
            = 1) (1025 :: seqZ 1040 32)) as Hlettres.
  { apply (bool_decide_unpack _). vm_compute. reflexivity. }
  assert (Forall primaire (utf8 "АЕЁИОУЫЭЮЯ")) as Hv.
  { apply (bool_decide_unpack _). vm_compute. reflexivity. }
  assert (Forall primaire (utf8 "БВГДЖЗЙКЛМНПРСТФХЦЧШЩ")) as Hc.
  { apply (bool_decide_unpack _). vm_compute. reflexivity. }
  assert (primaire (ord "Ъ") /\ primaire (ord "Ь")) as [Hs1 Hs2].
  { split; apply (bool_decide_unpack _); vm_compute; reflexivity. }
  destruct (decide (primaire c)) as [Hp|Hp].
  - rewrite Forall_forall in Hlettres. apply Hlettres.
    pose proof (primaire_bornes c Hp) as [Hb| ->]; [right|left].
    apply elem_of_seqZ. lia.
  - rewrite Forall_forall in Hv, Hc.
    destruct (decide (c ∈ utf8 "АЕЁИОУЫЭЮЯ")) as [Hin|_];
      [destruct (Hp (Hv c Hin))|].
    destruct (decide (c ∈ utf8 "БВГДЖЗЙКЛМНПРСТФХЦЧШЩ")) as [Hin|_];
      [destruct (Hp (Hc c Hin))|].
    destruct (decide (c = ord "Ъ" \/ c = ord "Ь")) as [[->| ->]|_];
      [destruct (Hp Hs1)|destruct (Hp Hs2)|reflexivity].
Qed.

Lemma longueur_filtre {A} (P : A -> Prop) `{forall x, Decision (P x)} l :
  Z.of_nat (length (filter P l))
  = foldr (fun x t => (if decide (P x) then 1 else 0) + t) 0 l.
Proof.
  induction l as [|x l IH]; [reflexivity|].
  cbn [foldr]. rewrite <- IH.
  destruct (decide (P x)) as [Hx|Hx].
  - rewrite filter_cons_True by exact Hx. cbn [length]. lia.
  - rewrite filter_cons_False by exact Hx. lia.
Qed.

(** X10 (compter_voyelles_cyrilliques, compter_consonnes_cyrilliques): the
    vowels and the consonants of a word are all the letters of the table
    in its upper-case form but the signs Ъ and Ь, which are counted by
    neither function. *)
Theorem voyelles_consonnes w :
  compter_voyelles_cyrilliques w + compter_consonnes_cyrilliques w
  + Z.of_nat (length (filter (fun c => c = ord "Ъ" \/ c = ord "Ь")
                             (py_upper w)))
  = Z.of_nat (length (filter primaire (py_upper w))).
Proof.
  unfold compter_voyelles_cyrilliques, compter_consonnes_cyrilliques.
  cbv zeta. rewrite !py_sum_compte, !longueur_filtre.
  induction (py_upper w) as [|c s IH]; [reflexivity|].
  cbn [foldr]. rewrite <- IH, <- (classes_lettres c). lia.
Qed.

(** X11 (lettres_uniques): the result lists the characters of the upper-case
    word in increasing order of code point, each one once; it only
    depends on which characters occur. *)
Theorem lettres_uniques_spec :
  (forall w c, c ∈ lettres_uniques w <-> c ∈ py_upper w)
  /\ (forall w, StronglySorted Z.lt (lettres_uniques w))
  /\ (forall w1 w2, (forall c, c ∈ py_upper w1 <-> c ∈ py_upper w2) ->
        lettres_uniques w1 = lettres_uniques w2).
Proof.
  assert (forall w, lettres_uniques w
            = merge_sort Z.le (elements (list_to_set (py_upper w) : gset Z)))
    as Heq.
  { intros w. unfold lettres_uniques, py_sorted. cbv zeta.
    rewrite py_join_vide. apply concat_map_singleton. }
  split; [|split].
  - intros w c. rewrite Heq, merge_sort_Permutation, elem_of_elements.
    apply elem_of_list_to_set.
  - intros w. rewrite Heq.
    pose proof (StronglySorted_merge_sort Z.le
                  (elements (list_to_set (py_upper w) : gset Z))) as Hs.
    assert (NoDup (merge_sort Z.le
                     (elements (list_to_set (py_upper w) : gset Z)))) as Hn.
    { rewrite merge_sort_Permutation. apply NoDup_elements. }
    induction Hs as [|x l Hl IH Hx]; [constructor|].
    apply NoDup_cons in Hn as [Hx' Hn].
    constructor; [apply IH, Hn|].
    rewrite Forall_forall in Hx |- *. intros y Hy.
    specialize (Hx y Hy). assert (x <> y) by (intros ->; contradiction).
    lia.
  - intros w1 w2 E. rewrite !Heq. do 2 f_equal.
    apply set_eq. intros c. rewrite !elem_of_list_to_set. apply E.
Qed.

End TheorieTexte.

Lemma est_palindrome_miroir_temoin :
  est_palindrome (H := unicode_latin_cyrillique) (rev (utf8 "А роза упала"))
  = est_palindrome (H := unicode_latin_cyrillique) (utf8 "А роза упала")
  /\ est_palindrome (H := unicode_latin_cyrillique)
       (utf8 "А роза упала" ++ rev (utf8 "А роза упала")) = true.
Proof.
  apply (est_palindrome_miroir (H := unicode_latin_cyrillique)).
  apply Forall_forall. intros c _. exists (hd 0 (toupper_lc c)).
  change (toupper c) with (toupper_lc c). unfold toupper_lc.
  repeat match goal with
         | |- context [if ?b then _ else _] => destruct b
         end; reflexivity.
Defined.

(** ** Numbers in words *)

Lemma py_join_non_vide sep (l : list chaine) :
  l <> [] -> Forall (fun p => p <> []) l -> py_join sep l <> [].
Proof.
  intros Hl Hp. destruct l as [|x r]; [congruence|].
  apply Forall_cons in Hp as [Hx _]. cbn [py_join].
  destruct r; [exact Hx|]. destruct x; [congruence|discriminate].
Qed.

(** A chunk between 1 and 999 is put into words without an error. *)
Lemma convert_hundreds_chunk chunk :
  1 <= chunk <= 999 ->
  exists part, convert_hundreds chunk = Rendu part /\ part <> [].
Proof.
  intros Hc.
  assert (Forall (fun c => match convert_hundreds c with
                           | Rendu (_ :: _) => True
                           | _ => False
                           end) (seqZ 1 999)) as Hall.
  { apply Forall_forall. intros c Hin.
    assert (forallb (fun c => match convert_hundreds c with
                              | Rendu (_ :: _) => true
                              | _ => false
                              end) (seqZ 1 999) = true) as Hb
      by (vm_compute; reflexivity).
    rewrite forallb_forall in Hb. specialize (Hb c).
    destruct (convert_hundreds c) as [[|? ?]|];
      try exact I; (discriminate Hb; apply list_elem_of_In, Hin). }
  rewrite Forall_forall in Hall.
  specialize (Hall chunk ltac:(apply elem_of_seqZ; lia)).
  destruct (convert_hundreds chunk) as [[|x p]|]; try contradiction.
  eexists. split; [reflexivity|discriminate].
Qed.

Lemma thousands_index i :
  (1 <= i <= 3 -> exists m, py_index thousands i = Rendu m)
  /\ (4 <= i -> py_index thousands i = IndexError).
Proof.
  split.
  - intros Hi.
    assert (i = 1 \/ i = 2 \/ i = 3) as [->|[->| ->]] by lia;
      eexists; reflexivity.
  - intros Hi. unfold py_index. cbv zeta.
    destruct (Z.ltb_spec i 0); [lia|].
    change (Z.of_nat (length thousands)) with 4.
    destruct (Z.ltb_spec i 4); [lia|]. rewrite andb_false_r. reflexivity.
Qed.

Lemma budget_binaire n :
  0 <= n -> n < 2 ^ Z.of_nat (S (Z.to_nat (Z.log2 n))).
Proof.
  intros Hn. pose proof (Z.log2_nonneg n).
  rewrite Nat2Z.inj_succ, Z2Nat.id by lia.
  destruct (Z.eq_dec n 0) as [->|Hn0].
  - apply Z.pow_pos_nonneg; lia.
  - pose proof (Z.log2_spec n ltac:(lia)). lia.
Qed.

Lemma budget_moitie b n :
  0 <= n < 2 ^ Z.of_nat (S b) -> 0 <= n / 1000 < 2 ^ Z.of_nat b.
Proof.
  rewrite Nat2Z.inj_succ, Z.pow_succ_r by lia. intros Hn.
  assert (0 < 2 ^ Z.of_nat b) by (apply Z.pow_pos_nonneg; lia).
  split; [apply Z.div_pos; lia|].
  apply Z.div_lt_upper_bound; lia.
Qed.

(** Below 1000 ** (4 - chunk_count) the loop ends without an error, on a
    list of parts that is not empty when there was something to say. *)
Lemma boucle_mots_rendu b n chunk_count parts :
  0 <= n < 2 ^ Z.of_nat b -> 0 <= chunk_count ->
  n < 1000 ^ Z.max 0 (4 - chunk_count) ->
  Forall (fun p => p <> []) parts ->
  exists n' c' parts',
    tant_que_index (S b)
      (fun '(n, chunk_count, parts) => 0 <? n)
      (fun '(n, chunk_count, parts) =>
         let chunk := n mod 1000 in
         parts ← (if negb (chunk =? 0) then
                    part ← convert_hundreds chunk;
                    part ← (if 0 <? chunk_count
                            then millier ← py_index thousands chunk_count;
                                 Rendu (part ++ utf8 " " ++ millier)
                            else Rendu part);
                    Rendu (parts ++ [part])
                  else Rendu parts);
         Rendu (n / 1000, chunk_count + 1, parts))
      (n, chunk_count, parts)
    = Some (Rendu (n', c', parts'))
    /\ Forall (fun p => p <> []) parts'
    /\ (0 < n \/ parts <> [] -> parts' <> []).
Proof.
  revert n chunk_count parts.
  induction b as [|b IH]; intros n chunk_count parts Hn Hc Hlim Hparts.
  - change (2 ^ Z.of_nat 0) with 1 in Hn. assert (n = 0) as -> by lia.
    exists 0, chunk_count, parts. repeat split; [exact Hparts|].
    intros [?|?]; [lia|assumption].
  - cbn [tant_que_index]. destruct (Z.ltb_spec 0 n) as [Hpos|Hzero].
    2:{ exists n, chunk_count, parts. repeat split; [exact Hparts|].
        intros [?|?]; [lia|assumption]. }
    cbv zeta.
    assert (chunk_count = 0 \/ chunk_count = 1 \/ chunk_count = 2
            \/ chunk_count = 3) as Hcas.
    { destruct (Z.lt_ge_cases chunk_count 4); [lia|].
      rewrite Z.max_l in Hlim by lia. change (1000 ^ 0) with 1 in Hlim. lia. }
    assert (n / 1000 < 1000 ^ Z.max 0 (4 - (chunk_count + 1))) as Hlim'.
    { destruct Hcas as [->|[->|[->| ->]]];
        match goal with
        | |- _ < ?p => let v := eval vm_compute in p in change p with v
        end;
        match type of Hlim with
        | _ < ?p => let v := eval vm_compute in p in change p with v in Hlim
        end; apply Z.div_lt_upper_bound; lia. }
    pose proof (budget_moitie b n Hn) as Hn'.
    destruct (Z.eqb_spec (n mod 1000) 0) as [Hchunk|Hchunk]; cbn [negb].
    + cbn [mbind issue_bind].
      destruct (IH (n / 1000) (chunk_count + 1) parts Hn' ltac:(lia)
                   Hlim' Hparts) as (n' & c' & parts' & E & Hp' & Hne).
      exists n', c', parts'. split; [exact E|]. split; [exact Hp'|].
      intros _. apply Hne. left.
      assert (0 <= n / 1000) by lia.
      destruct (Z.eq_dec (n / 1000) 0) as [E0|]; [|lia].
      pose proof (Z.div_mod n 1000 ltac:(lia)). lia.
    + destruct (convert_hundreds_chunk (n mod 1000)) as (part & -> & Hpart).
      { pose proof (Z.mod_pos_bound n 1000 ltac:(lia)). lia. }
      cbn [mbind issue_bind].
      assert (exists part',
                (if 0 <? chunk_count
                 then millier ← py_index thousands chunk_count;
                      Rendu (part ++ utf8 " " ++ millier)
                 else Rendu part) = Rendu part' /\ part' <> [])
        as (part' & -> & Hpart').
      { destruct (Z.ltb_spec 0 chunk_count) as [Hcc|_]; [|eauto].
        destruct (proj1 (thousands_index chunk_count) ltac:(lia)) as [m ->].
        cbn [mbind issue_bind]. eexists. split; [reflexivity|].
        destruct part; [congruence|discriminate]. }
      cbn [mbind issue_bind].
      destruct (IH (n / 1000) (chunk_count + 1) (parts ++ [part']) Hn'
                   ltac:(lia) Hlim') as (n' & c' & parts' & E & Hp' & Hne).
      { apply Forall_app. split; [exact Hparts|]. repeat constructor.
        exact Hpart'. }
      exists n', c', parts'. split; [exact E|]. split; [exact Hp'|].
      intros _. apply Hne. right. destruct parts; discriminate.
Qed.

(** From 1000 ** (4 - chunk_count) on, the loop ends on the [IndexError] of
    [thousands[chunk_count]]. *)
Lemma boucle_mots_erreur b n chunk_count parts :
  0 < n < 2 ^ Z.of_nat b -> 0 <= chunk_count ->
  1000 ^ Z.max 0 (4 - chunk_count) <= n ->
  tant_que_index (S b)
    (fun '(n, chunk_count, parts) => 0 <? n)
    (fun '(n, chunk_count, parts) =>
       let chunk := n mod 1000 in
       parts ← (if negb (chunk =? 0) then
                  part ← convert_hundreds chunk;
                  part ← (if 0 <? chunk_count
                          then millier ← py_index thousands chunk_count;
                               Rendu (part ++ utf8 " " ++ millier)
                          else Rendu part);
                  Rendu (parts ++ [part])
                else Rendu parts);
       Rendu (n / 1000, chunk_count + 1, parts))
    (n, chunk_count, parts)
  = Some IndexError.
Proof.
  revert n chunk_count parts.
  induction b as [|b IH]; intros n chunk_count parts Hn Hc Hlim.
  - change (2 ^ Z.of_nat 0) with 1 in Hn. lia.
  - cbn [tant_que_index]. destruct (Z.ltb_spec 0 n) as [_|]; [|lia].
    cbv zeta.
    pose proof (budget_moitie b n ltac:(lia)) as Hn'.
    pose proof (Z.div_mod n 1000 ltac:(lia)) as Hdm.
    pose proof (Z.mod_pos_bound n 1000 ltac:(lia)) as Hmod.
    destruct (Z.lt_ge_cases chunk_count 4) as [Hpetit|Hgrand].
    + assert (chunk_count = 0 \/ chunk_count = 1 \/ chunk_count = 2
              \/ chunk_count = 3) as Hcas by lia.
      assert (1000 ^ Z.max 0 (4 - (chunk_count + 1)) <= n / 1000
              /\ 0 < n / 1000) as [Hlim' Hpos'].
      { destruct Hcas as [->|[->|[->| ->]]];
          match goal with
          | |- ?p <= _ /\ _ =>
            let v := eval vm_compute in p in change p with v
          end;
          match type of Hlim with
          | ?p <= _ => let v := eval vm_compute in p in change p with v in Hlim
          end; lia. }
      assert (exists parts',
                (if negb (n mod 1000 =? 0) then
                   part ← convert_hundreds (n mod 1000);
                   part ← (if 0 <? chunk_count
                           then millier ← py_index thousands chunk_count;
                                Rendu (part ++ utf8 " " ++ millier)
                           else Rendu part);
                   Rendu (parts ++ [part])
                 else Rendu parts) = Rendu parts') as [parts' ->].
      { destruct (Z.eqb_spec (n mod 1000) 0) as [|Hchunk]; cbn [negb];
          [eauto|].
        destruct (convert_hundreds_chunk (n mod 1000)) as (part & -> & _);
          [lia|].
        cbn [mbind issue_bind].
        destruct (Z.ltb_spec 0 chunk_count) as [Hcc|_]; [|eauto].
        destruct (proj1 (thousands_index chunk_count) ltac:(lia)) as [m ->].
        cbn [mbind issue_bind]. eauto. }
      cbn [mbind issue_bind]. apply IH; lia.
    + destruct (Z.eqb_spec (n mod 1000) 0) as [Hchunk|Hchunk]; cbn [negb].
      * cbn [mbind issue_bind]. apply IH; [lia|lia|].
        rewrite Z.max_l by lia. change (1000 ^ 0) with 1. lia.
      * destruct (convert_hundreds_chunk (n mod 1000)) as (part & -> & _);
          [lia|].
        cbn [mbind issue_bind].
        destruct (Z.ltb_spec 0 chunk_count) as [_|]; [|lia].
        rewrite (proj2 (thousands_index chunk_count) Hgrand). reflexivity.
Qed.

Lemma number_to_english_boucle_spec n :
  0 < n ->
  (n < 10 ^ 12 ->
     exists mots, number_to_english_boucle n = Some (Rendu mots)
                  /\ mots <> [])
  /\ (10 ^ 12 <= n -> number_to_english_boucle n = Some IndexError).
Proof.
  intros Hn. unfold number_to_english_boucle.
  pose proof (budget_binaire n ltac:(lia)) as Hb. split; intros Hlim.
  - destruct (boucle_mots_rendu (S (Z.to_nat (Z.log2 n))) n 0 [])
      as (n' & c' & parts' & E & Hp & Hne);
      [lia|lia|exact Hlim|constructor|].
    cbv zeta in E |- *. rewrite E.
    cbn [mbind option_bind issue_bind]. eexists. split; [reflexivity|].
    apply py_join_non_vide.
    + intros Er. apply (f_equal (@rev chaine)) in Er.
      rewrite rev_involutive in Er. apply Hne; [left; exact Hn|exact Er].
    + apply Forall_rev, Hp.
  - pose proof (boucle_mots_erreur (S (Z.to_nat (Z.log2 n))) n 0 []
                  ltac:(lia) ltac:(lia) Hlim) as E.
    cbv zeta in E |- *. rewrite E. reflexivity.
Qed.

(** X12 (number_to_english): the function puts into words the numbers of
    absolute value below 10 ** 12, and raises [IndexError] on every other
    one: [thousands] stops at the billions. *)
Theorem number_to_english_domaine n :
  (Z.abs n < 10 ^ 12 ->
     exists mots, number_to_english n = Some (Rendu mots) /\ mots <> [])
  /\ (10 ^ 12 <= Z.abs n -> number_to_english n = Some IndexError).
Proof.
  unfold number_to_english.
  destruct (Z.eqb_spec n 0) as [->|Hn0].
  - split; [|intros Hn; change (Z.abs 0) with 0 in Hn; lia].
    intros _. eexists. split; [reflexivity|]. vm_compute. discriminate.
  - destruct (Z.ltb_spec n 0) as [Hneg|Hpos].
    + destruct (number_to_english_boucle_spec (- n) ltac:(lia))
        as [Hok Herr].
      rewrite Z.abs_neq by lia. split; intros Hlim.
      * destruct (Hok Hlim) as (mots & -> & _).
        cbn [mbind option_bind issue_bind]. eexists.
        split; [reflexivity|]. vm_compute. discriminate.
      * rewrite (Herr Hlim). reflexivity.
    + destruct (number_to_english_boucle_spec n ltac:(lia)) as [Hok Herr].
      rewrite Z.abs_eq by lia. split; assumption.
Qed.

(** ** Digits *)

Lemma valeur_base_app base a b :
  valeur_base base (a ++ b)
  = fold_left (fun acc c => base * acc + valeur_chiffre c) b
      (valeur_base base a).
Proof. unfold valeur_base. apply fold_left_app. Qed.

Lemma valeur_chiffre_chiffre d : 0 <= d < 16 -> valeur_chiffre (chiffre d) = d.
Proof.
  intros Hd. unfold valeur_chiffre, chiffre.
  destruct (Z.ltb_spec d 10).
  - destruct (Z.ltb_spec (48 + d) 58); lia.
  - destruct (Z.ltb_spec (87 + d) 58); [lia|].
    destruct (Z.ltb_spec (87 + d) 91); lia.
Qed.

(** Positional notation: the digits denote the number, there are as many
    as the number needs and no more. *)
Lemma chiffres_aux_base base fuel n acc :
  2 <= base <= 16 -> (0 < fuel)%nat -> 0 <= n < 2 ^ Z.of_nat fuel ->
  exists ds,
    chiffres_aux fuel base n acc = ds ++ acc
    /\ ds <> []
    /\ Forall (fun c => exists d, c = chiffre d /\ 0 <= d < base) ds
    /\ valeur_base base ds = n
    /\ n < base ^ Z.of_nat (length ds)
    /\ (0 < n -> base ^ (Z.of_nat (length ds) - 1) <= n).
Proof.
  intros Hb. revert n acc.
  induction fuel as [|fuel IH]; intros n acc Hf Hn; [lia|].
  cbn [chiffres_aux].
  pose proof (Z.mod_pos_bound n base ltac:(lia)) as Hmod.
  pose proof (Z.div_mod n base ltac:(lia)) as Hdm.
  destruct (Z.ltb_spec n base) as [Hlt|Hge].
  - exists [chiffre (n mod base)]. split; [reflexivity|].
    split; [discriminate|].
    split; [repeat constructor; exists (n mod base); split;
            [reflexivity|lia]|].
    rewrite Z.mod_small by lia.
    split; [unfold valeur_base; cbn [fold_left];
            rewrite valeur_chiffre_chiffre; lia|].
    cbn [length]. change (Z.of_nat 1) with 1.
    rewrite Z.pow_1_r, Z.sub_diag, Z.pow_0_r. lia.
  - destruct (IH (n / base) (chiffre (n mod base) :: acc))
      as (ds & E & Hne & Hds & Hv & Hsup & Hinf).
    { destruct fuel; [|lia]. change (2 ^ Z.of_nat 1) with 2 in Hn. lia. }
    { rewrite Nat2Z.inj_succ, Z.pow_succ_r in Hn by lia.
      split; [apply Z.div_pos; lia|].
      apply Z.div_lt_upper_bound; [lia|]. nia. }
    assert (0 < n / base) as Hq.
    { apply Z.div_str_pos. lia. }
    specialize (Hinf Hq).
    exists (ds ++ [chiffre (n mod base)]).
    rewrite E, <- app_assoc. split; [reflexivity|].
    split; [intros Habs; apply app_eq_nil in Habs as [_ Habs]; discriminate|].
    split.
    { apply Forall_app. split; [exact Hds|]. repeat constructor.
      exists (n mod base). split; [reflexivity|lia]. }
    split.
    { rewrite valeur_base_app, Hv. cbn [fold_left].
      rewrite valeur_chiffre_chiffre by lia. lia. }
    rewrite length_app, Nat2Z.inj_add. cbn [length].
    change (Z.of_nat 1) with 1.
    assert (0 < Z.of_nat (length ds)) as Hlen.
    { destruct ds; [congruence|]. cbn [length]. lia. }
    replace (Z.of_nat (length ds) + 1 - 1)
      with (Z.succ (Z.of_nat (length ds) - 1)) by lia.
    replace (Z.of_nat (length ds) + 1) with (Z.succ (Z.of_nat (length ds)))
      by lia.
    rewrite !Z.pow_succ_r by lia.
    split; [|intros _]; nia.
Qed.

Lemma chiffres_base base n :
  2 <= base <= 16 -> 0 <= n ->
  chiffres base n <> []
  /\ Forall (fun c => exists d, c = chiffre d /\ 0 <= d < base)
            (chiffres base n)
  /\ valeur_base base (chiffres base n) = n
  /\ n < base ^ Z.of_nat (length (chiffres base n))
  /\ (0 < n -> base ^ (Z.of_nat (length (chiffres base n)) - 1) <= n).
Proof.
  intros Hb Hn. unfold chiffres.
  destruct (chiffres_aux_base base (S (Z.to_nat (Z.log2 n))) n [] Hb)
    as (ds & E & H1 & H2 & H3 & H4 & H5).
  - lia.
  - split; [exact Hn|]. apply budget_binaire, Hn.
  - rewrite E, app_nil_r. auto.
Qed.

(** Upper-casing the digits of [hex] keeps their values. *)
Lemma valeur_base_majuscules base ds :
  Forall (fun c => exists d, c = chiffre d /\ 0 <= d < 16) ds ->
  valeur_base base
    (map (fun c => if (97 <=? c) && (c <=? 122) then c - 32 else c) ds)
  = valeur_base base ds
  /\ Forall (fun c => 48 <= c <= 57 \/ 65 <= c <= 70)
       (map (fun c => if (97 <=? c) && (c <=? 122) then c - 32 else c) ds).
Proof.
  intros Hds. unfold valeur_base. generalize 0 as a.
  induction Hds as [|c ds (d & -> & Hd) _ IH]; intros a.
  - split; [reflexivity|constructor].
  - cbn [map fold_left].
    assert (valeur_chiffre
              (if (97 <=? chiffre d) && (chiffre d <=? 122)
               then chiffre d - 32 else chiffre d)
            = valeur_chiffre (chiffre d)
            /\ (48 <= (if (97 <=? chiffre d) && (chiffre d <=? 122)
                       then chiffre d - 32 else chiffre d) <= 57
                \/ 65 <= (if (97 <=? chiffre d) && (chiffre d <=? 122)
                          then chiffre d - 32 else chiffre d) <= 70))
      as [-> Hb].
    { unfold chiffre, valeur_chiffre. bornes. }
    destruct (IH (base * a + valeur_chiffre (chiffre d))) as [-> Hf].
    split; [reflexivity|]. constructor; assumption.
Qed.

Lemma chiffres_ascii base n :
  2 <= base <= 16 -> 0 <= n ->
  Forall (fun c => 0 <= c < 128) (chiffres base n).
Proof.
  intros Hb Hn. destruct (chiffres_base base n Hb Hn) as (_ & Hds & _).
  eapply Forall_impl; [exact Hds|]. intros c (d & -> & Hd).
  unfold chiffre. destruct (d <? 10); lia.
Qed.

Section TheorieChiffres.
Context `{Unicode}.

Lemma hexadecimal_valeur n :
  0 <= n ->
  valeur_base 16 (py_upper (drop 2 (py_hex n))) = n
  /\ Forall (fun c => 48 <= c <= 57 \/ 65 <= c <= 70)
       (py_upper (drop 2 (py_hex n))).
Proof.
  intros Hn. unfold py_hex. destruct (Z.ltb_spec n 0) as [|_]; [lia|].
  change (drop 2 (utf8 "0x" ++ chiffres 16 n)) with (chiffres 16 n).
  rewrite py_upper_ascii by (apply chiffres_ascii; lia).
  destruct (chiffres_base 16 n ltac:(lia) Hn) as (_ & Hds & Hv & _).
  destruct (valeur_base_majuscules 16 _ Hds) as [-> Hf]. auto.
Qed.

Lemma binary_valeur n :
  0 <= n ->
  valeur_base 2 (drop 2 (py_bin n)) = n
  /\ Forall (fun c => c = 48 \/ c = 49) (drop 2 (py_bin n)).
Proof.
  intros Hn. unfold py_bin. destruct (Z.ltb_spec n 0) as [|_]; [lia|].
  change (drop 2 (utf8 "0b" ++ chiffres 2 n)) with (chiffres 2 n).
  destruct (chiffres_base 2 n ltac:(lia) Hn) as (_ & Hds & Hv & _).
  split; [exact Hv|].
  eapply Forall_impl; [exact Hds|]. intros c (d & -> & Hd).
  unfold chiffre. destruct (Z.ltb_spec d 10); lia.
Qed.

(** X13 (analyser_nombre, both files): for a number that is not negative,
    [hex(nombre)[2:].upper()] is made of the digits 0 .. 9 and A .. F and
    denotes the number in base 16, and [bin(nombre)[2:]] is made of 0 and
    1 and denotes it in base 2; these are the entries [hexadecimal] and
    [binary] of the report that the analysis returns, when it returns
    one. *)
Theorem analyse_bases n :
  0 <= n ->
  (valeur_base 16 (py_upper (drop 2 (py_hex n))) = n
   /\ Forall (fun c => 48 <= c <= 57 \/ 65 <= c <= 70)
        (py_upper (drop 2 (py_hex n)))
   /\ valeur_base 2 (drop 2 (py_bin n)) = n
   /\ Forall (fun c => c = 48 \/ c = 49) (drop 2 (py_bin n)))
  /\ (forall r,
        analyser_nombre n = Some r \/ Truth.analyser_nombre n = Some r ->
        decimal_ r = n
        /\ hexadecimal r = py_upper (drop 2 (py_hex n))
        /\ binary r = drop 2 (py_bin n)).
Proof.
  intros Hn.
  destruct (hexadecimal_valeur n Hn) as [Hh1 Hh2].
  destruct (binary_valeur n Hn) as [Hb1 Hb2].
  split; [auto|].
  intros r. unfold analyser_nombre, Truth.analyser_nombre.
  destruct (factorize n) as [f|]; cbn [mbind option_bind];
    [|intros [|]; discriminate].
  destruct (is_prime n) as [premier|e];
    cbn [mbind option_bind sans_exception]; [|intros [|]; discriminate].
  intros [[= <-]|[= <-]]; cbn [decimal_ hexadecimal binary]; auto.
Qed.

Lemma pour_digit_sum ds total :
  Forall (fun d => 48 <= d <= 57) ds ->
  pour ds (fun (total : Z) (d : Z) => n ← py_int [d]; Retour (total + n))
    total
  = Retour (total + foldr (fun d t => (d - 48) + t) 0 ds).
Proof.
  intros Hds. revert total.
  induction Hds as [|d ds Hd _ IH]; intros total; cbn [pour foldr].
  - f_equal. lia.
  - rewrite (py_int_ascii [d]) by (try discriminate; repeat constructor; lia).
    cbn [mbind resultat_bind]. rewrite IH. f_equal.
    unfold valeur_decimale. cbn [fold_left]. lia.
Qed.

Lemma somme_chiffres_mod9 ds a s :
  a mod 9 = s mod 9 ->
  (fold_left (fun acc d => 10 * acc + (d - 48)) ds a) mod 9
  = (s + foldr (fun d t => (d - 48) + t) 0 ds) mod 9.
Proof.
  revert a s. induction ds as [|d ds IH]; intros a s Has;
    cbn [fold_left foldr].
  - rewrite Z.add_0_r. exact Has.
  - rewrite (IH (10 * a + (d - 48)) (s + (d - 48))).
    + f_equal. lia.
    + replace (10 * a + (d - 48)) with (a + (d - 48) + a * 9) by lia.
      rewrite Z.mod_add by lia.
      rewrite Z.add_mod, Has, <- Z.add_mod by lia. reflexivity.
Qed.

Lemma somme_chiffres_bornes ds :
  Forall (fun d => 48 <= d <= 57) ds ->
  0 <= foldr (fun d t => (d - 48) + t) 0 ds <= 9 * Z.of_nat (length ds).
Proof.
  induction 1 as [|d ds Hd _ IH]; cbn [foldr length]; [lia|].
  rewrite Nat2Z.inj_succ. lia.
Qed.

(** X14 (analyser_nombre, entries digit_sum and digit_count): for a number
    that is not negative and has at most 4300 digits, which [str] writes
    whatever the limit of the interpreter on the length of numerals, the
    sum of the digits is computed without an error, it is the number
    modulo 9 and at most 9 times the number of digits; the number of digits
    is the least [k >= 1] with [nombre < 10 ** k]. *)
Theorem chiffres_decimaux n :
  0 <= n < 10 ^ 4300 ->
  (exists s, digit_sum n = Retour s
     /\ s mod 9 = n mod 9 /\ 0 <= s <= 9 * digit_count n)
  /\ 1 <= digit_count n <= 4300
  /\ n < 10 ^ digit_count n
  /\ (0 < n -> 10 ^ (digit_count n - 1) <= n).
Proof.
  intros [Hn Hmax]. remember (10 ^ 4300) as limite eqn:Elimite.
  destruct (py_str_decimal n Hn) as (Hne & Hd & Hv).
  unfold digit_sum, digit_count. split.
  - rewrite (pour_digit_sum _ 0 Hd). eexists. split; [reflexivity|].
    rewrite Z.add_0_l. split.
    + rewrite <- Hv at 2. unfold valeur_decimale.
      rewrite (somme_chiffres_mod9 (py_str n) 0 0 eq_refl). reflexivity.
    + apply somme_chiffres_bornes, Hd.
  - assert (py_str n = chiffres 10 n) as ->.
    { unfold py_str. destruct (Z.ltb_spec n 0); [lia|reflexivity]. }
    destruct (chiffres_base 10 n ltac:(lia) Hn) as (H1 & _ & _ & H4 & H5).
    assert (1 <= Z.of_nat (length (chiffres 10 n))) as Hlen
      by (destruct (chiffres 10 n); [congruence|cbn [length]; lia]).
    split; [|split; assumption].
    split; [exact Hlen|].
    destruct (Z.eq_dec n 0) as [->|Hn0]; [vm_compute; discriminate|].
    specialize (H5 ltac:(lia)).
    destruct (Z.le_gt_cases (Z.of_nat (length (chiffres 10 n))) 4300)
      as [|Hgt]; [assumption|].
    assert (limite <= 10 ^ (Z.of_nat (length (chiffres 10 n)) - 1))
      by (rewrite Elimite; apply Z.pow_le_mono_r; lia).
    lia.
Qed.

(** X15 (analyser_nombre, entry digit_sum): on a negative number the sum of
    the digits raises [ValueError], as [int('-')] does. *)
Theorem digit_sum_negatif n :
  decimal (ord "-") = None ->
  n < 0 -> digit_sum n = Leve ValueError.
Proof.
  intros Hmoins Hn. unfold digit_sum, py_str.
  destruct (Z.ltb_spec n 0) as [_|]; [|lia].
  cbn [pour]. unfold py_int. cbn [fold_left mbind resultat_bind].
  rewrite Hmoins. reflexivity.
Qed.

End TheorieChiffres.

Lemma analyse_bases_temoin :
  exists r, analyser_nombre (H := unicode_latin_cyrillique) 74 = Some r
    /\ decimal_ r = 74
    /\ valeur_base 16 (hexadecimal r) = 74
    /\ valeur_base 2 (binary r) = 74.
Proof.
  destruct (analyser_nombre (H := unicode_latin_cyrillique) 74) as [r|] eqn:E;
    [|vm_compute in E; discriminate].
  exists r. split; [reflexivity|].
  destruct (analyse_bases (H := unicode_latin_cyrillique) 74 ltac:(lia))
    as [(H16 & _ & H2 & _) Hr].
  destruct (Hr r (or_introl E)) as (-> & -> & ->). auto.
Defined.

Lemma chiffres_decimaux_temoin :
  (exists s, digit_sum (H := unicode_latin_cyrillique) 74 = Retour s
     /\ s mod 9 = 74 mod 9
     /\ 0 <= s <= 9 * digit_count 74)
  /\ 1 <= digit_count 74 <= 4300
  /\ 74 < 10 ^ digit_count 74
  /\ (0 < 74 -> 10 ^ (digit_count 74 - 1) <= 74).
Proof.
  apply (chiffres_decimaux (H := unicode_latin_cyrillique) 74).
  split; [lia|]. apply Z.ltb_lt. vm_compute. reflexivity.
Defined.

Lemma digit_sum_negatif_temoin :
  digit_sum (H := unicode_latin_cyrillique) (-74) = Leve ValueError.
Proof.
  apply (digit_sum_negatif (H := unicode_latin_cyrillique) (-74)).
  - reflexivity.
  - lia.
Defined.

(** ** IPv4 *)

Lemma map_py_str_injective l1 l2 :
  Forall (fun b => 0 <= b) l1 -> Forall (fun b => 0 <= b) l2 ->
  map py_str l1 = map py_str l2 -> l1 = l2.
Proof.
  intros H1. revert l2.
  induction H1 as [|a l1 Ha _ IH]; intros l2 H2 E;
    destruct H2 as [|b l2 Hb H2]; try discriminate; [reflexivity|].
  cbn [map] in E. injection E as Eab E.
  f_equal; [|apply IH; assumption].
  destruct (py_str_decimal a Ha) as (_ & _ & <-).
  destruct (py_str_decimal b Hb) as (_ & _ & <-).
  rewrite Eab. reflexivity.
Qed.

(** X16 (number_to_ipv4): two different numbers between 0 and 4294967295
    have different addresses, and the sentinel is returned outside this
    range only. *)
Theorem ipv4_injective :
  (forall n1 n2,
     0 <= n1 <= 4294967295 -> 0 <= n2 <= 4294967295 ->
     number_to_ipv4 n1 = number_to_ipv4 n2 -> n1 = n2)
  /\ (forall n, number_to_ipv4 n = IPV4_INVALIDE
                <-> ~ 0 <= n <= 4294967295).
Proof.
  assert (forall n, 0 <= n <= 4294967295 ->
            Forall (fun t => ord "." ∉ t)
              (map py_str (octets_gros_boutiste n))) as Hpoint.
  { intros n Hn. destruct (octets_gros_boutiste_spec n Hn) as [Ho _].
    apply Forall_map. eapply Forall_impl; [exact Ho|].
    intros b Hb. cbv beta in Hb |- *. apply py_str_sans_point. lia. }
  split.
  - intros n1 n2 H1 H2 E.
    rewrite !number_to_ipv4_valide in E by assumption.
    apply (f_equal (py_split (ord "."))) in E.
    change (utf8 ".") with [ord "."] in E.
    rewrite !py_split_join in E by (try discriminate; auto).
    destruct (octets_gros_boutiste_spec n1 H1) as [Ho1 <-].
    destruct (octets_gros_boutiste_spec n2 H2) as [Ho2 <-].
    f_equal. apply map_py_str_injective; [| |exact E].
    + eapply Forall_impl; [exact Ho1|]. intros; cbv beta in *; lia.
    + eapply Forall_impl; [exact Ho2|]. intros; cbv beta in *; lia.
  - intros n. split.
    + intros E Hn. rewrite number_to_ipv4_valide in E by exact Hn.
      unfold octets_gros_boutiste in E. cbn [map py_join] in E.
      destruct (py_str_decimal (n / 2 ^ 24 mod 256)) as (Hne & Hd & _).
      { apply Z.mod_pos_bound. lia. }
      destruct (py_str (n / 2 ^ 24 mod 256)) as [|c r]; [congruence|].
      apply Forall_cons in Hd as [Hc _].
      apply (f_equal (hd 0)) in E. cbn [app hd] in E.
      vm_compute in E. lia.
    + intros Hn. unfold number_to_ipv4.
      destruct (Z.leb_spec 0 n); [|reflexivity].
      destruct (Z.leb_spec n 0xFFFFFFFF); [|reflexivity]. lia.
Qed.

(** ** Colours *)

Lemma valeur_base_zeros base k s :
  valeur_base base (replicate k (ord "0") ++ s) = valeur_base base s.
Proof.
  induction k as [|k IH]; [reflexivity|].
  cbn [replicate app]. unfold valeur_base in *. cbn [fold_left].
  change (valeur_chiffre (ord "0")) with 0.
  rewrite Z.mul_0_r, Z.add_0_l. exact IH.
Qed.

Lemma valeur_chiffre_hexa x :
  48 <= x <= 57 \/ 65 <= x <= 70 -> 0 <= valeur_chiffre x < 16.
Proof.
  intros Hx. unfold valeur_chiffre.
  destruct (Z.ltb_spec x 58); [lia|]. destruct (Z.ltb_spec x 91); lia.
Qed.

(** The first digits of a numeral are the quotient by a power of the base,
    the last ones the remainder. *)
Lemma valeur_base_scinde base p q :
  2 <= base ->
  Forall (fun c => 0 <= valeur_chiffre c < base) q ->
  valeur_base base (p ++ q)
  = valeur_base base p * base ^ Z.of_nat (length q) + valeur_base base q
  /\ 0 <= valeur_base base q < base ^ Z.of_nat (length q).
Proof.
  intros Hb Hq. rewrite valeur_base_app.
  assert (forall a,
            fold_left (fun acc c => base * acc + valeur_chiffre c) q a
            = a * base ^ Z.of_nat (length q) + valeur_base base q
            /\ 0 <= valeur_base base q < base ^ Z.of_nat (length q)) as Hgen.
  { unfold valeur_base. induction Hq as [|c q Hc _ IH]; intros a.
    - cbn [fold_left length]. change (Z.of_nat 0) with 0.
      rewrite Z.pow_0_r. lia.
    - cbn [fold_left length]. rewrite Nat2Z.inj_succ, Z.pow_succ_r by lia.
      destruct (IH (base * a + valeur_chiffre c)) as [E1 _].
      destruct (IH (base * 0 + valeur_chiffre c)) as [E2 Hr].
      rewrite E1, E2. split; [ring|].
      assert (0 < base ^ Z.of_nat (length q))
        by (apply Z.pow_pos_nonneg; lia).
      nia. }
  apply Hgen.
Qed.

Section TheorieCouleur.
Context `{Unicode} `{Base16}.

Lemma int_16_paire x y :
  48 <= x <= 57 \/ 65 <= x <= 70 -> 48 <= y <= 57 \/ 65 <= y <= 70 ->
  int_16 [x; y] = Retour (16 * valeur_chiffre x + valeur_chiffre y).
Proof.
  intros Hx Hy. rewrite int_16_chiffres.
  - unfold valeur_base. cbn [fold_left]. reflexivity.
  - discriminate.
  - apply List.Forall_cons; [lia|]. apply List.Forall_cons; [lia|].
    apply List.Forall_nil.
Qed.

(** X17 (hex_to_rgb, analyser_nombre): for a number between 0 and
    16777215 the entry [rgb] is made of the three bytes of the number,
    the most significant first. *)
Theorem rgb_octets n :
  0 <= n < 2 ^ 24 ->
  hex_to_rgb (py_upper (drop 2 (py_hex n)))
  = Retour (n / 65536, n / 256 mod 256, n mod 256).
Proof.
  intros Hn. unfold py_hex. destruct (Z.ltb_spec n 0) as [|_]; [lia|].
  change (drop 2 (utf8 "0x" ++ chiffres 16 n)) with (chiffres 16 n).
  rewrite py_upper_ascii by (apply chiffres_ascii; lia).
  destruct (chiffres_base 16 n ltac:(lia) ltac:(lia))
    as (Hne & Hds & Hv & Hsup & Hinf).
  destruct (valeur_base_majuscules 16 _ Hds) as [Hv' Hf].
  rewrite Hv in Hv'.
  set (hs := map (fun c => if (97 <=? c) && (c <=? 122) then c - 32 else c)
                 (chiffres 16 n)) in *.
  assert (1 <= Z.of_nat (length hs) <= 6) as Hlen.
  { unfold hs. rewrite length_map. split.
    - destruct (chiffres 16 n); [congruence|]. cbn [length]. lia.
    - destruct (Z.eq_dec n 0) as [->|Hn0]; [vm_compute; discriminate|].
      specialize (Hinf ltac:(lia)).
      destruct (Z.le_gt_cases (Z.of_nat (length (chiffres 16 n))) 6)
        as [|Hgt]; [assumption|].
      assert (16 ^ 6 <= 16 ^ (Z.of_nat (length (chiffres 16 n)) - 1))
        by (apply Z.pow_le_mono_r; lia).
      change (16 ^ 6) with 16777216 in *. change (2 ^ 24) with 16777216 in *.
      lia. }
  assert (exists a b c d e f,
            py_zfill 6 hs = [a; b; c; d; e; f]
            /\ Forall (fun c => 48 <= c <= 57 \/ 65 <= c <= 70)
                      [a; b; c; d; e; f]
            /\ valeur_base 16 [a; b; c; d; e; f] = n)
    as (a & b & c & d & e & f & Ez & Hz & Hvz).
  { assert (py_zfill 6 hs
            = replicate (Z.to_nat (6 - Z.of_nat (length hs))) (ord "0") ++ hs)
      as E.
    { unfold py_zfill. cbv zeta. destruct hs as [|x r] eqn:Ehs;
        [rewrite app_nil_r; reflexivity|].
      apply Forall_cons in Hf as [Hx _].
      change (ord "+") with 43. change (ord "-") with 45.
      destruct (Z.eqb_spec x 43); [lia|].
      destruct (Z.eqb_spec x 45); [lia|]. reflexivity. }
    assert (length (py_zfill 6 hs) = 6%nat) as Hl.
    { rewrite E, length_app, length_replicate. lia. }
    assert (Forall (fun c => 48 <= c <= 57 \/ 65 <= c <= 70) (py_zfill 6 hs))
      as Hfz.
    { rewrite E. apply Forall_app. split; [|exact Hf].
      apply Forall_replicate. left. vm_compute. split; discriminate. }
    assert (valeur_base 16 (py_zfill 6 hs) = n) as Hvz
      by (rewrite E, valeur_base_zeros; exact Hv').
    destruct (py_zfill 6 hs) as [|a [|b [|c [|d [|e [|f [|g r]]]]]]];
      try discriminate Hl.
    exists a, b, c, d, e, f. auto. }
  unfold hex_to_rgb. cbv zeta. rewrite Ez. cbn [take drop].
  repeat match goal with
         | H : Forall _ (_ :: _) |- _ =>
           apply Forall_cons in H as [? H]
         end.
  rewrite !int_16_paire by assumption.
  cbn [mbind resultat_bind].
  assert (forall x, 48 <= x <= 57 \/ 65 <= x <= 70 ->
                    0 <= valeur_chiffre x < 16) as Hchiffre.
  { intros x Hx. unfold valeur_chiffre.
    destruct (Z.ltb_spec x 58); [lia|]. destruct (Z.ltb_spec x 91); lia. }
  unfold valeur_base in *. cbn [fold_left] in *.
  pose proof (Hchiffre a ltac:(assumption)).
  pose proof (Hchiffre b ltac:(assumption)).
  pose proof (Hchiffre c ltac:(assumption)).
  pose proof (Hchiffre d ltac:(assumption)).
  pose proof (Hchiffre e ltac:(assumption)).
  pose proof (Hchiffre f ltac:(assumption)).
  do 3 f_equal; Z.div_mod_to_equations; lia.
Qed.

(** X18 (hex_to_rgb, analyser_nombre): from 16777216 on, the entry [rgb] is
    read off the first six hexadecimal digits: it is made of the three
    bytes of the number without its other, last digits. *)
Theorem rgb_grands n :
  2 ^ 24 <= n ->
  let m := n / 16 ^ (Z.of_nat (length (py_upper (drop 2 (py_hex n)))) - 6) in
  hex_to_rgb (py_upper (drop 2 (py_hex n)))
  = Retour (m / 65536, m / 256 mod 256, m mod 256).
Proof.
  intros Hn. change (2 ^ 24) with 16777216 in Hn.
  unfold py_hex. destruct (Z.ltb_spec n 0) as [|_]; [lia|].
  change (drop 2 (utf8 "0x" ++ chiffres 16 n)) with (chiffres 16 n).
  rewrite py_upper_ascii by (apply chiffres_ascii; lia).
  destruct (chiffres_base 16 n ltac:(lia) ltac:(lia))
    as (Hne & Hds & Hv & Hsup & Hinf).
  destruct (valeur_base_majuscules 16 _ Hds) as [Hv' Hf].
  rewrite Hv in Hv'.
  assert (length (map (fun c => if (97 <=? c) && (c <=? 122)
                                then c - 32 else c) (chiffres 16 n))
          = length (chiffres 16 n)) as Hlong by apply length_map.
  set (hs := map (fun c => if (97 <=? c) && (c <=? 122) then c - 32 else c)
                 (chiffres 16 n)) in *.
  rewrite <- Hlong in Hsup. clear Hinf Hlong Hds Hv Hne.
  assert (6 < Z.of_nat (length hs)) as Hlen.
  { destruct (Z.lt_ge_cases 6 (Z.of_nat (length hs))) as [|Hpetit];
      [assumption|].
    assert (16 ^ Z.of_nat (length hs) <= 16 ^ 6)
      by (apply Z.pow_le_mono_r; lia).
    change (16 ^ 6) with 16777216 in *. lia. }
  assert (py_zfill 6 hs = hs) as Ez.
  { unfold py_zfill. cbv zeta.
    replace (Z.to_nat (6 - Z.of_nat (length hs))) with 0%nat by lia.
    destruct hs as [|x r]; [reflexivity|].
    apply Forall_cons in Hf as [Hx _].
    change (ord "+") with 43. change (ord "-") with 45.
    destruct (Z.eqb_spec x 43); [lia|].
    destruct (Z.eqb_spec x 45); [lia|]. reflexivity. }
  cbv zeta. unfold hex_to_rgb. cbv zeta. rewrite Ez.
  destruct hs as [|a [|b [|c [|d [|e [|f q]]]]]];
    try (cbn [length] in Hlen; lia).
  cbn [take drop].
  destruct (valeur_base_scinde 16 [a; b; c; d; e; f] q ltac:(lia))
    as [Hscinde Hreste].
  { do 6 (apply Forall_cons in Hf as [_ Hf]).
    eapply Forall_impl; [exact Hf|]. intros x Hx. cbv beta in Hx.
    apply valeur_chiffre_hexa, Hx. }
  cbn [app] in Hscinde. rewrite Hv' in Hscinde.
  replace (Z.of_nat (length (a :: b :: c :: d :: e :: f :: q)) - 6)
    with (Z.of_nat (length q)) by (cbn [length]; lia).
  assert (n / 16 ^ Z.of_nat (length q) = valeur_base 16 [a; b; c; d; e; f])
    as ->.
  { symmetry. apply (Z.div_unique_pos _ _ _ (valeur_base 16 q)); [lia|].
    rewrite Hscinde. ring. }
  repeat match goal with
         | H : Forall _ (_ :: _) |- _ =>
           apply Forall_cons in H as [? H]
         end.
  rewrite !int_16_paire by assumption.
  cbn [mbind resultat_bind].
  unfold valeur_base. cbn [fold_left].
  pose proof (valeur_chiffre_hexa a ltac:(assumption)).
  pose proof (valeur_chiffre_hexa b ltac:(assumption)).
  pose proof (valeur_chiffre_hexa c ltac:(assumption)).
  pose proof (valeur_chiffre_hexa d ltac:(assumption)).
  pose proof (valeur_chiffre_hexa e ltac:(assumption)).
  pose proof (valeur_chiffre_hexa f ltac:(assumption)).
  do 3 f_equal; Z.div_mod_to_equations; lia.
Qed.

End TheorieCouleur.

Lemma rgb_octets_temoin :
  hex_to_rgb (H := base16_chiffres_seuls)
    (py_upper (H := unicode_latin_cyrillique) (drop 2 (py_hex 74)))
  = Retour (0, 0, 74).
Proof.
  apply (rgb_octets (H := unicode_latin_cyrillique)
           (H0 := base16_chiffres_seuls) 74).
  change (2 ^ 24) with 16777216. lia.
Defined.

Lemma rgb_grands_temoin :
  hex_to_rgb (H := base16_chiffres_seuls)
    (py_upper (H := unicode_latin_cyrillique) (drop 2 (py_hex 4886718345)))
  = Retour (18, 52, 86).
Proof.
  rewrite (rgb_grands (H := unicode_latin_cyrillique)
             (H0 := base16_chiffres_seuls) 4886718345).
  - vm_compute. reflexivity.
  - change (2 ^ 24) with 16777216. lia.
Defined.

(** ** The entry points *)

Lemma py_join_point x y (l : list chaine) :
  ord "." ∈ py_join [ord "."] (x :: y :: l).
Proof.
  cbn [py_join]. apply elem_of_app. right. left.
Qed.

Lemma py_join_sans_point (l : list chaine) :
  (length l <= 1)%nat -> Forall (fun t => ord "." ∉ t) l ->
  ord "." ∉ py_join [ord "."] l.
Proof.
  intros Hl Ht. destruct l as [|x [|y l]]; cbn [length] in Hl; [| |lia].
  - cbn [py_join]. apply not_elem_of_nil.
  - cbn [py_join]. apply Forall_cons in Ht as [Hx _]. exact Hx.
Qed.

Section TheorieEntree.
Context `{Unicode}.

Lemma sequence_sans_espace s :
  Forall primaire s ->
  Forall (fun c => py_isspace c = false)
    (py_join [ord "."] (map (fun c => py_str (valeur c)) s)).
Proof.
  intros Hs. induction Hs as [|c s Hc Hs IH]; [constructor|].
  assert (Forall (fun d => py_isspace d = false) (py_str (valeur c))) as Hd.
  { destruct (py_str_code _ (primaire_code c Hc)) as (_ & Hd & _).
    eapply Forall_impl; [exact Hd|]. intros d Hb. cbv beta in Hb.
    unfold py_isspace. bornes. }
  cbn [map py_join]. destruct s as [|c' s']; [exact Hd|].
  apply Forall_app. split; [exact Hd|].
  constructor; [reflexivity|exact IH].
Qed.

(** X19 (main, interface_interactive): the encoding of a word of two or
    more letters of the primary alphabet, given back as an argument, is
    taken as a sequence and decoded to the upper-case word; the encoding
    of a shorter word has no dot and is analysed as a text. *)
Theorem mot_analyse_encodage w :
  Forall lettre_primaire w ->
  mot_analyse (encoder_mot_cyrillique w)
  = Retour (if decide (2 <= length (py_upper w))%nat then py_upper w
            else encoder_mot_cyrillique w).
Proof.
  intros Hw. pose proof (py_upper_lettres w Hw) as Hu.
  assert (encoder_mot_cyrillique w
          = py_join [ord "."] (map (fun c => py_str (valeur c)) (py_upper w)))
    as Eenc.
  { rewrite encoder_eq, py_strip_sans_espace.
    - rewrite (jeton_primaire _ Hu). reflexivity.
    - eapply Forall_impl; [exact Hu|]. apply primaire_non_espace. }
  assert (decoder_sequence_cyrillique (encoder_mot_cyrillique w)
          = Retour (py_upper w)) as Edec.
  { rewrite Eenc. apply aller_retour_majuscules, Hu. }
  unfold mot_analyse. cbv zeta.
  rewrite (py_strip_sans_espace (encoder_mot_cyrillique w))
    by (rewrite Eenc; apply sequence_sans_espace, Hu).
  assert (Forall (fun t => ord "." ∉ t)
            (map (fun c => py_str (valeur c)) (py_upper w))) as Hpoint.
  { apply Forall_map. eapply Forall_impl; [exact Hu|].
    intros c Hc. cbv beta. apply py_str_sans_point.
    pose proof (primaire_code c Hc). lia. }
  destruct (decide (2 <= length (py_upper w))%nat) as [Hl|Hl].
  - replace (est_sequence (encoder_mot_cyrillique w)) with true;
      [exact Edec|].
    symmetry. unfold est_sequence. apply andb_true_iff. split.
    + apply bool_decide_eq_true. rewrite Eenc.
      destruct (py_upper w) as [|x [|y l]]; cbn [length] in Hl; try lia.
      apply py_join_point.
    + rewrite Eenc, py_split_join; [| |exact Hpoint].
      * apply forallb_forall. intros t Ht.
        apply in_map_iff in Ht as (c & <- & Hc).
        apply list_elem_of_In in Hc. rewrite Forall_forall in Hu.
        destruct (py_str_code _ (primaire_code c (Hu c Hc)))
          as (Hne & Hd & _).
        apply py_isdigit_ascii; assumption.
      * destruct (py_upper w); [cbn [length] in Hl; lia|discriminate].
  - replace (est_sequence (encoder_mot_cyrillique w)) with false;
      [reflexivity|].
    symmetry. unfold est_sequence. apply andb_false_iff. left.
    apply bool_decide_eq_false. rewrite Eenc.
    apply py_join_sans_point; [rewrite length_map; lia|exact Hpoint].
Qed.

End TheorieEntree.

Lemma mot_analyse_encodage_temoin :
  mot_analyse (H := unicode_latin_cyrillique)
    (encoder_mot_cyrillique (H := unicode_latin_cyrillique) (utf8 "мир"))
  = Retour (utf8 "МИР").
Proof.
  rewrite (mot_analyse_encodage (H := unicode_latin_cyrillique) (utf8 "мир")).
  - vm_compute. reflexivity.
  - lettres_primaires.
Defined.

(** ** The value of a word, continued *)

Lemma somme_permutation a b : a ≡ₚ b -> somme a = somme b.
Proof.
  induction 1 as [|x a b _ IH|x y a|a b c _ IH1 _ IH2].
  - reflexivity.
  - rewrite !somme_cons, IH. reflexivity.
  - rewrite !somme_cons. lia.
  - congruence.
Qed.

Lemma somme_bornes s : 0 <= somme s <= 33 * Z.of_nat (length s).
Proof.
  induction s as [|c s IH]; [cbn; lia|].
  rewrite somme_cons. cbn [length]. rewrite Nat2Z.inj_succ.
  assert (0 <= valeur c <= 33); [|lia].
  unfold valeur. destruct (ALPHABET_CYRILLIQUE !! c) as [n|] eqn:En; [|lia].
  pose proof (map_Forall_lookup_1 _ _ _ _ alphabet_faits En) as [Hn _]. lia.
Qed.

Section TheorieValeurMots.
Context `{Unicode}.

(** X20 (mot_vers_nombre): the value of a word is the sum of the values of
    its parts, it does not depend on the order of the characters, and it
    lies between 0 and 33 times the length of the upper-case word. *)
Theorem valeur_mots :
  (forall w1 w2,
     mot_vers_nombre (w1 ++ w2) = mot_vers_nombre w1 + mot_vers_nombre w2)
  /\ (forall w1 w2, w1 ≡ₚ w2 -> mot_vers_nombre w1 = mot_vers_nombre w2)
  /\ (forall w,
        0 <= mot_vers_nombre w <= 33 * Z.of_nat (length (py_upper w))).
Proof.
  split; [|split].
  - intros w1 w2. rewrite !mot_vers_nombre_somme, py_upper_app.
    apply somme_app.
  - intros w1 w2 Hp. rewrite !mot_vers_nombre_somme.
    apply somme_permutation. unfold py_upper.
    apply Permutation_flat_map, Hp.
  - intros w. rewrite mot_vers_nombre_somme. apply somme_bornes.
Qed.

End TheorieValeurMots.

(** ** Prime numbers, continued *)

(** X21 (is_prime): for [n] below 2^52 the test returns, [True] on the
    prime numbers and [False] on every other number. *)
Theorem is_prime_primalite n :
  n < 2 ^ 52 ->
  (is_prime n = Retour true <-> Z.prime n)
  /\ (is_prime n = Retour false <-> ~ Z.prime n).
Proof.
  intros H52. pose proof (is_prime_premier n H52) as Hp.
  split; [exact Hp|].
  destruct (is_prime_spec n H52) as (b & Eb & _). rewrite Eb in Hp |- *.
  destruct b; split; intros Hn.
  - discriminate.
  - exfalso. apply Hn, Hp. reflexivity.
  - intros Hpr. apply Hp in Hpr. discriminate.
  - reflexivity.
Qed.

Lemma is_prime_primalite_temoin : Z.prime 37 /\ ~ Z.prime 74.
Proof.
  split.
  - apply (proj1 (is_prime_primalite 37 eq_refl)). vm_compute. reflexivity.
  - apply (proj2 (is_prime_primalite 74 eq_refl)). vm_compute. reflexivity.
Defined.

(** * Evaluation on concrete inputs *)

Section Exemples.
Local Existing Instance unicode_latin_cyrillique.

Example encoder_privet :
  encoder_mot_cyrillique (utf8 "ПРИВЕТ") = utf8 "17.18.10.3.6.20".
Proof. vm_compute. reflexivity. Qed.

Example encoder_privet_min :
  encoder_mot_cyrillique (utf8 " привет ") = utf8 "17.18.10.3.6.20".
Proof. vm_compute. reflexivity. Qed.

Example decoder_privet :
  decoder_sequence_cyrillique (utf8 "17.18.10.3.6.20") = Retour (utf8 "ПРИВЕТ").
Proof. vm_compute. reflexivity. Qed.

Example encoder_hello :
  encoder_mot_cyrillique (utf8 "Hello, Мир!") = utf8 "8.5.12.12.15.14.10.18".
Proof. vm_compute. reflexivity. Qed.

Example factorize_74 : factorize 74 = Some [2; 37].
Proof. vm_compute. reflexivity. Qed.

Example factorize_360 : factorize 360 = Some [2; 2; 2; 3; 3; 5].
Proof. vm_compute. reflexivity. Qed.

Example is_prime_exemples :
  filter (fun n => is_prime n = Retour true) (seqZ (-3) 40)
  = [2; 3; 5; 7; 11; 13; 17; 19; 23; 29; 31].
Proof. vm_compute. reflexivity. Qed.

Example is_prime_grand : is_prime (2 ^ 1024) = Leve OverflowError.
Proof. vm_compute. reflexivity. Qed.

Example is_fibonacci_exemples :
  filter (fun n => is_fibonacci n = Retour true) (seqZ (-3) 100)
  = [0; 1; 2; 3; 5; 8; 13; 21; 34; 55; 89].
Proof. vm_compute. reflexivity. Qed.

Example ipv4_exemple : number_to_ipv4 3232235777 = utf8 "192.168.1.1".
Proof. vm_compute. reflexivity. Qed.

Example int_math_sqrt_binary64_74 : int_math_sqrt_binary64 74 = Some 8.
Proof. vm_compute. reflexivity. Qed.

(** Above 2^52 the rounded root can reach the next integer. *)
Example int_math_sqrt_binary64_au_dela :
  int_math_sqrt_binary64 (2 ^ 54 - 2 ^ 28) = Some (2 ^ 27 - 1)
  /\ Z.sqrt (2 ^ 54 - 2 ^ 28) = 2 ^ 27 - 2.
Proof. split; vm_compute; reflexivity. Qed.

Example hex_74 : py_hex 74 = utf8 "0x4a".
Proof. vm_compute. reflexivity. Qed.

Example unix_0 :
  unix_to_datetime (H := horloge_utc) 0
  = Retour (utf8 "Thursday, 01 January 1970 at 00:00:00 UTC").
Proof. vm_compute. reflexivity. Qed.

Example unix_2e9 :
  unix_to_datetime (H := horloge_utc) 2000000000
  = Retour (utf8 "Wednesday, 18 May 2033 at 03:33:20 UTC").
Proof. vm_compute. reflexivity. Qed.

Example unix_bissextile :
  unix_to_datetime (H := horloge_utc) 951782400
  = Retour (utf8 "Tuesday, 29 February 2000 at 00:00:00 UTC").
Proof. vm_compute. reflexivity. Qed.

Example find_previous_primes_74 :
  find_previous_primes 74 8
  = Some (Retour [73; 71; 67; 61; 59; 53; 47; 43]).
Proof. vm_compute. reflexivity. Qed.

Example sequence_vers_nombre_privet :
  sequence_vers_nombre (utf8 "17.18.10.3.6.20") = Retour 74.
Proof. vm_compute. reflexivity. Qed.

Example decoder_hello :
  decoder_sequence_cyrillique (encoder_mot_cyrillique (utf8 "HELLO"))
  = Retour (utf8 "ЖДККН").
Proof. vm_compute. reflexivity. Qed.

Example est_palindrome_exemples :
  est_palindrome (utf8 "А роза упала на лапу Азора") = true
  /\ est_palindrome (utf8 "Привет") = false.
Proof. split; vm_compute; reflexivity. Qed.

Example compter_exemples :
  compter_voyelles_cyrilliques (utf8 "Объявление") = 5
  /\ compter_consonnes_cyrilliques (utf8 "Объявление") = 4.
Proof. split; vm_compute; reflexivity. Qed.

Example lettres_uniques_privet :
  lettres_uniques (utf8 "Привет мир") = utf8 " ВЕИМПРТ".
Proof. vm_compute. reflexivity. Qed.

Example number_to_english_exemples :
  number_to_english 74
  = Some (Rendu (utf8 "семьдесят (seventy) четыре (four)"))
  /\ number_to_english 1000 = Some (Rendu (utf8 "один (one) тысяча (thousand)"))
  /\ number_to_english (-110)
     = Some (Rendu (utf8 "отрицательный (negative) один (one) сто (hundred) десять (ten)"))
  /\ number_to_english 1000000000000 = Some IndexError.
Proof.
  split; [vm_compute; reflexivity|]. split; [vm_compute; reflexivity|].
  split; vm_compute; reflexivity.
Qed.

Example digit_sum_74 : digit_sum 74 = Retour 11 /\ digit_count 74 = 2.
Proof. split; vm_compute; reflexivity. Qed.

Example hex_to_rgb_exemples :
  hex_to_rgb (H := base16_chiffres_seuls) (utf8 "4A") = Retour (0, 0, 74)
  /\ hex_to_rgb (H := base16_chiffres_seuls) (utf8 "FF8000")
     = Retour (255, 128, 0).
Proof. split; vm_compute; reflexivity. Qed.

Example mot_analyse_exemples :
  mot_analyse (utf8 " 17.18.10.3.6.20 ") = Retour (utf8 "ПРИВЕТ")
  /\ mot_analyse (utf8 "17") = Retour (utf8 "17")
  /\ mot_analyse (utf8 "Привет.") = Retour (utf8 "Привет.").
Proof.
  split; [vm_compute; reflexivity|]. split; vm_compute; reflexivity.
Qed.

End Exemples.
